(** * clay_bar: a Clay + Cairo + X11 status bar

    Shallow embedding of [clay_bar.c] (the Clay variant with the clickable
    menu and the floating dropdown) and the properties of its layout,
    hit-testing, click dispatch, text measurement and status buffer.

    The C program is single threaded; its globals ([screen_w],
    [dropdown_open], [timebuf], [statusbuf] and the Clay context) are
    threaded explicitly as a record.  Calls into Xlib, Cairo and the
    process launcher are recorded as a list of effects. *)

From Stdlib Require Import ZArith QArith Qround Qabs Qpower Qminmax Lia Lqa Morphisms.
From Stdlib Require Import List String Ascii.
From Stdlib.Strings Require Import Byte.
From Stdlib.Floats Require Import SpecFloat.
From stdpp Require Import base option list sorting strings gmap.
Import ListNotations.
Open Scope string_scope.
Open Scope list_scope.
Open Scope Z_scope.

(** ** C [float]: IEEE-754 binary32 values as rationals

    Every finite binary32 value is a rational, and every operation of the
    program on floats is "compute exactly, then round to nearest, ties to
    even, on 24 significant bits".  [rnd] is that rounding, with an
    unbounded exponent range: it agrees with binary32 as long as the
    result neither overflows (magnitude at least 2^128) nor is a
    subnormal that is not already representable.  Infinities and NaN are
    outside the type. *)

Module F32.

Definition float := Q.

Definition prec : Z := 24.

(** [ilog2 q] is the integer [l] with [2^l <= q < 2^(l+1)], for [0 < q]. *)
Definition ilog2 (q : Q) : Z :=
  let k := Z.log2 (Qnum q) - Z.log2 (Zpos (Qden q)) in
  if Qle_bool (2 ^ k) q then k else k - 1.

Definition round_half_even (q : Q) : Z :=
  let f := Qfloor q in
  match (q - inject_Z f ?= 1 # 2)%Q with
  | Lt => f
  | Gt => f + 1
  | Eq => if Z.even f then f else f + 1
  end.

Definition rnd_pos (a : Q) : Q :=
  let e := ilog2 a - (prec - 1) in
  (inject_Z (round_half_even (a / 2 ^ e)) * 2 ^ e)%Q.

Definition rnd (q : Q) : float :=
  match (q ?= 0)%Q with
  | Eq => 0%Q
  | Gt => Qred (rnd_pos q)
  | Lt => Qred (- rnd_pos (- q))
  end.

Definition add (a b : float) : float := rnd (a + b).
Definition sub (a b : float) : float := rnd (a - b).
Definition mul (a b : float) : float := rnd (a * b).

(** [(float)z] for an integer [z]. *)
Definition of_int (z : Z) : float := rnd (inject_Z z).

Definition INT_MIN : Z := - 2 ^ 31.
Definition INT_MAX : Z := 2 ^ 31 - 1.

(** [(int)a]: truncation toward zero; undefined in C (here [None]) when
    the truncated value is not representable in a 32-bit [int]. *)
Definition to_int (a : float) : option Z :=
  let t := Z.quot (Qnum a) (Zpos (Qden a)) in
  if (INT_MIN <=? t) && (t <=? INT_MAX) then Some t else None.

End F32.

Abbreviation float := F32.float.

(** ** The Clay types the program uses *)

Record Clay_Dimensions := { dim_width : float; dim_height : float }.

Record Clay_Vector2 := { vec_x : float; vec_y : float }.

Record Clay_BoundingBox :=
  { bb_x : float; bb_y : float; bb_width : float; bb_height : float }.

Record Clay_Color := { col_r : float; col_g : float; col_b : float; col_a : float }.

(** A string slice: the program's callback only reads [length]. *)
Record Clay_StringSlice := { ss_length : Z; ss_chars : string }.

(** [fontSize] and [letterSpacing] are unsigned 16-bit fields. *)
Record Clay_TextElementConfig :=
  { textColor : Clay_Color; fontSize : N; letterSpacing : N }.

Inductive Clay_SizingAxis :=
| CLAY_SIZING_FIXED (px : float)
| CLAY_SIZING_PERCENT (fraction : float)
| CLAY_SIZING_GROW (min : float).

Record Clay_Sizing := { sz_width : Clay_SizingAxis; sz_height : Clay_SizingAxis }.

Record Clay_Padding :=
  { pad_left : Z; pad_right : Z; pad_top : Z; pad_bottom : Z }.

Definition CLAY_PADDING_ALL (p : Z) : Clay_Padding :=
  {| pad_left := p; pad_right := p; pad_top := p; pad_bottom := p |}.

Inductive Clay_LayoutAlignmentX := CLAY_ALIGN_X_LEFT | CLAY_ALIGN_X_RIGHT | CLAY_ALIGN_X_CENTER.
Inductive Clay_LayoutAlignmentY := CLAY_ALIGN_Y_TOP | CLAY_ALIGN_Y_BOTTOM | CLAY_ALIGN_Y_CENTER.

Record Clay_ChildAlignment :=
  { align_x : Clay_LayoutAlignmentX; align_y : Clay_LayoutAlignmentY }.

Inductive Clay_LayoutDirection := CLAY_LEFT_TO_RIGHT | CLAY_TOP_TO_BOTTOM.

Record Clay_LayoutConfig :=
  { sizing : Clay_Sizing;
    padding : Clay_Padding;
    childGap : Z;
    childAlignment : Clay_ChildAlignment;
    layoutDirection : Clay_LayoutDirection }.

Record Clay_BorderWidth :=
  { bw_left : Z; bw_right : Z; bw_top : Z; bw_bottom : Z }.

Definition CLAY_BORDER_ALL (w : Z) : Clay_BorderWidth :=
  {| bw_left := w; bw_right := w; bw_top := w; bw_bottom := w |}.

Record Clay_BorderElementConfig :=
  { border_color : Clay_Color; border_width : Clay_BorderWidth }.

Inductive Clay_FloatingAttachPointType :=
| CLAY_ATTACH_POINT_LEFT_TOP
| CLAY_ATTACH_POINT_RIGHT_TOP
| CLAY_ATTACH_POINT_LEFT_BOTTOM
| CLAY_ATTACH_POINT_RIGHT_BOTTOM.

Record Clay_FloatingAttachPoints :=
  { ap_element : Clay_FloatingAttachPointType;
    ap_parent : Clay_FloatingAttachPointType }.

Inductive Clay_FloatingAttachToElement :=
| CLAY_ATTACH_TO_NONE
| CLAY_ATTACH_TO_PARENT
| CLAY_ATTACH_TO_ROOT.

Record Clay_FloatingElementConfig :=
  { offset : Clay_Vector2;
    attachPoints : Clay_FloatingAttachPoints;
    attachTo : Clay_FloatingAttachToElement }.

Record Clay_ElementDeclaration :=
  { id : string;
    layout : Clay_LayoutConfig;
    backgroundColor : Clay_Color;
    border : Clay_BorderElementConfig;
    floating : Clay_FloatingElementConfig;
    zIndex : Z }.

(** What a [CLAY({...}) { ... }] block or a [CLAY_TEXT] call declares. *)
#[warnings="-register-all"] Inductive Element :=
| CLAY (decl : Clay_ElementDeclaration) (children : list Element)
| CLAY_TEXT (text : string) (config : Clay_TextElementConfig).

Inductive Clay_RenderData :=
| CLAY_RENDER_COMMAND_TYPE_RECTANGLE (backgroundColor : Clay_Color)
| CLAY_RENDER_COMMAND_TYPE_BORDER (color : Clay_Color) (width : Clay_BorderWidth)
| CLAY_RENDER_COMMAND_TYPE_TEXT (stringContents : string) (fontSize : N)
    (textColor : Clay_Color).

Record Clay_RenderCommand :=
  { boundingBox : Clay_BoundingBox; renderData : Clay_RenderData }.

Record Clay_ElementData := { ed_boundingBox : Clay_BoundingBox; found : bool }.

(** Zero-initialised values of designated initialisers that leave a
    field out. *)
Definition color (r g b a : Z) : Clay_Color :=
  {| col_r := inject_Z r; col_g := inject_Z g; col_b := inject_Z b; col_a := inject_Z a |}.

Definition no_color : Clay_Color := color 0 0 0 0.

Definition no_border : Clay_BorderElementConfig :=
  {| border_color := no_color; border_width := CLAY_BORDER_ALL 0 |}.

Definition no_alignment : Clay_ChildAlignment :=
  {| align_x := CLAY_ALIGN_X_LEFT; align_y := CLAY_ALIGN_Y_TOP |}.

Definition not_floating : Clay_FloatingElementConfig :=
  {| offset := {| vec_x := 0%Q; vec_y := 0%Q |};
     attachPoints := {| ap_element := CLAY_ATTACH_POINT_LEFT_TOP;
                        ap_parent := CLAY_ATTACH_POINT_LEFT_TOP |};
     attachTo := CLAY_ATTACH_TO_NONE |}.

Definition zero_box : Clay_BoundingBox :=
  {| bb_x := 0%Q; bb_y := 0%Q; bb_width := 0%Q; bb_height := 0%Q |}.

(** ** Global constants and C helpers *)

Definition BAR_HEIGHT : Z := 26.

Definition STATUSBUF_SIZE : Z := 512.

(** C truth of an [int], and [!e]. *)
Definition truthy (z : Z) : bool := negb (z =? 0).
Definition c_not (z : Z) : Z := if z =? 0 then 1 else 0.
Definition c_bool (b : bool) : Z := if b then 1 else 0.

(** The C string held in a [char] buffer: the bytes before the first NUL. *)
Fixpoint c_str (buf : list byte) : list byte :=
  match buf with
  | [] => []
  | b :: rest => if Byte.eqb b x00 then [] else b :: c_str rest
  end.

(** ** [measure_text_fn] *)

Definition measure_text_fn (s : Clay_StringSlice)
    (cfg : option Clay_TextElementConfig) (userData : Z) : Clay_Dimensions :=
  let font_size :=
    match cfg with
    | Some c => F32.of_int (Z.of_N (fontSize c))
    | None => 12%Q
    end in
  let approx_width :=
    F32.add
      (F32.mul (F32.of_int (ss_length s)) (F32.mul font_size (F32.rnd (55 # 100))))
      (F32.of_int (match cfg with Some c => Z.of_N (letterSpacing c) | None => 0 end)) in
  let approx_height :=
    match cfg with
    | Some c => F32.of_int (Z.of_N (fontSize c))
    | None => font_size
    end in
  {| dim_width := approx_width; dim_height := approx_height |}.

(** ** [update_root_status] *)

(** What [XGetWMName] hands back: its status and the text property,
    whose [value] may be the null pointer.  The condition
    [XGetWMName(...) && tprop.value] reads [value] only after a
    non-zero status. *)
Record XTextProperty :=
  { value : option (list byte); encoding : Z; format : Z; nitems : Z }.

(** The text property of a successful [XGetWMName] on an 8-bit
    property: [nitems] bytes at [value]. *)
Definition tprop_ok (tprop : XTextProperty) : Prop :=
  forall v, value tprop = Some v ->
            0 <= nitems tprop <= Z.of_nat (List.length v).

(** [XGetTextProperty] reports a property only together with the atom
    of its type, which is never [None] (0): a fetch that yields a value
    yields a non-zero [encoding]. *)
Definition typed_fetch (status : Z) (tprop : XTextProperty) : Prop :=
  truthy status = true -> value tprop <> None -> encoding tprop <> 0.

(** [memcpy dst src n]; [None] when [n] bytes cannot be read from [src]
    or written to [dst]. *)
Definition memcpy (dst src : list byte) (n : Z) : option (list byte) :=
  if (0 <=? n) && (n <=? Z.of_nat (List.length src)) && (n <=? Z.of_nat (List.length dst))
  then Some (take (Z.to_nat n) src ++ drop (Z.to_nat n) dst)%list
  else None.

(** [buf[i] = b]; [None] when [i] is outside the array. *)
Definition store (buf : list byte) (i : Z) (b : byte) : option (list byte) :=
  if (0 <=? i) && (i <? Z.of_nat (List.length buf))
  then Some (<[Z.to_nat i := b]> buf)
  else None.

(** [XFree(data)] on an [Atom].  [XFree] releases a block that Xlib
    allocated; [tprop.encoding] is the atom naming the type of the
    property (31 for [XA_STRING]), a number and not such a block, so the
    call is undefined whatever the atom is. *)
Definition XFree_atom (a : Z) : option unit := None.

(** The result is the new content of [statusbuf]; [None] when the call
    is undefined.  The last statement of the successful branch,
    [if (tprop.encoding) XFree(tprop.encoding);], frees the atom and not
    [tprop.value]. *)
Definition update_root_status (status : Z) (tprop : XTextProperty)
    (statusbuf : list byte) : option (list byte) :=
  match (if truthy status then value tprop else None) with
  | Some v =>
      let len := nitems tprop in
      let len := if len >? STATUSBUF_SIZE - 1 then STATUSBUF_SIZE - 1 else len in
      buf ← memcpy statusbuf v len;
      buf ← store buf len x00;
      if truthy (encoding tprop)
      then _ ← XFree_atom (encoding tprop); Some buf
      else Some buf
  | None => store statusbuf 0 x00
  end.

(** ** [point_in_element] *)

(** The boxes Clay computed at the last [Clay_EndLayout], by element id. *)
Abbreviation Clay_Context := (gmap string Clay_BoundingBox).

(** Modelled from the spec: [clay.h] is not part of the sources, so
    [CLAY_ID] and [Clay_GetElementData] are the lookup of the identifier
    in the boxes of the most recent layout, [found] telling whether the
    identifier is there. *)
Definition CLAY_ID (label : string) : string := label.

(** Modelled from the spec: the box of an identifier in the most recent
    layout, with [found] false (and a zero box) when the identifier is
    not in it. *)
Definition Clay_GetElementData (ctx : Clay_Context) (id : string) : Clay_ElementData :=
  match ctx !! id with
  | Some bb => {| ed_boundingBox := bb; found := true |}
  | None => {| ed_boundingBox := zero_box; found := false |}
  end.

(** The conjunction is evaluated left to right and stops at the first
    false operand, so a cast is only performed when it is reached. *)
Definition point_in_element (ctx : Clay_Context) (id_str : string) (px py : Z)
    : option Z :=
  let ed := Clay_GetElementData ctx (CLAY_ID id_str) in
  if negb (found ed) then Some 0 else
  let x := bb_x (ed_boundingBox ed) in
  let y := bb_y (ed_boundingBox ed) in
  let w := bb_width (ed_boundingBox ed) in
  let h := bb_height (ed_boundingBox ed) in
  ix ← F32.to_int x;
  if negb (px >=? ix) then Some 0 else
  ixw ← F32.to_int (F32.add x w);
  if negb (px <? ixw) then Some 0 else
  iy ← F32.to_int y;
  if negb (py >=? iy) then Some 0 else
  iyh ← F32.to_int (F32.add y h);
  Some (c_bool (py <? iyh)).

(** ** The layout declared by [render_clay_with_cairo] *)

(** Modelled from the spec: [CLAY_STRING] is a macro of [clay.h]; applied
    to a [char] buffer it denotes the C string the buffer holds. *)
Definition CLAY_STRING (buf : list byte) : string :=
  string_of_list_byte (c_str buf).

Definition fixed_layout (w h : float) : Clay_LayoutConfig :=
  {| sizing := {| sz_width := CLAY_SIZING_FIXED w; sz_height := CLAY_SIZING_FIXED h |};
     padding := CLAY_PADDING_ALL 0;
     childGap := 0;
     childAlignment := no_alignment;
     layoutDirection := CLAY_LEFT_TO_RIGHT |}.

Definition root_decl (screen_w : Z) : Clay_ElementDeclaration :=
  {| id := CLAY_ID "root";
     backgroundColor := color 18 18 18 255;
     layout := fixed_layout (F32.of_int screen_w) (F32.of_int BAR_HEIGHT);
     border := no_border;
     floating := not_floating;
     zIndex := 0 |}.

Definition left_decl : Clay_ElementDeclaration :=
  {| id := CLAY_ID "left";
     layout :=
       {| layoutDirection := CLAY_LEFT_TO_RIGHT;
          sizing := {| sz_width := CLAY_SIZING_FIXED 250%Q;
                       sz_height := CLAY_SIZING_FIXED (F32.of_int BAR_HEIGHT) |};
          childGap := 6;
          padding := CLAY_PADDING_ALL 6;
          childAlignment := no_alignment |};
     backgroundColor := color 25 25 25 255;
     border := no_border;
     floating := not_floating;
     zIndex := 0 |}.

Definition menu_toggle_decl : Clay_ElementDeclaration :=
  {| id := CLAY_ID "menu_toggle";
     layout := fixed_layout 60%Q (F32.sub (F32.of_int BAR_HEIGHT) 12%Q);
     backgroundColor := color 40 40 40 255;
     border := {| border_color := color 120 120 120 255;
                  border_width := CLAY_BORDER_ALL 1 |};
     floating := not_floating;
     zIndex := 0 |}.

Definition time_text_decl : Clay_ElementDeclaration :=
  {| id := CLAY_ID "time_text";
     layout := fixed_layout 170%Q (F32.sub (F32.of_int BAR_HEIGHT) 12%Q);
     backgroundColor := no_color;
     border := no_border;
     floating := not_floating;
     zIndex := 0 |}.

Definition center_decl : Clay_ElementDeclaration :=
  {| id := CLAY_ID "center";
     layout :=
       {| sizing := {| sz_width := CLAY_SIZING_PERCENT 1%Q;
                       sz_height := CLAY_SIZING_FIXED (F32.of_int BAR_HEIGHT) |};
          childAlignment := {| align_x := CLAY_ALIGN_X_CENTER;
                               align_y := CLAY_ALIGN_Y_CENTER |};
          padding := CLAY_PADDING_ALL 0;
          childGap := 0;
          layoutDirection := CLAY_LEFT_TO_RIGHT |};
     backgroundColor := no_color;
     border := no_border;
     floating := not_floating;
     zIndex := 0 |}.

Definition dropdown_decl : Clay_ElementDeclaration :=
  {| id := CLAY_ID "dropdown";
     floating :=
       {| attachTo := CLAY_ATTACH_TO_ROOT;
          attachPoints := {| ap_element := CLAY_ATTACH_POINT_LEFT_TOP;
                             ap_parent := CLAY_ATTACH_POINT_LEFT_TOP |};
          offset := {| vec_x := 6%Q; vec_y := F32.of_int BAR_HEIGHT |} |};
     zIndex := 100;
     backgroundColor := color 28 28 28 255;
     layout :=
       {| sizing := {| sz_width := CLAY_SIZING_FIXED 180%Q;
                       sz_height := CLAY_SIZING_FIXED 120%Q |};
          padding := CLAY_PADDING_ALL 6;
          childGap := 6;
          layoutDirection := CLAY_TOP_TO_BOTTOM;
          childAlignment := no_alignment |};
     border := {| border_color := color 90 90 90 255;
                  border_width := CLAY_BORDER_ALL 1 |} |}.

Definition item_decl (name : string) : Clay_ElementDeclaration :=
  {| id := CLAY_ID name;
     layout :=
       {| sizing := {| sz_width := CLAY_SIZING_GROW 0%Q;
                       sz_height := CLAY_SIZING_FIXED 28%Q |};
          padding := CLAY_PADDING_ALL 0;
          childGap := 0;
          childAlignment := no_alignment;
          layoutDirection := CLAY_LEFT_TO_RIGHT |};
     backgroundColor := no_color;
     border := no_border;
     floating := not_floating;
     zIndex := 0 |}.

Definition text_config (r g b : Z) : Clay_TextElementConfig :=
  {| fontSize := 12; textColor := color r g b 255; letterSpacing := 0 |}.

Definition dropdown_element : Element :=
  CLAY dropdown_decl
    [ CLAY (item_decl "item1") [ CLAY_TEXT "Open xterm" (text_config 220 220 220) ];
      CLAY (item_decl "item2")
        [ CLAY_TEXT "Show files (xdg-open .)" (text_config 220 220 220) ] ].

(** The element tree declared between [Clay_BeginLayout] and
    [Clay_EndLayout]. *)
Definition bar_layout (screen_w dropdown_open : Z) (timebuf statusbuf : list byte)
    : Element :=
  CLAY (root_decl screen_w)
    ([ CLAY left_decl
         [ CLAY menu_toggle_decl [ CLAY_TEXT "Menu" (text_config 230 230 230) ];
           CLAY time_text_decl
             [ CLAY_TEXT (CLAY_STRING timebuf) (text_config 220 220 220) ] ];
       CLAY center_decl
         [ CLAY_TEXT (CLAY_STRING statusbuf) (text_config 200 200 200) ] ]
     ++ (if truthy dropdown_open then [ dropdown_element ] else []))%list.

(** The identifiers declared in a tree. *)
Fixpoint element_ids (e : Element) : list string :=
  match e with
  | CLAY d cs => id d :: flat_map element_ids cs
  | CLAY_TEXT _ _ => []
  end.

(** ** The bar's state, rendering and event dispatch *)

Record Bar :=
  { screen_w : Z;
    dropdown_open : Z;
    timebuf : list byte;
    statusbuf : list byte;
    clay : Clay_Context }.

(** What the program does to the outside world. *)
Inductive Effect :=
| Spawn (argv : list string)
| SurfaceSetSize (w h : Z)
| Paint (cmds : list Clay_RenderCommand).

Inductive XEvent :=
| Expose
| ConfigureNotify (width : Z)
| ButtonPress (x y : Z)
| ButtonRelease
| OtherEvent.

Definition set_dropdown_open (v : Z) (st : Bar) : Bar :=
  {| screen_w := screen_w st; dropdown_open := v; timebuf := timebuf st;
     statusbuf := statusbuf st; clay := clay st |}.

Definition set_screen_w (w : Z) (st : Bar) : Bar :=
  {| screen_w := w; dropdown_open := dropdown_open st; timebuf := timebuf st;
     statusbuf := statusbuf st; clay := clay st |}.

Section Driver.

(** Clay's layout pass, from [Clay_SetLayoutDimensions] and the declared
    tree to the render commands and the boxes later queried by
    [Clay_GetElementData].  [clay.h] is not part of the sources: the
    driver is written against any such pass. *)
Variable Clay_Layout :
  Clay_Dimensions -> Element -> list Clay_RenderCommand * Clay_Context.

(** One frame: the layout is declared and resolved, the boxes stay in
    the Clay context, and the drawing loop paints the commands by
    increasing index (rectangle, border and text; other command types
    are ignored). *)
Definition render_clay_with_cairo (st : Bar) : Bar * list Effect :=
  let dims := {| dim_width := F32.of_int (screen_w st);
                 dim_height := F32.of_int BAR_HEIGHT |} in
  let tree := bar_layout (screen_w st) (dropdown_open st) (timebuf st) (statusbuf st) in
  let '(cmds, boxes) := Clay_Layout dims tree in
  ({| screen_w := screen_w st; dropdown_open := dropdown_open st;
      timebuf := timebuf st; statusbuf := statusbuf st; clay := boxes |},
   [ Paint cmds ]).

(** The [ButtonPress] branch of the event loop of [main]. *)
Definition on_button_press (st : Bar) (mx my : Z) : option (Bar * list Effect) :=
  toggle ← point_in_element (clay st) "menu_toggle" mx my;
  if truthy toggle then
    Some (render_clay_with_cairo (set_dropdown_open (c_not (dropdown_open st)) st))
  else if truthy (dropdown_open st) then
    hit1 ← point_in_element (clay st) "item1" mx my;
    if truthy hit1 then
      let '(st', fx) := render_clay_with_cairo (set_dropdown_open 0 st) in
      Some (st', Spawn [ "xterm" ] :: fx)
    else
      hit2 ← point_in_element (clay st) "item2" mx my;
      if truthy hit2 then
        let '(st', fx) := render_clay_with_cairo (set_dropdown_open 0 st) in
        Some (st', Spawn [ "xdg-open"; "." ] :: fx)
      else
        Some (render_clay_with_cairo (set_dropdown_open 0 st))
  else Some (st, []).

(** The [ConfigureNotify] branch of the event loop of [main]. *)
Definition on_configure (st : Bar) (width : Z) : Bar * list Effect :=
  if negb (width =? screen_w st) then
    let '(st', fx) := render_clay_with_cairo (set_screen_w width st) in
    (st', SurfaceSetSize width BAR_HEIGHT :: fx)
  else (st, []).

(** One event taken from the queue by the event loop of [main]. *)
Definition handle_event (st : Bar) (ev : XEvent) : option (Bar * list Effect) :=
  match ev with
  | Expose => Some (render_clay_with_cairo st)
  | ConfigureNotify width => Some (on_configure st width)
  | ButtonPress mx my => on_button_press st mx my
  | ButtonRelease => Some (st, [])
  | OtherEvent => Some (st, [])
  end.

(** The periodic refresh: [update_time] (whose [strftime] result is the
    input [now]), [update_root_status], then a frame. *)
Definition periodic_update (st : Bar) (now : list byte) (status : Z)
    (tprop : XTextProperty) : option (Bar * list Effect) :=
  buf ← update_root_status status tprop (statusbuf st);
  Some (render_clay_with_cairo
          {| screen_w := screen_w st; dropdown_open := dropdown_open st;
             timebuf := now; statusbuf := buf; clay := clay st |}).

(** The Clay context holds the boxes of the frame of the current state:
    what the hit test of the next click relies on. *)
Definition frame_in_sync (st : Bar) : Prop :=
  clay st
  = snd (Clay_Layout
           {| dim_width := F32.of_int (screen_w st);
              dim_height := F32.of_int BAR_HEIGHT |}
           (bar_layout (screen_w st) (dropdown_open st) (timebuf st) (statusbuf st))).

End Driver.

(** ** The layout engine: resolver and command emitter

    The engine itself lives in [clay.h], which is not part of the
    sources; what follows is the resolver and the emitter as the
    specification describes them. *)

Module Engine.

(** Modelled from the spec: a resolved element is the declared element
    with its absolute box; a text leaf remembers the identifier of the
    container that owns it. *)
#[warnings="-register-all"] Inductive Resolved :=
| RBox (decl : Clay_ElementDeclaration) (box : Clay_BoundingBox)
    (children : list Resolved)
| RText (owner : string) (box : Clay_BoundingBox) (text : string)
    (config : Clay_TextElementConfig).

(** Modelled from the spec: the outcome of a resolve pass, the
    non-floating tree and the floating subtrees with their z-index, in
    declaration order. *)
Record Frame := { flow : Resolved; floats : list (Z * Resolved) }.

(** Modelled from the spec: dimensions are clamped to zero rather than
    made negative. *)
Definition clamp0 (q : Q) : Q := Qmax 0 q.

(** Modelled from the spec: the sum of a list of extents. *)
Definition sumQ (l : list Q) : Q := fold_right Qplus 0%Q l.

(** Modelled from the spec: floating elements are excluded from the
    normal flow. *)
Definition is_floating (e : Element) : bool :=
  match e with
  | CLAY d _ =>
      match attachTo (floating d) with
      | CLAY_ATTACH_TO_NONE => false
      | _ => true
      end
  | CLAY_TEXT _ _ => false
  end.

(** Modelled from the spec: the children that take part in the normal flow. *)
Definition flow_children (cs : list Element) : list Element :=
  List.filter (fun c => negb (is_floating c)) cs.

(** Modelled from the spec: extents already known from fixed siblings. *)
Definition fixed_total (specs : list Clay_SizingAxis) : Q :=
  sumQ (omap (fun sp => match sp with
                        | CLAY_SIZING_FIXED px => Some (clamp0 px)
                        | _ => None
                        end) specs).

(** Modelled from the spec: [Fixed(px)] gets [px]; [PercentOfParent(f)]
    gets [f] times the space left after the fixed siblings and the
    percent and grow siblings already assigned; [Grow] takes all the
    space left; competing siblings are served in traversal order. *)
Fixpoint distribute (remaining : Q) (specs : list Clay_SizingAxis) : list Q :=
  match specs with
  | [] => []
  | CLAY_SIZING_FIXED px :: rest => clamp0 px :: distribute remaining rest
  | CLAY_SIZING_PERCENT f :: rest =>
      let s := (f * clamp0 remaining)%Q in
      s :: distribute (remaining - s)%Q rest
  | CLAY_SIZING_GROW min :: rest =>
      let s := Qmax min remaining in
      s :: distribute (remaining - s)%Q rest
  end.

(** Modelled from the spec: the extents of the children along the layout direction,
    out of the content extent left after the gaps and the fixed siblings. *)
Definition primary_extents (content gaps : Q) (specs : list Clay_SizingAxis) : list Q :=
  distribute (content - gaps - fixed_total specs)%Q specs.

(** Modelled from the spec: on the axis that is not the layout
    direction every child is sized against the parent's content
    extent. *)
Definition cross_extent (content : Q) (spec : Clay_SizingAxis) : Q :=
  match spec with
  | CLAY_SIZING_FIXED px => clamp0 px
  | CLAY_SIZING_PERCENT f => (f * clamp0 content)%Q
  | CLAY_SIZING_GROW min => Qmax min content
  end.

(** Modelled from the spec: start, center and end alignment place a
    child at none, half or all of the free space. *)
Definition align_x_factor (a : Clay_LayoutAlignmentX) : Q :=
  match a with
  | CLAY_ALIGN_X_LEFT => 0
  | CLAY_ALIGN_X_CENTER => 1 # 2
  | CLAY_ALIGN_X_RIGHT => 1
  end%Q.

(** Modelled from the spec: the same on the vertical axis. *)
Definition align_y_factor (a : Clay_LayoutAlignmentY) : Q :=
  match a with
  | CLAY_ALIGN_Y_TOP => 0
  | CLAY_ALIGN_Y_CENTER => 1 # 2
  | CLAY_ALIGN_Y_BOTTOM => 1
  end%Q.

(** Modelled from the spec: positions along the layout direction
    accumulate, advancing by each child's extent plus the gap. *)
Fixpoint accumulate (start gap : Q) (extents : list Q) : list Q :=
  match extents with
  | [] => []
  | e :: rest => start :: accumulate (start + e + gap)%Q gap rest
  end.

(** Modelled from the spec: the start of the first child is the content origin,
    moved by the share of the free space its alignment asks for. *)
Definition primary_positions (origin content gap gaps factor : Q)
    (extents : list Q) : list Q :=
  accumulate (origin + factor * clamp0 (content - gaps - sumQ extents))%Q gap extents.

(** Modelled from the spec: placement of a child across the layout direction. *)
Definition cross_position (origin content factor extent : Q) : Q :=
  (origin + factor * clamp0 (content - extent))%Q.

(** Modelled from the spec: the corner of a box an attach point names. *)
Definition anchor (t : Clay_FloatingAttachPointType) (b : Clay_BoundingBox) : Q * Q :=
  match t with
  | CLAY_ATTACH_POINT_LEFT_TOP => (bb_x b, bb_y b)
  | CLAY_ATTACH_POINT_RIGHT_TOP => (bb_x b + bb_width b, bb_y b)
  | CLAY_ATTACH_POINT_LEFT_BOTTOM => (bb_x b, bb_y b + bb_height b)
  | CLAY_ATTACH_POINT_RIGHT_BOTTOM => (bb_x b + bb_width b, bb_y b + bb_height b)
  end%Q.

(** Modelled from the spec: a floating box sits at the target's anchor
    point plus the configured offset, its own anchor point on it. *)
Definition floating_box (d : Clay_ElementDeclaration) (target : Clay_BoundingBox)
    : Clay_BoundingBox :=
  let w := cross_extent (bb_width target) (sz_width (sizing (layout d))) in
  let h := cross_extent (bb_height target) (sz_height (sizing (layout d))) in
  let p := anchor (ap_parent (attachPoints (floating d))) target in
  let e := anchor (ap_element (attachPoints (floating d)))
             {| bb_x := 0%Q; bb_y := 0%Q; bb_width := w; bb_height := h |} in
  {| bb_x := fst p - fst e + vec_x (offset (floating d));
     bb_y := snd p - snd e + vec_y (offset (floating d));
     bb_width := w;
     bb_height := h |}%Q.

(** Modelled from the spec: the boxes of the identified elements of a resolved tree. *)
Fixpoint boxes_of (r : Resolved) : list (string * Clay_BoundingBox) :=
  match r with
  | RBox d b cs => (id d, b) :: flat_map boxes_of cs
  | RText _ _ _ _ => []
  end.

(** Modelled from the spec: the floating elements of a tree in
    traversal order, each with the identifier of its logical parent. *)
Fixpoint floats_of (e : Element) : list (string * Element) :=
  match e with
  | CLAY d cs =>
      (fix go (l : list Element) : list (string * Element) :=
         match l with
         | [] => []
         | c :: l' =>
             (if is_floating c then [ (id d, c) ] else []) ++ floats_of c ++ go l'
         end%list) cs
  | CLAY_TEXT _ _ => []
  end.

(** Modelled from the spec: ascending z-index, declaration order among
    equals. *)
Fixpoint insert_by_z (x : Z * Resolved) (l : list (Z * Resolved))
    : list (Z * Resolved) :=
  match l with
  | [] => [ x ]
  | y :: l' => if fst x <? fst y then x :: y :: l' else y :: insert_by_z x l'
  end.

(** Modelled from the spec: stable insertion sort of the floating subtrees. *)
Definition sort_by_z (l : list (Z * Resolved)) : list (Z * Resolved) :=
  fold_left (fun acc x => insert_by_z x acc) l [].

(** Modelled from the spec: a border is drawn when one of its sides has a width. *)
Definition has_border (w : Clay_BorderWidth) : bool :=
  (0 <? bw_left w) || (0 <? bw_right w) || (0 <? bw_top w) || (0 <? bw_bottom w).

(** Modelled from the spec: a background is drawn unless it is fully transparent. *)
Definition has_background (c : Clay_Color) : bool := negb (Qeq_bool (col_a c) 0).

(** Modelled from the spec: pre-order emission, the background
    rectangle and the border of a container before its children, one
    text command per text leaf.  Every command is paired with the
    identifier of the element it belongs to. *)
Fixpoint emit_tree (r : Resolved) : list (string * Clay_RenderCommand) :=
  match r with
  | RBox d b cs =>
      ((if has_background (backgroundColor d)
        then [ (id d, {| boundingBox := b;
                         renderData := CLAY_RENDER_COMMAND_TYPE_RECTANGLE (backgroundColor d) |}) ]
        else []) ++
       (if has_border (border_width (border d))
        then [ (id d, {| boundingBox := b;
                         renderData := CLAY_RENDER_COMMAND_TYPE_BORDER
                                         (border_color (border d)) (border_width (border d)) |}) ]
        else []) ++
       flat_map emit_tree cs)%list
  | RText owner b s cfg =>
      [ (owner, {| boundingBox := b;
                   renderData := CLAY_RENDER_COMMAND_TYPE_TEXT s (fontSize cfg) (textColor cfg) |}) ]
  end.

(** Modelled from the spec: the non-floating tree first, then every
    floating subtree in ascending z-index order. *)
Definition emit_owned (f : Frame) : list (string * Clay_RenderCommand) :=
  (emit_tree (flow f) ++ flat_map (fun zr => emit_tree (snd zr)) (sort_by_z (floats f)))%list.

(** Modelled from the spec: the command sequence handed to the painter. *)
Definition emit (f : Frame) : list Clay_RenderCommand := map snd (emit_owned f).

(** Modelled from the spec: the mapping from identifier to resolved box of a frame. *)
Definition boxes (f : Frame) : Clay_Context :=
  list_to_map (boxes_of (flow f) ++ flat_map (fun zr => boxes_of (snd zr)) (floats f))%list.

Section Resolver.

(** The callback registered with [Clay_SetMeasureTextFunction]. *)
Variable measure :
  Clay_StringSlice -> option Clay_TextElementConfig -> Z -> Clay_Dimensions.

(** Modelled from the spec: the text metrics of a string, from the registered
    callback. *)
Definition measure_text (s : string) (cfg : Clay_TextElementConfig) : Clay_Dimensions :=
  measure {| ss_length := Z.of_nat (String.length s); ss_chars := s |} (Some cfg) 0.

(** Modelled from the spec: the sizing of an element along an axis; a
    text leaf has its measured size. *)
Definition width_spec (e : Element) : Clay_SizingAxis :=
  match e with
  | CLAY d _ => sz_width (sizing (layout d))
  | CLAY_TEXT s cfg => CLAY_SIZING_FIXED (dim_width (measure_text s cfg))
  end.

(** Modelled from the spec: the same on the vertical axis. *)
Definition height_spec (e : Element) : Clay_SizingAxis :=
  match e with
  | CLAY d _ => sz_height (sizing (layout d))
  | CLAY_TEXT s cfg => CLAY_SIZING_FIXED (dim_height (measure_text s cfg))
  end.

(** Modelled from the spec: a box from its position and extents. *)
Definition make_box (xywh : Q * Q * Q * Q) : Clay_BoundingBox :=
  let '(x, y, w, h) := xywh in
  {| bb_x := x; bb_y := y; bb_width := w; bb_height := h |}.

(** Modelled from the spec: the boxes of the children in the normal
    flow of a container whose own box is known. *)
Definition child_boxes (d : Clay_ElementDeclaration) (box : Clay_BoundingBox)
    (cs : list Element) : list Clay_BoundingBox :=
  let lc := layout d in
  let cx := (bb_x box + inject_Z (pad_left (padding lc)))%Q in
  let cy := (bb_y box + inject_Z (pad_top (padding lc)))%Q in
  let cw := clamp0 (bb_width box - inject_Z (pad_left (padding lc))
                    - inject_Z (pad_right (padding lc))) in
  let ch := clamp0 (bb_height box - inject_Z (pad_top (padding lc))
                    - inject_Z (pad_bottom (padding lc))) in
  let gap := inject_Z (childGap lc) in
  let gaps := inject_Z (childGap lc * Z.of_nat (Nat.pred (List.length cs))) in
  let fx := align_x_factor (align_x (childAlignment lc)) in
  let fy := align_y_factor (align_y (childAlignment lc)) in
  match layoutDirection lc with
  | CLAY_LEFT_TO_RIGHT =>
      let ws := primary_extents cw gaps (map width_spec cs) in
      let hs := map (fun c => cross_extent ch (height_spec c)) cs in
      let xs := primary_positions cx cw gap gaps fx ws in
      let ys := map (cross_position cy ch fy) hs in
      map make_box (zip (zip (zip xs ys) ws) hs)
  | CLAY_TOP_TO_BOTTOM =>
      let hs := primary_extents ch gaps (map height_spec cs) in
      let ws := map (fun c => cross_extent cw (width_spec c)) cs in
      let ys := primary_positions cy ch gap gaps fy hs in
      let xs := map (cross_position cx cw fx) ws in
      map make_box (zip (zip (zip xs ys) ws) hs)
  end.

(** Modelled from the spec: first pass, the normal flow below an
    element whose box is known; floating children are skipped. *)
Fixpoint layout_flow (e : Element) (owner : string) (box : Clay_BoundingBox)
    : Resolved :=
  match e with
  | CLAY d cs =>
      RBox d box
        ((fix go (l : list Element) (bs : list Clay_BoundingBox) : list Resolved :=
            match l with
            | [] => []
            | c :: l' =>
                if is_floating c then go l' bs
                else match bs with
                     | b :: bs' => layout_flow c (id d) b :: go l' bs'
                     | [] => []
                     end
            end) cs (child_boxes d box (flow_children cs)))
  | CLAY_TEXT s cfg => RText owner box s cfg
  end.

(** Modelled from the spec: second pass, every floating element is
    placed against its target (the root, or its logical parent), whose
    box is known by then, and its subtree is laid out from there. *)
Fixpoint place_floats (root : Clay_BoundingBox) (fs : list (string * Element))
    (known : Clay_Context) : list (Z * Resolved) :=
  match fs with
  | [] => []
  | (parent, CLAY d cs) :: rest =>
      let target :=
        match attachTo (floating d) with
        | CLAY_ATTACH_TO_PARENT => default root (known !! parent)
        | _ => root
        end in
      let r := layout_flow (CLAY d cs) parent (floating_box d target) in
      (zIndex d, r) :: place_floats root rest (list_to_map (boxes_of r) ∪ known)
  | (_, CLAY_TEXT _ _) :: rest => place_floats root rest known
  end.

(** Modelled from the spec: the root element is sized against the viewport and
    placed at the origin. *)
Definition root_box (viewport : Clay_Dimensions) (e : Element) : Clay_BoundingBox :=
  {| bb_x := 0%Q; bb_y := 0%Q;
     bb_width := cross_extent (dim_width viewport) (width_spec e);
     bb_height := cross_extent (dim_height viewport) (height_spec e) |}.

(** Modelled from the spec: the two passes of the resolver. *)
Definition resolve (viewport : Clay_Dimensions) (tree : Element) : Frame :=
  let rb := root_box viewport tree in
  let fl := layout_flow tree "" rb in
  {| flow := fl;
     floats := place_floats rb (floats_of tree) (list_to_map (boxes_of fl)) |}.

(** Modelled from the spec: one layout pass: the commands of the frame and the
    boxes kept for hit testing. *)
Definition Clay_Layout (viewport : Clay_Dimensions) (tree : Element)
    : list Clay_RenderCommand * Clay_Context :=
  let f := resolve viewport tree in (emit f, boxes f).

End Resolver.

End Engine.

(** The frame of a bar state under the engine of the specification,
    with the program's own text measurement registered. *)
Definition bar_frame (st : Bar) : Engine.Frame :=
  Engine.resolve measure_text_fn
    {| dim_width := F32.of_int (screen_w st); dim_height := F32.of_int BAR_HEIGHT |}
    (bar_layout (screen_w st) (dropdown_open st) (timebuf st) (statusbuf st)).

(** The state at start-up, before the first frame. *)
Definition initial_bar (w : Z) : Bar :=
  {| screen_w := w; dropdown_open := 0; timebuf := repeat x00 64;
     statusbuf := repeat x00 512; clay := ∅ |}.


(** ** The rules of the specification the code is compared with *)

Definition Qlt_bool (a b : Q) : bool := negb (Qle_bool b a).

(** The half-open containment rule of the specification's hit tester:
    [x] in [[box.x, box.x + box.width)] and the same for [y], in exact
    arithmetic. *)
Definition spec_hit_test (bb : Clay_BoundingBox) (px py : Z) : bool :=
  Qle_bool (bb_x bb) (inject_Z px)
  && Qlt_bool (inject_Z px) (bb_x bb + bb_width bb)
  && Qle_bool (bb_y bb) (inject_Z py)
  && Qlt_bool (inject_Z py) (bb_y bb + bb_height bb).

(** A box with integer pixel coordinates. *)
Definition pixel_box (x y w h : Z) : Clay_BoundingBox :=
  {| bb_x := inject_Z x; bb_y := inject_Z y;
     bb_width := inject_Z w; bb_height := inject_Z h |}.

(** The string contents of the text commands of a command sequence, in
    order. *)
Definition text_contents (cmds : list Clay_RenderCommand) : list string :=
  omap (fun c => match renderData c with
                 | CLAY_RENDER_COMMAND_TYPE_TEXT s _ _ => Some s
                 | _ => None
                 end) cmds.

(** The program linked against the engine of the specification. *)
Definition spec_engine : Clay_Dimensions -> Element -> list Clay_RenderCommand * Clay_Context :=
  Engine.Clay_Layout measure_text_fn.

Definition slice_of (s : string) : Clay_StringSlice :=
  {| ss_length := Z.of_nat (String.length s); ss_chars := s |}.

(** ** Frames of the bar under the engine of the specification *)

Definition bar_tree (st : Bar) : Element :=
  bar_layout (screen_w st) (dropdown_open st) (timebuf st) (statusbuf st).

(** The command sequence and the resolved boxes of the frame of a state. *)
Definition bar_commands (st : Bar) : list Clay_RenderCommand :=
  Engine.emit (bar_frame st).

Definition bar_boxes (st : Bar) : Clay_Context := Engine.boxes (bar_frame st).

(** The identified elements of the frame of a state with their boxes,
    in resolution order: what [bar_boxes] is the mapping of. *)
Definition bar_box_list (st : Bar) : list (string * Clay_BoundingBox) :=
  (Engine.boxes_of (Engine.flow (bar_frame st))
   ++ flat_map (fun zr => Engine.boxes_of (snd zr)) (Engine.floats (bar_frame st)))%list.

(** A box given by its four coordinates. *)
Definition box_is (b : Clay_BoundingBox) (x y w h : Q) : Prop :=
  (bb_x b == x /\ bb_y b == y /\ bb_width b == w /\ bb_height b == h)%Q.

(** The identifiers inside the floating subtrees of a tree. *)
Definition floating_ids (e : Element) : list string :=
  flat_map (fun pf => element_ids (snd pf)) (Engine.floats_of e).

Fixpoint element_decls (e : Element) : list Clay_ElementDeclaration :=
  match e with
  | CLAY d cs => d :: flat_map element_decls cs
  | CLAY_TEXT _ _ => []
  end.

(** Every node of a tree, in declaration order. *)
Fixpoint subelements (e : Element) : list Element :=
  e :: match e with
       | CLAY _ cs => flat_map subelements cs
       | CLAY_TEXT _ _ => []
       end.

(** Ascending z-index. *)
Definition z_le (a b : Z * Engine.Resolved) : Prop := fst a <= fst b.

(** A command sequence without its boxes: who emitted what. *)
Definition owners_data (l : list (string * Clay_RenderCommand))
    : list (string * Clay_RenderData) :=
  map (fun oc => (fst oc, renderData (snd oc))) l.

Definition closed_skeleton (tb sb : list byte) : list (string * Clay_RenderData) :=
  [ ("root", CLAY_RENDER_COMMAND_TYPE_RECTANGLE (color 18 18 18 255));
    ("left", CLAY_RENDER_COMMAND_TYPE_RECTANGLE (color 25 25 25 255));
    ("menu_toggle", CLAY_RENDER_COMMAND_TYPE_RECTANGLE (color 40 40 40 255));
    ("menu_toggle",
     CLAY_RENDER_COMMAND_TYPE_BORDER (color 120 120 120 255) (CLAY_BORDER_ALL 1));
    ("menu_toggle", CLAY_RENDER_COMMAND_TYPE_TEXT "Menu" 12 (color 230 230 230 255));
    ("time_text",
     CLAY_RENDER_COMMAND_TYPE_TEXT (CLAY_STRING tb) 12 (color 220 220 220 255));
    ("center",
     CLAY_RENDER_COMMAND_TYPE_TEXT (CLAY_STRING sb) 12 (color 200 200 200 255)) ].

Definition dropdown_skeleton : list (string * Clay_RenderData) :=
  [ ("dropdown", CLAY_RENDER_COMMAND_TYPE_RECTANGLE (color 28 28 28 255));
    ("dropdown",
     CLAY_RENDER_COMMAND_TYPE_BORDER (color 90 90 90 255) (CLAY_BORDER_ALL 1));
    ("item1", CLAY_RENDER_COMMAND_TYPE_TEXT "Open xterm" 12 (color 220 220 220 255));
    ("item2",
     CLAY_RENDER_COMMAND_TYPE_TEXT "Show files (xdg-open .)" 12
       (color 220 220 220 255)) ].

(** The boxes of the frame of a state, by the rules of the resolver on
    the declared tree: everything is fixed but the width of the root,
    which is the screen width, and that of the center container, which
    takes what the 250 pixel left cluster leaves. *)
Definition resolved_boxes (st : Bar) : list (string * (Q * Q * Q * Q)) :=
  let W := Engine.clamp0 (F32.of_int (screen_w st)) in
  ([ ("root", (0, 0, W, 26)); ("left", (0, 0, 250, 26));
     ("menu_toggle", (6, 6, 60, 14)); ("time_text", (72, 6, 170, 14));
     ("center", (250, 0, Engine.clamp0 (W - 250), 26)) ]
   ++ (if truthy (dropdown_open st)
       then [ ("dropdown", (6, 26, 180, 120)); ("item1", (12, 32, 168, 28));
              ("item2", (12, 66, 168, 28)) ]
       else []))%Q.

Definition resolved_as (ib : string * Clay_BoundingBox)
    (spec : string * (Q * Q * Q * Q)) : Prop :=
  fst ib = fst spec
  /\ let '(x, y, w, h) := snd spec in box_is (snd ib) x y w h.

(** The identifiers of the floating dropdown subtree. *)
Definition dropdown_ids : list string := [ "dropdown"; "item1"; "item2" ].

(** The commands of a frame that the dropdown subtree emitted. *)
Definition dropdown_commands (st : Bar) : list (string * Clay_RenderData) :=
  List.filter (fun od => bool_decide (fst od ∈ dropdown_ids))
    (owners_data (Engine.emit_owned (bar_frame st))).

(** The contents of the text commands of a frame that the two items of
    the dropdown emitted. *)
Definition item_texts (st : Bar) : list string :=
  omap (fun od => match snd od with
                  | CLAY_RENDER_COMMAND_TYPE_TEXT s _ _ =>
                      if bool_decide (fst od ∈ [ "item1"; "item2" ]) then Some s else None
                  | _ => None
                  end)
    (owners_data (Engine.emit_owned (bar_frame st))).

(** The owners of the commands of a frame with the dropdown open. *)
Definition open_owners : list string :=
  [ "root"; "left"; "menu_toggle"; "menu_toggle"; "menu_toggle"; "time_text";
    "center"; "dropdown"; "dropdown"; "item1"; "item2" ].

Definition item_labels : list string := [ "Open xterm"; "Show files (xdg-open .)" ].

(** The bar on a 1920 pixel wide screen after its first frame, with the
    dropdown closed and open. *)
Definition bar_closed : Bar :=
  fst (render_clay_with_cairo spec_engine (initial_bar 1920)).

Definition bar_open : Bar :=
  fst (render_clay_with_cairo spec_engine (set_dropdown_open 1 (initial_bar 1920))).


(** A root window whose name is the label of the first menu item: the
    property [XGetWMName] fills in for a [WM_NAME] of type [STRING]
    (the atom [XA_STRING], 31). *)
Definition xterm_status : XTextProperty :=
  {| value := Some (list_byte_of_string "Open xterm"); encoding := 31; format := 8;
     nitems := 10 |}.

(** A root window without a name: [XGetWMName] returns 0 and leaves an
    empty property. *)
Definition no_status : XTextProperty :=
  {| value := None; encoding := 0; format := 0; nitems := 0 |}.

(** ** The Standard Library's IEEE 754 specification, for comparison *)

(** The rational a finite [spec_float] denotes. *)
Definition SF2Q (f : spec_float) : Q :=
  match f with
  | S754_finite s m e =>
      ((if s then - 1 else 1) * inject_Z (Zpos m) * 2 ^ e)%Q
  | _ => 0%Q
  end.

(** The binary32 value nearest to an integer. *)
Definition binary32_of_Z (z : Z) : spec_float := binary_normalize 24 128 z 0 false.

(** ** More of the Clay bar: truncation, well-formed states, the loop *)

(** The integer part of a rational, rounding toward zero: what a cast
    to an integer type keeps. *)
Definition Ztrunc (q : Q) : Z := Z.quot (Qnum q) (Zpos (Qden q)).

(** The float values whose cast to [int] is defined. *)
Definition int_castable (q : Q) : Prop :=
  (inject_Z F32.INT_MIN <= q /\ q < inject_Z F32.INT_MAX + 1)%Q.

(** An unsigned 16-bit field. *)
Definition uint16 (n : N) : Prop := (n < 65536)%N.

(** What the globals satisfy between two iterations of the loop of
    [main]: [dropdown_open] is a C truth value and [statusbuf] is a
    512-byte array holding a NUL. *)
Definition bar_ok (st : Bar) : Prop :=
  (dropdown_open st = 0 \/ dropdown_open st = 1)
  /\ List.length (statusbuf st) = 512%nat
  /\ x00 ∈ statusbuf st.

(** What one iteration of the loop of [main] consumes: an event taken
    from the queue, or the expiry of the refresh interval, with what
    [strftime] and [XGetWMName] then return. *)
Inductive Input :=
| Event (ev : XEvent)
| Tick (now : list byte) (status : Z) (tprop : XTextProperty).

Definition input_ok (i : Input) : Prop :=
  match i with
  | Event _ => True
  | Tick _ _ tprop => tprop_ok tprop
  end.

(** The fetch of a refresh reports the type of what it fetched. *)
Definition input_typed (i : Input) : Prop :=
  match i with
  | Event _ => True
  | Tick _ status tprop => typed_fetch status tprop
  end.

Section Loop.

Variable Clay_Layout :
  Clay_Dimensions -> Element -> list Clay_RenderCommand * Clay_Context.

(** The commands of the frame of a state: what [render_clay_with_cairo]
    paints in it. *)
Definition frame_of (st : Bar) : list Clay_RenderCommand :=
  fst (Clay_Layout
         {| dim_width := F32.of_int (screen_w st);
            dim_height := F32.of_int BAR_HEIGHT |}
         (bar_layout (screen_w st) (dropdown_open st) (timebuf st) (statusbuf st))).

(** The paths through the [ButtonPress] branch of the loop of [main],
    each with the answers of the hit tests that select it, the state it
    leaves and what it does. *)
Inductive press_outcome (st : Bar) (mx my : Z) : Bar -> list Effect -> Prop :=
| press_toggle t :
    point_in_element (clay st) "menu_toggle" mx my = Some t -> truthy t = true ->
    press_outcome st mx my
      (fst (render_clay_with_cairo Clay_Layout
              (set_dropdown_open (c_not (dropdown_open st)) st)))
      (snd (render_clay_with_cairo Clay_Layout
              (set_dropdown_open (c_not (dropdown_open st)) st)))
| press_item1 h :
    point_in_element (clay st) "menu_toggle" mx my = Some 0 ->
    truthy (dropdown_open st) = true ->
    point_in_element (clay st) "item1" mx my = Some h -> truthy h = true ->
    press_outcome st mx my
      (fst (render_clay_with_cairo Clay_Layout (set_dropdown_open 0 st)))
      (Spawn [ "xterm" ]
       :: snd (render_clay_with_cairo Clay_Layout (set_dropdown_open 0 st)))
| press_item2 h :
    point_in_element (clay st) "menu_toggle" mx my = Some 0 ->
    truthy (dropdown_open st) = true ->
    point_in_element (clay st) "item1" mx my = Some 0 ->
    point_in_element (clay st) "item2" mx my = Some h -> truthy h = true ->
    press_outcome st mx my
      (fst (render_clay_with_cairo Clay_Layout (set_dropdown_open 0 st)))
      (Spawn [ "xdg-open"; "." ]
       :: snd (render_clay_with_cairo Clay_Layout (set_dropdown_open 0 st)))
| press_outside :
    point_in_element (clay st) "menu_toggle" mx my = Some 0 ->
    truthy (dropdown_open st) = true ->
    point_in_element (clay st) "item1" mx my = Some 0 ->
    point_in_element (clay st) "item2" mx my = Some 0 ->
    press_outcome st mx my
      (fst (render_clay_with_cairo Clay_Layout (set_dropdown_open 0 st)))
      (snd (render_clay_with_cairo Clay_Layout (set_dropdown_open 0 st)))
| press_ignored :
    point_in_element (clay st) "menu_toggle" mx my = Some 0 ->
    truthy (dropdown_open st) = false ->
    press_outcome st mx my st [].

Definition step (st : Bar) (i : Input) : option (Bar * list Effect) :=
  match i with
  | Event ev => handle_event Clay_Layout st ev
  | Tick now status tprop => periodic_update Clay_Layout st now status tprop
  end.

(** The loop of [main] over a sequence of inputs, with everything it
    did to the outside world, in order. *)
Fixpoint run (st : Bar) (inputs : list Input) : option (Bar * list Effect) :=
  match inputs with
  | [] => Some (st, [])
  | i :: rest =>
      '(st1, fx1) ← step st i;
      '(st2, fx2) ← run st1 rest;
      Some (st2, fx1 ++ fx2)
  end.

End Loop.

Definition is_spawn (e : Effect) : bool :=
  match e with Spawn _ => true | _ => false end.

Definition is_press (i : Input) : bool :=
  match i with Event (ButtonPress _ _) => true | _ => false end.

(** The programs launched, and the clicks received, in a run. *)
Definition spawns (fx : list Effect) : nat := List.length (List.filter is_spawn fx).
Definition presses (inputs : list Input) : nat :=
  List.length (List.filter is_press inputs).

(** ** Rounding to a binary format of any precision, and [double] *)

(** Round to nearest, ties to even, on [prec] significant bits, with the
    exponent unbounded as for [F32.rnd], which is the case [prec = 24]. *)
Module FP.

Definition rnd_pos (prec : Z) (a : Q) : Q :=
  let e := F32.ilog2 a - (prec - 1) in
  (inject_Z (F32.round_half_even (a / 2 ^ e)) * 2 ^ e)%Q.

Definition rnd (prec : Z) (q : Q) : Q :=
  match (q ?= 0)%Q with
  | Eq => 0%Q
  | Gt => Qred (rnd_pos prec q)
  | Lt => Qred (- rnd_pos prec (- q))
  end.

End FP.

(** C [double] as IEEE 754 binary64: the rationals that are binary64
    values, each operation the exact one followed by rounding.  As for
    [F32], overflow and subnormal results are outside the model. *)
Module F64.

Definition double := Q.

Definition prec : Z := 53.

Definition rnd (q : Q) : double := FP.rnd prec q.

Definition add (a b : double) : double := rnd (a + b).
Definition sub (a b : double) : double := rnd (a - b).
Definition mul (a b : double) : double := rnd (a * b).
Definition div (a b : double) : double := rnd (a / b).

(** [(double)z] for an integer [z] of any integer type. *)
Definition of_int (z : Z) : double := rnd (inject_Z z).

(** [(int)a]: truncation toward zero, undefined outside [int]. *)
Definition to_int (a : double) : option Z := F32.to_int a.

End F64.

Abbreviation double := F64.double.

(** ** The refresh timer of the loop of [main] *)

Record timespec := { tv_sec : Z; tv_nsec : Z }.

(** Arithmetic on [long] and [time_t] (64 bits): overflow is undefined. *)
Definition LONG_MIN : Z := - 2 ^ 63.
Definition LONG_MAX : Z := 2 ^ 63 - 1.

Definition long (z : Z) : option Z :=
  if (LONG_MIN <=? z) && (z <=? LONG_MAX) then Some z else None.

(** [(now.tv_sec - last.tv_sec) + (now.tv_nsec - last.tv_nsec) / 1e9]:
    two subtractions on [long], the second difference converted to
    [double] and divided, the first converted and added. *)
Definition elapsed (now last : timespec) : option double :=
  ds ← long (tv_sec now - tv_sec last);
  dn ← long (tv_nsec now - tv_nsec last);
  Some (F64.add (F64.of_int ds) (F64.div (F64.of_int dn) 1000000000%Q)).

(** [elapsed > 0.5] *)
Definition refresh_due (now last : timespec) : option bool :=
  e ← elapsed now last;
  Some (Qlt_bool (1 # 2) e).

(** A reading of [CLOCK_MONOTONIC]. *)
Definition timespec_ok (t : timespec) : Prop :=
  0 <= tv_sec t <= LONG_MAX /\ 0 <= tv_nsec t < 1000000000.

(** The time of a reading in nanoseconds. *)
Definition nanoseconds (t : timespec) : Z := tv_sec t * 1000000000 + tv_nsec t.

(** The binary64 value nearest to an integer, in the Standard Library's
    IEEE 754 specification. *)
Definition binary64_of_Z (z : Z) : spec_float := binary_normalize 53 1024 z 0 false.

(** * The shaped clock: the second program of [clay_bar.c] *)

Module Clock.

Definition H_PADDING : Z := 7.
Definition V_PADDING : Z := 3.
Definition REFRESH_INTERVAL : double := 60%Q.

(** ** C arithmetic and arrays *)

(** Arithmetic on [int]: overflow is undefined. *)
Definition int (z : Z) : option Z :=
  if (F32.INT_MIN <=? z) && (z <=? F32.INT_MAX) then Some z else None.

(** [buf[i]] read; undefined outside the array. *)
Definition load (buf : list Z) (i : Z) : option Z :=
  if 0 <=? i then buf !! Z.to_nat i else None.

(** [for (int i = 0; i < n; ++i) body]: the body on [0], [1], ...,
    [n - 1] in turn, stopping at the first undefined step. *)
Fixpoint for_each {St : Type} (l : list Z) (body : Z -> St -> option St) (s : St)
    : option St :=
  match l with
  | [] => Some s
  | i :: rest => s' ← body i s; for_each rest body s'
  end.

Definition for_int {St : Type} (n : Z) (body : Z -> St -> option St) (s : St)
    : option St :=
  for_each (seqZ 0 n) body s.

(** ** [create_mask_from_a8] *)

(** The pixels of a cairo A8 image surface: one byte of coverage per
    pixel, [stride] bytes per row. *)
Record A8 := { data : list Z; stride : Z }.

(** The data handed to [XCreateBitmapFromData] with its dimensions. *)
Record Bitmap := { bm_bits : list Z; bm_width : Z; bm_height : Z }.

(** The body of the inner loop, for the pixel [(x, y)]; the byte is
    stored back into an [unsigned char]. *)
Definition set_pixel (surf : A8) (bytes_per_row y x : Z) (bitmap : list Z)
    : option (list Z) :=
  row ← int (y * stride surf);
  idx ← int (row + x);
  a ← load (data surf) idx;
  if a >? 0 then
    brow ← int (y * bytes_per_row);
    byte_index ← int (brow + x ÷ 8);
    let bit := Z.rem x 8 in
    old ← load bitmap byte_index;
    Some (<[Z.to_nat byte_index := Z.lor old (Z.shiftl 1 bit) mod 256]> bitmap)
  else Some bitmap.

(** The result is the bitmap handed to [XCreateBitmapFromData], or
    nothing when the function returns 0 before creating a pixmap;
    [calloc_ok] tells whether the allocation succeeds. *)
Definition create_mask_from_a8 (mask_surf : option A8) (w h : Z) (calloc_ok : bool)
    : option (option Bitmap) :=
  match mask_surf with
  | None => Some None
  | Some surf =>
      if (w <=? 0) || (h <=? 0) then Some None else
      w7 ← int (w + 7);
      let bytes_per_row := w7 ÷ 8 in
      size ← int (bytes_per_row * h);
      if negb calloc_ok then Some None else
      bitmap ← for_int h
                 (fun y => for_int w (fun x => set_pixel surf bytes_per_row y x))
                 (replicate (Z.to_nat size) 0);
      Some (Some {| bm_bits := bitmap; bm_width := w; bm_height := h |})
  end.

(** How the X server reads the data of [XCreateBitmapFromData]: rows of
    [(width + 7) / 8] bytes, the pixel [x] of a row in bit [x mod 8] of
    byte [x / 8] (least significant bit first). *)
Definition bitmap_pixel (bm : Bitmap) (x y : Z) : bool :=
  Z.testbit (nth (Z.to_nat (y * ((bm_width bm + 7) / 8) + x / 8)) (bm_bits bm) 0)
            (x mod 8).

(** The coverage of the pixel [(x, y)] of an A8 surface. *)
Definition alpha (surf : A8) (x y : Z) : Z :=
  nth (Z.to_nat (y * stride surf + x)) (data surf) 0.

(** A surface as [cairo_image_surface_create (CAIRO_FORMAT_A8, w, h)]
    makes it: rows of at least [w] bytes, [stride * h] bytes in all,
    each an [unsigned char]. *)
Definition a8_ok (surf : A8) (w h : Z) : Prop :=
  w <= stride surf
  /\ Z.of_nat (List.length (data surf)) = stride surf * h
  /\ stride surf * h <= F32.INT_MAX
  /\ Forall (fun b => 0 <= b < 256) (data surf).

(** The bit [b] of byte [i] of the bitmap while the loops run: set for
    the covered pixels of the rows before [y] and of the pixels before
    [x] of row [y], clear everywhere else. *)
Definition packed_bit (surf : A8) (w bytes_per_row y x i b : Z) : bool :=
  let py := i / bytes_per_row in
  let px := 8 * (i mod bytes_per_row) + b in
  (b <? 8) && (px <? w) && ((py <? y) || ((py =? y) && (px <? x)))
  && (0 <? alpha surf px py).

Definition packed (surf : A8) (w h bytes_per_row y x : Z) (bitmap : list Z) : Prop :=
  Z.of_nat (List.length bitmap) = bytes_per_row * h
  /\ forall i b, 0 <= i < bytes_per_row * h -> 0 <= b ->
       Z.testbit (nth (Z.to_nat i) bitmap 0) b
       = packed_bit surf w bytes_per_row y x i b.

(** ** The state of the program and what it does *)

(** The globals: [surf] is the size of the cairo surface, and nothing
    while [surf] and [cr] are [NULL] ([cr] is created with the surface,
    and [barwin] before any of the functions below runs);
    [shape_pixmap] is 0 while there is no mask. *)
Record State :=
  { screen_w : Z;
    surf : option (Z * Z);
    timebuf : list byte;
    shape_available : Z;
    shape_pixmap : Z }.

Inductive Effect :=
| SurfaceCreate (w h : Z)
| SurfaceSetSize (w h : Z)
| MoveResizeWindow (x y w h : Z)
| CreateBitmap (bm : Bitmap) (pm : Z)
| FreePixmap (pm : Z)
| ShapeCombineMask (pm : Z)
| ShowText (x y : double) (text : list byte).

(** What cairo and the X server answer during one call of [render_now]:
    the extents of the text and of the font, the size of the window,
    the mask surface after the text is drawn into it, whether [calloc]
    succeeds, and the identifier [XCreateBitmapFromData] returns. *)
Record World :=
  { te_width : double;
    te_x_bearing : double;
    fe_height : double;
    fe_ascent : double;
    wattr : Z * Z;
    mask : A8;
    calloc_ok : bool;
    new_pixmap : Z }.

Definition set_surf (v : option (Z * Z)) (st : State) : State :=
  {| screen_w := screen_w st; surf := v; timebuf := timebuf st;
     shape_available := shape_available st; shape_pixmap := shape_pixmap st |}.

Definition set_shape_pixmap (v : Z) (st : State) : State :=
  {| screen_w := screen_w st; surf := surf st; timebuf := timebuf st;
     shape_available := shape_available st; shape_pixmap := v |}.

Definition set_timebuf (v : list byte) (st : State) : State :=
  {| screen_w := screen_w st; surf := surf st; timebuf := v;
     shape_available := shape_available st; shape_pixmap := shape_pixmap st |}.

(** ** [ensure_surface_size] *)

Definition ensure_surface_size (st : State) (w h : Z) : State * list Effect :=
  match surf st with
  | None => (set_surf (Some (w, h)) st, [ SurfaceCreate w h ])
  | Some _ => (set_surf (Some (w, h)) st, [ SurfaceSetSize w h ])
  end.

(** ** [update_shape_mask] *)

Definition update_shape_mask (st : State) (win_w win_h : Z) (world : World)
    : option (State * list Effect) :=
  if negb (truthy (shape_available st)) then Some (st, []) else
  created ← create_mask_from_a8 (Some (mask world)) win_w win_h (calloc_ok world);
  match created with
  | None => Some (st, [])
  | Some bm =>
      let new_mask := new_pixmap world in
      if truthy new_mask then
        Some (set_shape_pixmap new_mask st,
              CreateBitmap bm new_mask
              :: (if truthy (shape_pixmap st) then [ FreePixmap (shape_pixmap st) ]
                  else [])
              ++ [ ShapeCombineMask new_mask ])
      else Some (st, [ CreateBitmap bm new_mask ])
  end.

(** ** [render_now] *)

Definition render_now (st : State) (world : World) : option (State * list Effect) :=
  match surf st with
  | None => Some (st, [])
  | Some _ =>
      text_w ← F64.to_int (F64.add (te_width world) (1 # 2));
      win_w ← int (text_w + 2 * H_PADDING);
      font_h ← F64.to_int (F64.add (fe_height world) (1 # 2));
      win_h ← int (font_h + 2 * V_PADDING);
      let win_h := if win_h <? 1 then 1 else win_h in
      resized ←
        (if negb (fst (wattr world) =? win_w) || negb (snd (wattr world) =? win_h)
         then
           x0 ← int (screen_w st - win_w);
           x ← int (x0 - H_PADDING);
           let '(st1, fx1) := ensure_surface_size st win_w win_h in
           Some (st1, MoveResizeWindow x 0 win_w win_h :: fx1)
         else Some (st, []));
      let '(st1, fx1) := resized in
      '(st2, fx2) ← update_shape_mask st1 win_w win_h world;
      let y := F64.add (F64.div (F64.sub (F64.of_int win_h) (fe_height world)) 2%Q)
                       (fe_ascent world) in
      let x := F64.sub (F64.of_int H_PADDING) (te_x_bearing world) in
      Some (st2, fx1 ++ fx2 ++ [ ShowText x y (c_str (timebuf st2)) ])
  end.

(** ** [cleanup] *)

Definition cleanup (st : State) : list Effect :=
  if truthy (shape_pixmap st) then [ FreePixmap (shape_pixmap st) ] else [].

(** ** The loop of [main] *)

Inductive XEvent :=
| Expose
| ConfigureNotify (width height : Z)
| OtherEvent.

(** [elapsed >= REFRESH_INTERVAL] *)
Definition refresh_due (now last : timespec) : option bool :=
  e ← elapsed now last;
  Some (Qle_bool REFRESH_INTERVAL e).

Definition handle_event (st : State) (ev : XEvent) (world : World)
    : option (State * list Effect) :=
  match ev with
  | Expose => render_now st world
  | ConfigureNotify width height =>
      if (width >? 0) && (height >? 0) then
        let '(st1, fx1) := ensure_surface_size st width height in
        '(st2, fx2) ← render_now st1 world;
        Some (st2, fx1 ++ fx2)
      else Some (st, [])
  | OtherEvent => Some (st, [])
  end.

(** The periodic refresh: [update_time] (whose [strftime] result is the
    input [now_text]), then [render_now]. *)
Definition periodic_update (st : State) (now_text : list byte) (world : World)
    : option (State * list Effect) :=
  render_now (set_timebuf now_text st) world.

Inductive Input :=
| Event (ev : XEvent)
| Tick (now_text : list byte).

Definition step (st : State) (i : Input * World) : option (State * list Effect) :=
  match fst i with
  | Event ev => handle_event st ev (snd i)
  | Tick now_text => periodic_update st now_text (snd i)
  end.

Fixpoint run (st : State) (inputs : list (Input * World))
    : option (State * list Effect) :=
  match inputs with
  | [] => Some (st, [])
  | i :: rest =>
      '(st1, fx1) ← step st i;
      '(st2, fx2) ← run st1 rest;
      Some (st2, fx1 ++ fx2)
  end.

(** The state when [main] enters its loop: the surface of the 200 by 50
    window is created and the first frame is drawn. *)
Definition start (screen_width shape : Z) (now_text : list byte) (world : World)
    : option (State * list Effect) :=
  let st0 := {| screen_w := screen_width; surf := None; timebuf := now_text;
                shape_available := shape; shape_pixmap := 0 |} in
  let '(st1, fx1) := ensure_surface_size st0 200 50 in
  '(st2, fx2) ← render_now st1 world;
  Some (st2, fx1 ++ fx2).

(** ** The pixmaps of the X server *)

(** The effect of a request on the set of live pixmaps; a request that
    names a pixmap that is not alive is an X error (here [None]). *)
Definition xserver (live : list Z) (e : Effect) : option (list Z) :=
  match e with
  | CreateBitmap _ pm => Some (if truthy pm then pm :: live else live)
  | FreePixmap pm =>
      if bool_decide (pm ∈ live) then Some (List.filter (fun q => negb (q =? pm)) live)
      else None
  | ShapeCombineMask pm => if bool_decide (pm ∈ live) then Some live else None
  | _ => Some live
  end.

Fixpoint xserver_run (live : list Z) (fx : list Effect) : option (list Z) :=
  match fx with
  | [] => Some live
  | e :: rest => live' ← xserver live e; xserver_run live' rest
  end.

(** The pixmaps the program holds: the current shape mask, if any. *)
Definition live_of (st : State) : list Z :=
  if truthy (shape_pixmap st) then [ shape_pixmap st ] else [].

(** Along a run, the identifier the server returns for a new pixmap is
    never that of the pixmap that is alive at that moment. *)
Fixpoint fresh_run (st : State) (inputs : list (Input * World)) : Prop :=
  match inputs with
  | [] => True
  | i :: rest =>
      (new_pixmap (snd i) ∉ live_of st)
      /\ forall st1 fx1, step st i = Some (st1, fx1) -> fresh_run st1 rest
  end.

Definition is_surface_create (e : Effect) : bool :=
  match e with SurfaceCreate _ _ => true | _ => false end.

(** ** A sample run *)

(** Answers of cairo and the server for a text 10.25 pixels wide in a
    font 5 pixels high: the window becomes 24 by 11, and the mask
    surface (rows of 24 bytes) is covered on its left half. *)
Definition sample_world (attr : Z * Z) (pm : Z) : World :=
  {| te_width := 41 # 4; te_x_bearing := 1%Q; fe_height := 5%Q; fe_ascent := 4%Q;
     wattr := attr;
     mask := {| data := mjoin (replicate 11 (replicate 12 255 ++ replicate 12 0));
                stride := 24 |};
     calloc_ok := true;
     new_pixmap := pm |}.

(** The clock on a 1920 pixel wide screen with its 200 by 50 window and
    no shape mask yet. *)
Definition sample_state : State :=
  {| screen_w := 1920; surf := Some (200, 50);
     timebuf := list_byte_of_string "Sun/1 09:15PM" ++ [ x00 ];
     shape_available := 1; shape_pixmap := 0 |}.

End Clock.

(** * Properties *)

(** ** Rounding to binary32 *)

Section Pow2.
Open Scope Q_scope.

Lemma pow2_pos (z : Z) : 0 < 2 ^ z.
Proof. apply Qpower_0_lt. reflexivity. Qed.

Lemma pow2_succ (z : Z) : 2 ^ (z + 1) == 2 * 2 ^ z.
Proof. rewrite Qpower_plus by discriminate. change (2 ^ 1) with 2. ring. Qed.

Lemma pow2_add (a b : Z) : 2 ^ (a + b) == 2 ^ a * 2 ^ b.
Proof. apply Qpower_plus. discriminate. Qed.

Lemma pow2_le (a b : Z) : (a <= b)%Z -> 2 ^ a <= 2 ^ b.
Proof. intros H. apply Qpower_le_compat_l; [exact H | discriminate]. Qed.

Lemma pow2_lt_inv (a b : Z) : 2 ^ a < 2 ^ b -> (a < b)%Z.
Proof.
  intros H. destruct (Z_lt_le_dec a b) as [Hlt | Hge]; [exact Hlt | ].
  apply pow2_le in Hge. lra.
Qed.

Lemma pow2_inject (n : Z) : (0 <= n)%Z -> inject_Z (2 ^ n) == 2 ^ n.
Proof. intros H. rewrite Zpower_Qpower by exact H. reflexivity. Qed.
End Pow2.

Section Ilog2.
Open Scope Q_scope.

Lemma Zlog2_bounds (n : Z) :
  (0 < n)%Z -> 2 ^ Z.log2 n <= inject_Z n < 2 ^ (Z.log2 n + 1).
Proof.
  intros Hn. destruct (Z.log2_spec n Hn) as [Hlo Hhi].
  pose proof (Z.log2_nonneg n) as H0.
  rewrite <- !pow2_inject by lia. rewrite <- Zle_Qle, <- Zlt_Qlt.
  replace (Z.log2 n + 1)%Z with (Z.succ (Z.log2 n)) by lia. lia.
Qed.

Lemma ilog2_spec (q : Q) :
  0 < q -> 2 ^ F32.ilog2 q <= q < 2 ^ (F32.ilog2 q + 1).
Proof.
  intros Hq. destruct q as [n d]. unfold F32.ilog2. cbn [Qnum Qden].
  assert (Hn : (0 < n)%Z).
  { unfold Qlt in Hq. cbn in Hq. lia. }
  pose proof (Zlog2_bounds n Hn) as [Hn1 Hn2].
  pose proof (Zlog2_bounds (Zpos d) eq_refl) as [Hd1 Hd2].
  set (ln := Z.log2 n) in *. set (ld := Z.log2 (Zpos d)) in *.
  assert (Hq' : (n # d) * inject_Z (Zpos d) == inject_Z n).
  { rewrite (Qmake_Qdiv n d). field. discriminate. }
  assert (Hk : 2 ^ (ln - ld) * 2 ^ ld == 2 ^ ln).
  { rewrite <- pow2_add. replace (ln - ld + ld)%Z with ln by lia. reflexivity. }
  pose proof (pow2_pos ld) as Pld. pose proof (pow2_pos (ln - ld)) as Pk.
  pose proof (pow2_succ ln) as Hs. pose proof (pow2_succ ld) as Hsd.
  assert (Hup : n # d < 2 ^ (ln - ld + 1)).
  { rewrite pow2_succ. 
    apply Qmult_lt_r with (z := 2 ^ ld); [exact Pld | ].
    assert ((n # d) * 2 ^ ld <= (n # d) * inject_Z (Zpos d)) by
      (apply Qmult_le_l; [exact Hq | exact Hd1]).
    nra. }
  assert (Hlow : 2 ^ (ln - ld - 1) <= n # d).
  { assert (E : 2 ^ (ln - ld) == 2 * 2 ^ (ln - ld - 1)).
    { rewrite <- pow2_succ. replace (ln - ld - 1 + 1)%Z with (ln - ld)%Z by lia. reflexivity. }
    assert ((n # d) * inject_Z (Zpos d) <= (n # d) * 2 ^ (ld + 1)) by
      (apply Qmult_le_l; [exact Hq | lra]).
    apply Qmult_le_r with (z := 2 ^ (ld + 1)); [ apply pow2_pos | ].
    nra. }
  destruct (Qle_bool (2 ^ (ln - ld)) (n # d)) eqn:Hb.
  - apply Qle_bool_iff in Hb. split; [exact Hb | exact Hup].
  - split; [exact Hlow | ].
    replace (ln - ld - 1 + 1)%Z with (ln - ld)%Z by lia.
    apply Qnot_le_lt. intros Hc. apply Qle_bool_iff in Hc. congruence.
Qed.
End Ilog2.

Section RoundHalfEven.
Open Scope Q_scope.

Instance round_half_even_comp : Proper (Qeq ==> eq) F32.round_half_even.
Proof.
  intros p q E. unfold F32.round_half_even.
  rewrite (Qfloor_comp _ _ E).
  assert (C : (p - inject_Z (Qfloor q) ?= 1 # 2) = (q - inject_Z (Qfloor q) ?= 1 # 2)).
  { apply Qcompare_comp; [rewrite E | ]; reflexivity. }
  rewrite C. reflexivity.
Qed.

Lemma round_half_even_Z (z : Z) : F32.round_half_even (inject_Z z) = z.
Proof.
  unfold F32.round_half_even. rewrite Qfloor_Z.
  assert (C : (inject_Z z - inject_Z z ?= 1 # 2) = Lt).
  { apply -> Qlt_alt. lra. }
  rewrite C. reflexivity.
Qed.

Lemma round_half_even_range (q : Q) :
  (Qfloor q <= F32.round_half_even q <= Qfloor q + 1)%Z.
Proof.
  unfold F32.round_half_even.
  destruct (q - inject_Z (Qfloor q) ?= 1 # 2); [destruct (Z.even _) | | ]; lia.
Qed.

Lemma round_half_even_mono (p q : Q) :
  p <= q -> (F32.round_half_even p <= F32.round_half_even q)%Z.
Proof.
  intros Hpq. pose proof (Qfloor_resp_le _ _ Hpq) as Hf.
  destruct (Z.eq_dec (Qfloor p) (Qfloor q)) as [E | NE].
  - unfold F32.round_half_even. rewrite E.
    destruct (q - inject_Z (Qfloor q) ?= 1 # 2) eqn:Cq;
    destruct (p - inject_Z (Qfloor q) ?= 1 # 2) eqn:Cp;
    try (destruct (Z.even (Qfloor q))); try lia; exfalso;
    repeat match goal with
    | H : (_ ?= _) = Eq |- _ => apply Qeq_alt in H
    | H : (_ ?= _) = Lt |- _ => apply Qlt_alt in H
    | H : (_ ?= _) = Gt |- _ => apply Qgt_alt in H
    end; lra.
  - pose proof (round_half_even_range p). pose proof (round_half_even_range q). lia.
Qed.

Lemma round_half_even_ge (a : Z) (q : Q) :
  inject_Z a <= q -> (a <= F32.round_half_even q)%Z.
Proof. intros H. apply round_half_even_mono in H. now rewrite round_half_even_Z in H. Qed.

Lemma round_half_even_le (b : Z) (q : Q) :
  q <= inject_Z b -> (F32.round_half_even q <= b)%Z.
Proof. intros H. apply round_half_even_mono in H. now rewrite round_half_even_Z in H. Qed.
End RoundHalfEven.

#[global] Existing Instance round_half_even_comp.

Section Rnd.
Open Scope Q_scope.

Lemma ilog2_mono (p q : Q) : 0 < p -> p <= q -> (F32.ilog2 p <= F32.ilog2 q)%Z.
Proof.
  intros Hp Hpq.
  destruct (ilog2_spec p Hp) as [Hp1 _].
  destruct (ilog2_spec q) as [_ Hq2]; [lra | ].
  assert (H : 2 ^ F32.ilog2 p < 2 ^ (F32.ilog2 q + 1)) by lra.
  apply pow2_lt_inv in H. lia.
Qed.

Lemma scaled_bounds (a : Q) :
  0 < a -> 2 ^ 23 <= a / 2 ^ (F32.ilog2 a - (F32.prec - 1)) < 2 ^ 24.
Proof.
  intros Ha. destruct (ilog2_spec a Ha) as [H1 H2].
  set (l := F32.ilog2 a) in *. unfold F32.prec.
  pose proof (pow2_pos (l - (24 - 1))) as Pe.
  assert (E1 : 2 ^ l == 2 ^ 23 * 2 ^ (l - (24 - 1))).
  { rewrite <- pow2_add. replace (23 + (l - (24 - 1)))%Z with l by lia. reflexivity. }
  assert (E2 : 2 ^ (l + 1) == 2 ^ 24 * 2 ^ (l - (24 - 1))).
  { rewrite <- pow2_add. replace (24 + (l - (24 - 1)))%Z with (l + 1)%Z by lia. reflexivity. }
  split.
  - apply Qle_shift_div_l; [exact Pe | lra].
  - apply Qlt_shift_div_r; [exact Pe | lra].
Qed.

Lemma rnd_pos_bounds (a : Q) :
  0 < a -> 2 ^ F32.ilog2 a <= F32.rnd_pos a <= 2 ^ (F32.ilog2 a + 1).
Proof.
  intros Ha. destruct (scaled_bounds a Ha) as [H1 H2]. unfold F32.rnd_pos.
  set (l := F32.ilog2 a) in *. unfold F32.prec in *.
  set (e := (l - (24 - 1))%Z) in *.
  pose proof (pow2_pos e) as Pe.
  assert (E1 : 2 ^ l == 2 ^ 23 * 2 ^ e).
  { rewrite <- pow2_add. replace (23 + e)%Z with l by lia. reflexivity. }
  assert (E2 : 2 ^ (l + 1) == 2 ^ 24 * 2 ^ e).
  { rewrite <- pow2_add. replace (24 + e)%Z with (l + 1)%Z by lia. reflexivity. }
  assert (M1 : (2 ^ 23 <= F32.round_half_even (a / 2 ^ e))%Z).
  { apply round_half_even_ge. exact H1. }
  assert (M2 : (F32.round_half_even (a / 2 ^ e) <= 2 ^ 24)%Z).
  { apply round_half_even_le. apply Qlt_le_weak. exact H2. }
  rewrite Zle_Qle in M1, M2.
  change (inject_Z (2 ^ 23)) with (2 ^ 23) in M1.
  change (inject_Z (2 ^ 24)) with (2 ^ 24) in M2.
  rewrite E1, E2. split; apply Qmult_le_compat_r; lra.
Qed.

Lemma rnd_pos_mono (p q : Q) : 0 < p -> p <= q -> F32.rnd_pos p <= F32.rnd_pos q.
Proof.
  intros Hp Hpq. pose proof (ilog2_mono p q Hp Hpq) as Hl.
  destruct (Z.eq_dec (F32.ilog2 p) (F32.ilog2 q)) as [E | NE].
  - unfold F32.rnd_pos. rewrite E. set (e := (F32.ilog2 q - (F32.prec - 1))%Z).
    pose proof (pow2_pos e) as Pe.
    apply Qmult_le_compat_r; [ | lra].
    rewrite <- Zle_Qle. apply round_half_even_mono.
    apply Qmult_le_compat_r; [exact Hpq | ].
    apply Qlt_le_weak, Qinv_lt_0_compat, Pe.
  - destruct (rnd_pos_bounds p Hp) as [_ H1].
    destruct (rnd_pos_bounds q) as [H2 _]; [lra | ].
    assert (H3 : 2 ^ (F32.ilog2 p + 1) <= 2 ^ F32.ilog2 q) by (apply pow2_le; lia).
    lra.
Qed.

Lemma rnd_pos_pos (a : Q) : 0 < a -> 0 < F32.rnd_pos a.
Proof.
  intros Ha. destruct (rnd_pos_bounds a Ha) as [H _].
  pose proof (pow2_pos (F32.ilog2 a)). lra.
Qed.

Lemma rnd_case (q : Q) :
  (q == 0 /\ F32.rnd q = 0) \/ (0 < q /\ F32.rnd q == F32.rnd_pos q) \/
  (q < 0 /\ F32.rnd q == - F32.rnd_pos (- q)).
Proof.
  unfold F32.rnd. destruct (q ?= 0) eqn:C.
  - left. apply Qeq_alt in C. split; [exact C | reflexivity].
  - right; right. apply Qlt_alt in C. split; [exact C | apply Qred_correct].
  - right; left. apply Qgt_alt in C. split; [exact C | apply Qred_correct].
Qed.

Lemma rnd_mono (p q : Q) : p <= q -> F32.rnd p <= F32.rnd q.
Proof.
  intros Hpq.
  destruct (rnd_case p) as [[Hp Ep] | [[Hp Ep] | [Hp Ep]]];
  destruct (rnd_case q) as [[Hq Eq] | [[Hq Eq] | [Hq Eq]]];
  rewrite ?Ep, ?Eq; try lra.
  - pose proof (rnd_pos_pos q Hq). lra.
  - apply rnd_pos_mono; assumption.
  - assert (H : 0 < F32.rnd_pos (- p)) by (apply rnd_pos_pos; lra). lra.
  - assert (H : 0 < F32.rnd_pos (- p)) by (apply rnd_pos_pos; lra).
    pose proof (rnd_pos_pos q Hq). lra.
  - assert (H : F32.rnd_pos (- q) <= F32.rnd_pos (- p)) by (apply rnd_pos_mono; lra). lra.
Qed.

Instance rnd_comp : Proper (Qeq ==> Qeq) F32.rnd.
Proof.
  intros p q E. apply Qle_antisym; apply rnd_mono; rewrite E; apply Qle_refl.
Qed.

Lemma rnd_0 : F32.rnd 0 = 0.
Proof. reflexivity. Qed.

Lemma rnd_nonneg (q : Q) : 0 <= q -> 0 <= F32.rnd q.
Proof. intros H. apply rnd_mono in H. exact H. Qed.
End Rnd.

#[global] Existing Instance rnd_comp.

Section Exact.
Open Scope Q_scope.

(** A value [m * 2^k] with fewer than 24 significant bits is a float. *)
Lemma rnd_pos_exact (m k : Z) :
  (0 < m < 2 ^ 24)%Z -> F32.rnd_pos (inject_Z m * 2 ^ k) == inject_Z m * 2 ^ k.
Proof.
  intros [Hm0 Hm].
  set (q := inject_Z m * 2 ^ k).
  pose proof (pow2_pos k) as Pk.
  assert (Hq : 0 < q).
  { unfold q. apply Qmult_lt_0_compat; [ | exact Pk]. 
    change 0 with (inject_Z 0). rewrite <- Zlt_Qlt. exact Hm0. }
  destruct (ilog2_spec q Hq) as [Hl _].
  assert (Hlt : q < 2 ^ (24 + k)).
  { unfold q. rewrite pow2_add. apply Qmult_lt_compat_r; [exact Pk | ].
    change (2 ^ 24) with (inject_Z (2 ^ 24)). rewrite <- Zlt_Qlt. exact Hm. }
  assert (He : (F32.ilog2 q < 24 + k)%Z) by (apply pow2_lt_inv; lra).
  unfold F32.rnd_pos, F32.prec. set (e := (F32.ilog2 q - (24 - 1))%Z).
  assert (Hke : (0 <= k - e)%Z) by (unfold e; lia).
  assert (Hs : q / 2 ^ e == inject_Z (m * 2 ^ (k - e))).
  { rewrite inject_Z_mult, pow2_inject by exact Hke.
    unfold q. replace k with ((k - e) + e)%Z at 1 by lia.
    rewrite pow2_add. field. pose proof (pow2_pos e). lra. }
  rewrite Hs, round_half_even_Z.
  rewrite inject_Z_mult, pow2_inject by exact Hke.
  unfold q. replace k with ((k - e) + e)%Z at 2 by lia.
  rewrite pow2_add. ring.
Qed.

Lemma rnd_opp (q : Q) : F32.rnd (- q) == - F32.rnd q.
Proof.
  destruct (rnd_case q) as [[Hq E] | [[Hq E] | [Hq E]]];
  destruct (rnd_case (- q)) as [[Hq' E'] | [[Hq' E'] | [Hq' E']]];
  try (exfalso; lra); rewrite E, E'.
  - reflexivity.
  - assert (X : F32.rnd_pos (- - q) == F32.rnd_pos q).
    { apply Qle_antisym; apply rnd_pos_mono; lra. }
    rewrite X. reflexivity.
  - ring.
Qed.

Lemma rnd_exact (m k : Z) :
  (Z.abs m < 2 ^ 24)%Z -> F32.rnd (inject_Z m * 2 ^ k) == inject_Z m * 2 ^ k.
Proof.
  intros Hm. pose proof (pow2_pos k) as Pk.
  destruct (Z.lt_trichotomy m 0) as [Hneg | [H0 | Hpos]].
  - assert (E : inject_Z m * 2 ^ k == - (inject_Z (- m) * 2 ^ k)).
    { rewrite inject_Z_opp. ring. }
    rewrite E, rnd_opp. apply Qopp_comp.
    assert (P : 0 < inject_Z (- m) * 2 ^ k).
    { apply Qmult_lt_0_compat; [ | exact Pk].
      change 0 with (inject_Z 0). rewrite <- Zlt_Qlt. lia. }
    destruct (rnd_case (inject_Z (- m) * 2 ^ k)) as [[Hq _] | [[_ Eq] | [Hq _]]]; try lra.
    rewrite Eq. apply rnd_pos_exact. lia.
  - subst m. assert (E : inject_Z 0 * 2 ^ k == 0) by ring.
    rewrite E. reflexivity.
  - assert (P : 0 < inject_Z m * 2 ^ k).
    { apply Qmult_lt_0_compat; [ | exact Pk].
      change 0 with (inject_Z 0). rewrite <- Zlt_Qlt. lia. }
    destruct (rnd_case (inject_Z m * 2 ^ k)) as [[Hq _] | [[_ Eq] | [Hq _]]]; try lra.
    rewrite Eq. apply rnd_pos_exact. lia.
Qed.

Lemma rnd_inject_Z (z : Z) : (Z.abs z <= 2 ^ 24)%Z -> F32.rnd (inject_Z z) == inject_Z z.
Proof.
  intros Hz.
  destruct (Z.eq_dec (Z.abs z) (2 ^ 24)%Z) as [E | NE].
  - destruct (Z.abs_eq_or_opp z) as [A | A]; rewrite A in E.
    + subst z. vm_compute. reflexivity.
    + assert (z = - 2 ^ 24)%Z by lia. subst z. vm_compute. reflexivity.
  - assert (E : inject_Z z == inject_Z z * 2 ^ 0) by (change (2 ^ 0) with 1; ring).
    rewrite E at 1. rewrite rnd_exact by lia. symmetry. exact E.
Qed.
End Exact.

Section ToInt.
Open Scope Q_scope.

Lemma quot_floor (n : Z) (d : positive) :
  (0 <= n)%Z -> Z.quot n (Zpos d) = Qfloor (n # d).
Proof. intros H. unfold Qfloor. apply Z.quot_div_nonneg; lia. Qed.

Lemma Ztrunc_comp (p q : Q) :
  p == q -> Z.quot (Qnum p) (Zpos (Qden p)) = Z.quot (Qnum q) (Zpos (Qden q)).
Proof.
  intros E. destruct p as [n1 d1], q as [n2 d2]. cbn [Qnum Qden].
  assert (Hs : (n1 * Zpos d2 = n2 * Zpos d1)%Z) by exact E.
  pose proof (Pos2Z.is_pos d1) as P1. pose proof (Pos2Z.is_pos d2) as P2.
  destruct (Z_lt_le_dec n1 0) as [Hneg | Hpos].
  - assert (Hn2 : (n2 < 0)%Z).
    { assert (n1 * Zpos d2 < 0)%Z by (apply Z.mul_neg_pos; lia).
      destruct (Z_lt_le_dec n2 0) as [L | G]; [exact L | ].
      assert (0 <= n2 * Zpos d1)%Z by (apply Z.mul_nonneg_nonneg; lia). lia. }
    assert (Q1 : (n1 ÷ Z.pos d1 = - (- n1 ÷ Z.pos d1))%Z)
      by (rewrite Z.quot_opp_l by lia; lia).
    assert (Q2 : (n2 ÷ Z.pos d2 = - (- n2 ÷ Z.pos d2))%Z)
      by (rewrite Z.quot_opp_l by lia; lia).
    rewrite Q1, Q2. f_equal.
    rewrite (quot_floor (- n1)) by lia. rewrite (quot_floor (- n2)) by lia.
    apply Qfloor_comp.
    unfold Qeq. cbn. lia.
  - assert (Hn2 : (0 <= n2)%Z).
    { assert (0 <= n1 * Zpos d2)%Z by (apply Z.mul_nonneg_nonneg; lia).
      destruct (Z_lt_le_dec n2 0) as [L | G]; [ | exact G].
      assert (n2 * Zpos d1 < 0)%Z by (apply Z.mul_neg_pos; lia). lia. }
    rewrite !quot_floor by lia. apply Qfloor_comp. exact E.
Qed.

Lemma to_int_comp (p q : Q) : p == q -> F32.to_int p = F32.to_int q.
Proof. intros E. unfold F32.to_int. rewrite (Ztrunc_comp p q E). reflexivity. Qed.

Lemma to_int_inject_Z (z : Z) :
  (F32.INT_MIN <= z <= F32.INT_MAX)%Z -> F32.to_int (inject_Z z) = Some z.
Proof.
  intros [H1 H2]. unfold F32.to_int. cbn [inject_Z Qnum Qden].
  rewrite Z.quot_1_r.
  destruct (Z.leb_spec F32.INT_MIN z); [ | lia].
  destruct (Z.leb_spec z F32.INT_MAX); [ | lia]. reflexivity.
Qed.
End ToInt.

Section FloatOps.
Open Scope Q_scope.

Lemma rnd_idem (q : Q) : F32.rnd (F32.rnd q) == F32.rnd q.
Proof.
  assert (Pos : forall a, 0 < a -> F32.rnd (F32.rnd_pos a) == F32.rnd_pos a).
  { intros a Ha. destruct (scaled_bounds a Ha) as [H1 H2]. unfold F32.rnd_pos.
    set (e := (F32.ilog2 a - (F32.prec - 1))%Z) in *.
    set (m := F32.round_half_even (a / 2 ^ e)).
    assert (M1 : (2 ^ 23 <= m)%Z) by (apply round_half_even_ge; exact H1).
    assert (M2 : (m <= 2 ^ 24)%Z)
      by (apply round_half_even_le, Qlt_le_weak; exact H2).
    destruct (Z.eq_dec m (2 ^ 24)%Z) as [E | NE].
    - rewrite E.
      assert (X : inject_Z (2 ^ 24) * 2 ^ e == inject_Z (2 ^ 23) * 2 ^ (e + 1)).
      { rewrite pow2_succ. change (inject_Z (2 ^ 24)) with (2 * inject_Z (2 ^ 23)). ring. }
      rewrite X. apply rnd_exact. vm_compute. reflexivity.
    - apply rnd_exact. lia. }
  destruct (rnd_case q) as [[Hq E] | [[Hq E] | [Hq E]]].
  - rewrite E. reflexivity.
  - rewrite E. apply Pos. exact Hq.
  - rewrite E, rnd_opp. apply Qopp_comp, Pos. lra.
Qed.

Lemma of_int_mono (a b : Z) : (a <= b)%Z -> F32.of_int a <= F32.of_int b.
Proof. intros H. apply rnd_mono. rewrite <- Zle_Qle. exact H. Qed.

Lemma of_int_nonneg (a : Z) : (0 <= a)%Z -> 0 <= F32.of_int a.
Proof. intros H. apply (of_int_mono 0 a H). Qed.

Lemma of_int_exact (z : Z) : (Z.abs z <= 2 ^ 24)%Z -> F32.of_int z == inject_Z z.
Proof. apply rnd_inject_Z. Qed.

Lemma mul_mono_l (a b c : Q) : 0 <= c -> a <= b -> F32.mul a c <= F32.mul b c.
Proof. intros Hc Hab. apply rnd_mono. apply Qmult_le_compat_r; assumption. Qed.

Lemma mul_nonneg (a b : Q) : 0 <= a -> 0 <= b -> 0 <= F32.mul a b.
Proof. intros Ha Hb. apply rnd_nonneg. apply Qmult_le_0_compat; assumption. Qed.

Lemma add_mono_l (a b c : Q) : a <= b -> F32.add a c <= F32.add b c.
Proof. intros Hab. apply rnd_mono. lra. Qed.

Lemma add_exact (a b : Z) :
  (Z.abs (a + b) <= 2 ^ 24)%Z -> F32.add (inject_Z a) (inject_Z b) == inject_Z (a + b).
Proof.
  intros H. unfold F32.add. rewrite <- inject_Z_plus. apply rnd_inject_Z. exact H.
Qed.

Instance add_comp : Proper (Qeq ==> Qeq ==> Qeq) F32.add.
Proof. intros a a' Ea b b' Eb. unfold F32.add. rewrite Ea, Eb. reflexivity. Qed.

End FloatOps.

#[global] Existing Instance add_comp.

(** ** Text measurement *)

Section MeasureText.
Open Scope Q_scope.

Lemma font_scale_nonneg (cfg : option Clay_TextElementConfig) :
  0 <= F32.mul
         match cfg with
         | Some c => F32.of_int (Z.of_N (fontSize c))
         | None => 12
         end (F32.rnd (55 # 100)).
Proof.
  apply mul_nonneg.
  - destruct cfg as [c | ]; [apply of_int_nonneg; lia | lra].
  - apply rnd_nonneg. lra.
Qed.

Lemma measure_width_mono (cfg : option Clay_TextElementConfig) (userData : Z)
    (s1 s2 : Clay_StringSlice) :
  (ss_length s1 <= ss_length s2)%Z ->
  dim_width (measure_text_fn s1 cfg userData)
  <= dim_width (measure_text_fn s2 cfg userData).
Proof.
  intros Hlen. unfold measure_text_fn. cbn [dim_width].
  apply add_mono_l, mul_mono_l.
  - apply font_scale_nonneg.
  - apply of_int_mono. exact Hlen.
Qed.

Lemma measure_width_empty (cfg : option Clay_TextElementConfig) (userData : Z)
    (s : Clay_StringSlice) :
  ss_length s = 0%Z ->
  dim_width (measure_text_fn s cfg userData)
  == F32.of_int match cfg with
                | Some c => Z.of_N (letterSpacing c)
                | None => 0
                end.
Proof.
  intros Hlen. unfold measure_text_fn. cbn [dim_width]. rewrite Hlen.
  set (c := F32.mul _ (F32.rnd _)).
  set (ls := match cfg with Some _ => _ | None => 0%Z end).
  assert (E : F32.mul (F32.of_int 0) c == 0).
  { unfold F32.mul. change (F32.of_int 0) with 0.
    assert (Z0 : 0 * c == 0) by ring. rewrite Z0. reflexivity. }
  unfold F32.add. rewrite E.
  assert (E2 : 0 + F32.of_int ls == F32.of_int ls) by ring.
  rewrite E2. apply rnd_idem.
Qed.

(** C8. For every text configuration (also the missing one), the width
    [measure_text_fn] returns does not decrease when the length of the
    measured string grows; on the empty string it returns the letter
    spacing (zero without a configuration) as width, a non-negative
    value, and the font size as height. *)
Theorem measure_text_fn_monotone (cfg : option Clay_TextElementConfig)
    (userData : Z) :
  (forall s1 s2 : Clay_StringSlice,
     (ss_length s1 <= ss_length s2)%Z ->
     dim_width (measure_text_fn s1 cfg userData)
     <= dim_width (measure_text_fn s2 cfg userData))
  /\ (forall s : Clay_StringSlice,
        ss_length s = 0%Z ->
        dim_width (measure_text_fn s cfg userData)
        == F32.of_int match cfg with
                      | Some c => Z.of_N (letterSpacing c)
                      | None => 0
                      end
        /\ 0 <= dim_width (measure_text_fn s cfg userData)
        /\ dim_height (measure_text_fn s cfg userData)
           = match cfg with
             | Some c => F32.of_int (Z.of_N (fontSize c))
             | None => 12
             end).
Proof.
  split.
  - intros s1 s2. apply measure_width_mono.
  - intros s Hs. split; [ | split].
    + apply measure_width_empty. exact Hs.
    + rewrite (measure_width_empty cfg userData s Hs).
      apply of_int_nonneg. destruct cfg; lia.
    + unfold measure_text_fn. cbn [dim_height]. destruct cfg; reflexivity.
Qed.

Lemma measure_text_fn_monotone_witness :
  dim_width (measure_text_fn (slice_of "") (Some (text_config 230 230 230)) 0)
  <= dim_width (measure_text_fn (slice_of "Menu") (Some (text_config 230 230 230)) 0)
  /\ dim_width (measure_text_fn (slice_of "") (Some (text_config 230 230 230)) 0)
     == F32.of_int 0.
Proof.
  destruct (measure_text_fn_monotone (Some (text_config 230 230 230)) 0) as [Hmono Hempty].
  split.
  - apply (Hmono (slice_of "") (slice_of "Menu")). vm_compute. discriminate.
  - apply (Hempty (slice_of "")). reflexivity.
Defined.

End MeasureText.

(** ** Hit testing *)

Section HitTest.

Lemma point_in_element_found (ctx : Clay_Context) (id_str : string)
    (b : Clay_BoundingBox) (px py : Z) :
  ctx !! id_str = Some b ->
  point_in_element ctx id_str px py =
    (ix ← F32.to_int (bb_x b);
     if negb (px >=? ix) then Some 0 else
     ixw ← F32.to_int (F32.add (bb_x b) (bb_width b));
     if negb (px <? ixw) then Some 0 else
     iy ← F32.to_int (bb_y b);
     if negb (py >=? iy) then Some 0 else
     iyh ← F32.to_int (F32.add (bb_y b) (bb_height b));
     Some (c_bool (py <? iyh))).
Proof.
  intros H. unfold point_in_element, Clay_GetElementData, CLAY_ID. rewrite H.
  reflexivity.
Qed.

Lemma point_in_element_not_found (ctx : Clay_Context) (id_str : string) (px py : Z) :
  ctx !! id_str = None -> point_in_element ctx id_str px py = Some 0.
Proof.
  intros H. unfold point_in_element, Clay_GetElementData, CLAY_ID. rewrite H.
  reflexivity.
Qed.

Lemma to_int_pixel (q : Q) (z : Z) :
  (q == inject_Z z)%Q -> Z.abs z <= 2 ^ 24 -> F32.to_int q = Some z.
Proof.
  intros E Hz. rewrite (to_int_comp _ _ E). apply to_int_inject_Z.
  unfold F32.INT_MIN, F32.INT_MAX. lia.
Qed.

Lemma to_int_add_pixel (a b : Q) (x w : Z) :
  (a == inject_Z x)%Q -> (b == inject_Z w)%Q -> Z.abs (x + w) <= 2 ^ 24 ->
  F32.to_int (F32.add a b) = Some (x + w).
Proof.
  intros Ea Eb H. apply to_int_pixel; [ | exact H].
  rewrite Ea, Eb. apply add_exact. exact H.
Qed.

Lemma Qle_bool_inject (a b : Z) (q : Q) :
  (q == inject_Z a)%Q -> Qle_bool q (inject_Z b) = (a <=? b).
Proof.
  intros E. apply eq_true_iff_eq. rewrite Qle_bool_iff, E, <- Zle_Qle.
  symmetry. apply Z.leb_le.
Qed.

Lemma Qlt_bool_inject (a b : Z) (q : Q) :
  (q == inject_Z b)%Q -> Qlt_bool (inject_Z a) q = (a <? b).
Proof.
  intros E. unfold Qlt_bool. rewrite (Qle_bool_inject b a q E).
  rewrite Z.ltb_antisym. reflexivity.
Qed.

(** On a box with integer coordinates the code and the rule agree. *)
Lemma point_in_element_pixel_box (ctx : Clay_Context) (id_str : string)
    (b : Clay_BoundingBox) (x y w h px py : Z) :
  ctx !! id_str = Some b ->
  (bb_x b == inject_Z x)%Q -> (bb_y b == inject_Z y)%Q ->
  (bb_width b == inject_Z w)%Q -> (bb_height b == inject_Z h)%Q ->
  Z.abs x <= 2 ^ 24 -> Z.abs y <= 2 ^ 24 ->
  Z.abs (x + w) <= 2 ^ 24 -> Z.abs (y + h) <= 2 ^ 24 ->
  point_in_element ctx id_str px py
  = Some (c_bool ((x <=? px) && (px <? x + w) && (y <=? py) && (py <? y + h)))
  /\ spec_hit_test b px py = (x <=? px) && (px <? x + w) && (y <=? py) && (py <? y + h).
Proof.
  intros Hb Ex Ey Ew Eh Hx Hy Hxw Hyh. split.
  - rewrite (point_in_element_found ctx id_str b px py Hb).
    rewrite (to_int_pixel _ _ Ex Hx), (to_int_pixel _ _ Ey Hy).
    rewrite (to_int_add_pixel _ _ _ _ Ex Ew Hxw), (to_int_add_pixel _ _ _ _ Ey Eh Hyh).
    cbn [mbind option_bind]. rewrite !Z.geb_leb.
    destruct (x <=? px), (px <? x + w), (y <=? py), (py <? y + h); reflexivity.
  - unfold spec_hit_test.
    rewrite (Qle_bool_inject x px _ Ex), (Qle_bool_inject y py _ Ey).
    rewrite (Qlt_bool_inject px (x + w)), (Qlt_bool_inject py (y + h)).
    + reflexivity.
    + rewrite Ey, Eh, inject_Z_plus. reflexivity.
    + rewrite Ex, Ew, inject_Z_plus. reflexivity.
Qed.

End HitTest.

(** On a box with integer pixel coordinates [(x, y, w, h)], each edge
    at most 2^24 in magnitude, the hit test is the half-open rule of the
    specification: true if and only if [px] is in [[x, x+w)] and [py]
    is in [[y, y+h)]. *)
Lemma point_in_element_integer_box (ctx : Clay_Context) (id_str : string)
    (x y w h px py : Z) :
  ctx !! id_str = Some (pixel_box x y w h) ->
  Z.abs x <= 2 ^ 24 -> Z.abs y <= 2 ^ 24 ->
  Z.abs (x + w) <= 2 ^ 24 -> Z.abs (y + h) <= 2 ^ 24 ->
  point_in_element ctx id_str px py
  = Some (c_bool (spec_hit_test (pixel_box x y w h) px py))
  /\ (point_in_element ctx id_str px py = Some 1
      <-> (x <= px < x + w /\ y <= py < y + h)).
Proof.
  intros Hb Hx Hy Hxw Hyh.
  destruct (point_in_element_pixel_box ctx id_str (pixel_box x y w h) x y w h px py Hb)
    as [Hcode Hspec]; try reflexivity; try assumption.
  rewrite Hspec, Hcode. split; [reflexivity | ].
  destruct (Z.leb_spec x px), (Z.ltb_spec px (x + w)),
    (Z.leb_spec y py), (Z.ltb_spec py (y + h)); cbn;
    split; intros G; try discriminate G; try reflexivity; lia.
Qed.

(** C7. For an identifier that is absent from the boxes of the current
    frame the hit test returns 0 at every point; it does not fail, and
    the result is the one a present identifier gives at a point outside
    its box. *)
Theorem point_in_element_absent (ctx : Clay_Context) (id_str : string) (px py : Z) :
  ctx !! id_str = None ->
  point_in_element ctx id_str px py = Some 0
  /\ forall (ctx' : Clay_Context) (id' : string) (px' py' : Z),
       is_Some (ctx' !! id') ->
       point_in_element ctx' id' px' py' = Some 0 ->
       point_in_element ctx id_str px py = point_in_element ctx' id' px' py'.
Proof.
  intros H. pose proof (point_in_element_not_found ctx id_str px py H) as E.
  split; [exact E | ]. intros ctx' id' px' py' _ E'. congruence.
Qed.

Lemma point_in_element_absent_witness :
  let ctx := clay (fst (render_clay_with_cairo spec_engine (initial_bar 1920))) in
  ctx !! "item1" = None
  /\ point_in_element ctx "item1" 20 40 = Some 0
  /\ point_in_element ctx "item1" 20 40 = point_in_element ctx "menu_toggle" 100 100.
Proof.
  intros ctx.
  assert (Habs : ctx !! "item1" = None) by (vm_compute; reflexivity).
  destruct (point_in_element_absent ctx "item1" 20 40 Habs) as [H0 Hsame].
  split; [exact Habs | split; [exact H0 | ]].
  apply Hsame; [vm_compute; eauto | vm_compute; reflexivity].
Defined.

(** ** The status buffer *)

Section StatusBuffer.

Lemma c_str_app_nul (l r : list byte) : c_str (l ++ x00 :: r) = c_str l.
Proof.
  induction l as [ | b l IH]; cbn.
  - reflexivity.
  - destruct (Byte.eqb b x00); [reflexivity | now rewrite IH].
Qed.

Lemma length_c_str (l : list byte) : (List.length (c_str l) <= List.length l)%nat.
Proof.
  induction l as [ | b l IH]; cbn; [lia | ].
  destruct (Byte.eqb b x00); cbn; lia.
Qed.

(** The bytes of the C string are followed by a NUL inside the buffer,
    provided the buffer holds one. *)
Lemma c_str_terminated (l : list byte) (i : nat) :
  l !! i = Some x00 ->
  (List.length (c_str l) <= i)%nat /\ l !! List.length (c_str l) = Some x00.
Proof.
  revert i. induction l as [ | b l IH]; intros i Hi; [discriminate | ].
  cbn [c_str]. destruct (Byte.eqb b x00) eqn:Eb.
  - apply Byte.byte_dec_bl in Eb. subst b. cbn. split; [lia | reflexivity].
  - destruct i as [ | i].
    + cbn in Hi. injection Hi as ->. discriminate.
    + cbn in Hi. destruct (IH i Hi) as [H1 H2]. cbn. split; [lia | exact H2].
Qed.

Lemma memcpy_ok (dst src : list byte) (n : Z) :
  0 <= n <= Z.of_nat (List.length src) -> n <= Z.of_nat (List.length dst) ->
  memcpy dst src n = Some (take (Z.to_nat n) src ++ drop (Z.to_nat n) dst).
Proof.
  intros [H0 H1] H2. unfold memcpy.
  destruct (Z.leb_spec 0 n); [ | lia].
  destruct (Z.leb_spec n (Z.of_nat (List.length src))); [ | lia].
  destruct (Z.leb_spec n (Z.of_nat (List.length dst))); [ | lia].
  reflexivity.
Qed.

Lemma store_ok (buf : list byte) (i : Z) (b : byte) :
  0 <= i < Z.of_nat (List.length buf) ->
  store buf i b = Some (<[Z.to_nat i := b]> buf).
Proof.
  intros [H0 H1]. unfold store.
  destruct (Z.leb_spec 0 i); [ | lia].
  destruct (Z.ltb_spec i (Z.of_nat (List.length buf))); [ | lia].
  reflexivity.
Qed.

(** Copying [n] bytes and terminating them. *)
Lemma copy_terminate (dst src : list byte) (n : nat) :
  (n <= List.length src)%nat -> (n < List.length dst)%nat ->
  <[n := x00]> (take n src ++ drop n dst) = take n src ++ x00 :: drop (S n) dst.
Proof.
  intros Hs Hd.
  assert (Ht : List.length (take n src) = n) by (rewrite length_take; lia).
  rewrite insert_app_r_alt by lia. rewrite Ht, Nat.sub_diag.
  destruct (drop n dst) as [ | d rest] eqn:Ed.
  - apply (f_equal List.length) in Ed. rewrite length_drop in Ed. cbn in Ed. lia.
  - cbn. do 2 f_equal.
    replace (S n) with (n + 1)%nat by lia. rewrite <- drop_drop, Ed. reflexivity.
Qed.

End StatusBuffer.

Section StatusUpdate.

Lemma status_cleared (statusbuf : list byte) :
  List.length statusbuf = 512%nat ->
  exists rest,
    store statusbuf 0 x00 = Some (x00 :: rest)
    /\ List.length (x00 :: rest) = 512%nat.
Proof.
  intros Hlen. destruct statusbuf as [ | b rest]; [discriminate | ].
  exists rest. split.
  - rewrite store_ok by (rewrite Hlen; lia). reflexivity.
  - exact Hlen.
Qed.

Lemma status_copied (v statusbuf : list byte) (n : nat) :
  List.length statusbuf = 512%nat ->
  (n <= List.length v)%nat -> (n <= 511)%nat ->
  exists buf,
    (buf' ← memcpy statusbuf v (Z.of_nat n); store buf' (Z.of_nat n) x00) = Some buf
    /\ buf = take n v ++ x00 :: drop (S n) statusbuf
    /\ List.length buf = 512%nat.
Proof.
  intros Hlen Hv Hn.
  rewrite memcpy_ok by lia. cbn [mbind option_bind].
  rewrite Nat2Z.id.
  assert (Hl : List.length (take n v ++ drop n statusbuf) = 512%nat).
  { rewrite length_app, length_take, length_drop. lia. }
  rewrite store_ok by (rewrite Hl; lia).
  rewrite Nat2Z.id, copy_terminate by lia.
  eexists. split; [reflexivity | split; [reflexivity | ]].
  rewrite length_app, length_take. cbn [List.length]. rewrite length_drop. lia.
Qed.

(** The number of bytes [update_root_status] copies. *)
Lemma status_length (v : list byte) (tprop : XTextProperty) :
  0 <= nitems tprop <= Z.of_nat (List.length v) ->
  let n := Z.to_nat (Z.min (nitems tprop) 511) in
  (if nitems tprop >? STATUSBUF_SIZE - 1 then STATUSBUF_SIZE - 1 else nitems tprop)
  = Z.of_nat n /\ (n <= List.length v)%nat /\ (n <= 511)%nat.
Proof.
  intros H n. unfold STATUSBUF_SIZE, n.
  destruct (Z.gtb_spec (nitems tprop) (512 - 1)); lia.
Qed.

Lemma truthy_false (z : Z) : truthy z = false -> z = 0.
Proof. unfold truthy. destruct (Z.eqb_spec z 0); [trivial | discriminate]. Qed.

Lemma truthy_nonzero (z : Z) : truthy z = true <-> z <> 0.
Proof. unfold truthy. destruct (Z.eqb_spec z 0); cbn; split; congruence. Qed.

(** The call in closed form: the buffer it leaves, or no result when it
    frees the atom. *)
Lemma update_root_status_result (status : Z) (tprop : XTextProperty)
    (statusbuf : list byte) :
  List.length statusbuf = 512%nat -> tprop_ok tprop ->
  update_root_status status tprop statusbuf
  = match (if truthy status then value tprop else None) with
    | Some v =>
        let n := Z.to_nat (Z.min (nitems tprop) 511) in
        if truthy (encoding tprop) then None
        else Some (take n v ++ x00 :: drop (S n) statusbuf)
    | None => Some (x00 :: drop 1 statusbuf)
    end.
Proof.
  intros Hlen Hok. unfold update_root_status.
  destruct (if truthy status then value tprop else None) as [v | ] eqn:Hv.
  - assert (Hval : value tprop = Some v)
      by (destruct (truthy status); [exact Hv | discriminate]).
    destruct (status_length v tprop (Hok v Hval)) as (En & Hn1 & Hn2).
    cbn zeta in *. rewrite En.
    destruct (status_copied v statusbuf _ Hlen Hn1 Hn2) as (buf & Hbuf & Eb & _).
    rewrite memcpy_ok in Hbuf |- * by lia. cbn [mbind option_bind] in Hbuf |- *.
    rewrite Hbuf, Eb. cbn [mbind option_bind].
    destruct (truthy (encoding tprop)); reflexivity.
  - destruct (status_cleared statusbuf Hlen) as (rest & Hs & _). rewrite Hs.
    destruct statusbuf as [ | b sb]; [discriminate | ].
    rewrite store_ok in Hs by (cbn [List.length]; lia). injection Hs as <-.
    reflexivity.
Qed.

(** What a call that returns has done. *)
Lemma update_root_status_inv (status : Z) (tprop : XTextProperty)
    (statusbuf buf : list byte) :
  update_root_status status tprop statusbuf = Some buf ->
  ((truthy status = false \/ value tprop = None)
   /\ store statusbuf 0 x00 = Some buf)
  \/ (exists v len b,
        truthy status = true /\ value tprop = Some v /\ encoding tprop = 0
        /\ memcpy statusbuf v len = Some b /\ store b len x00 = Some buf).
Proof.
  unfold update_root_status. destruct (truthy status) eqn:Hs.
  - destruct (value tprop) as [v | ] eqn:Hv; [ | intros H; left; auto].
    set (len := if nitems tprop >? STATUSBUF_SIZE - 1
                then STATUSBUF_SIZE - 1 else nitems tprop).
    destruct (memcpy statusbuf v len) as [b | ] eqn:Hm; [ | discriminate].
    cbn [mbind option_bind].
    destruct (store b len x00) as [b' | ] eqn:Hst; [ | discriminate].
    cbn [mbind option_bind].
    destruct (truthy (encoding tprop)) eqn:He; [discriminate | ].
    intros [= <-]. right. exists v, len, b.
    apply truthy_false in He. auto.
  - intros H. left. auto.
Qed.

Lemma store_inv (buf buf' : list byte) (i : Z) (b : byte) :
  store buf i b = Some buf' ->
  (Z.to_nat i < List.length buf)%nat /\ buf' = <[Z.to_nat i := b]> buf.
Proof.
  unfold store. destruct (Z.leb_spec 0 i); [ | discriminate].
  destruct (Z.ltb_spec i (Z.of_nat (List.length buf))); [ | discriminate].
  cbn. intros [= <-]. split; [lia | reflexivity].
Qed.

Lemma memcpy_length (dst src buf : list byte) (n : Z) :
  memcpy dst src n = Some buf -> List.length buf = List.length dst.
Proof.
  unfold memcpy. destruct (Z.leb_spec 0 n); [ | discriminate].
  destruct (Z.leb_spec n (Z.of_nat (List.length src))); [ | discriminate].
  destruct (Z.leb_spec n (Z.of_nat (List.length dst))); [ | discriminate].
  cbn. intros [= <-]. rewrite length_app, length_take, length_drop. lia.
Qed.

(** A call that returns keeps the size of the buffer and leaves a NUL
    in it. *)
Lemma update_root_status_ok (status : Z) (tprop : XTextProperty)
    (statusbuf buf : list byte) :
  update_root_status status tprop statusbuf = Some buf ->
  List.length buf = List.length statusbuf /\ x00 ∈ buf.
Proof.
  intros H.
  destruct (update_root_status_inv _ _ _ _ H)
    as [[_ Hs] | (v & len & b & _ & _ & _ & Hm & Hs)];
    apply store_inv in Hs as [Hi ->].
  - split; [apply length_insert | ].
    apply list_elem_of_lookup. exists (Z.to_nat 0).
    apply list_lookup_insert_eq. exact Hi.
  - rewrite length_insert. split; [exact (memcpy_length _ _ _ _ Hm) | ].
    apply list_elem_of_lookup. exists (Z.to_nat len).
    apply list_lookup_insert_eq. exact Hi.
Qed.

(** When the fetch reports the type of what it fetched, a call that
    returns is one whose fetch failed: it has stored the terminator at
    index 0 and nothing else. *)
Lemma update_root_status_cleared (status : Z) (tprop : XTextProperty)
    (statusbuf buf : list byte) :
  typed_fetch status tprop ->
  update_root_status status tprop statusbuf = Some buf ->
  (truthy status = false \/ value tprop = None)
  /\ buf = x00 :: drop 1 statusbuf.
Proof.
  intros Ht H.
  destruct (update_root_status_inv _ _ _ _ H)
    as [[Hf Hs] | (v & len & b & Hst & Hv & He & _)].
  - split; [exact Hf | ]. apply store_inv in Hs as [Hi ->].
    destruct statusbuf as [ | c sb]; [cbn in Hi; lia | reflexivity].
  - exfalso. apply (Ht Hst); [rewrite Hv; discriminate | exact He].
Qed.

(** C10.  The code departs from the claim.  On the 512-byte status
    buffer the accesses of [update_root_status] are all in bounds: a
    failed fetch leaves the empty string, and for a fetched name the
    copy of its first [min(nitems, 511)] bytes and the terminator
    behind them stay inside the buffer.  But the branch of a fetched
    name ends by handing the type atom of the property to [XFree], so
    with the non-zero atom of every fetched property the call is
    undefined: it returns only when that atom is 0. *)
Theorem update_root_status_frees_atom (status : Z) (tprop : XTextProperty)
    (statusbuf : list byte) :
  List.length statusbuf = 512%nat -> tprop_ok tprop ->
  (truthy status = false \/ value tprop = None ->
   exists buf,
     update_root_status status tprop statusbuf = Some buf
     /\ List.length buf = 512%nat /\ c_str buf = [])
  /\ (forall v, truthy status = true -> value tprop = Some v ->
        let n := Z.to_nat (Z.min (nitems tprop) 511) in
        (exists buf,
           (b ← memcpy statusbuf v (Z.of_nat n); store b (Z.of_nat n) x00) = Some buf
           /\ List.length buf = 512%nat
           /\ take n buf = take n v /\ buf !! n = Some x00
           /\ c_str buf = c_str (take n v)
           /\ (List.length (c_str buf) <= 511)%nat
           /\ (encoding tprop = 0 ->
               update_root_status status tprop statusbuf = Some buf))
        /\ (encoding tprop <> 0 ->
            update_root_status status tprop statusbuf = None)).
Proof.
  intros Hlen Hok. rewrite (update_root_status_result _ _ _ Hlen Hok). split.
  - intros Hf.
    assert (E : (if truthy status then value tprop else None) = None).
    { destruct Hf as [-> | Hv]; [reflexivity | ].
      rewrite Hv. destruct (truthy status); reflexivity. }
    rewrite E. eexists. split; [reflexivity | ]. split; [ | reflexivity].
    cbn [List.length]. rewrite length_drop. lia.
  - intros v Hst Hv. rewrite Hst, Hv.
    destruct (status_length v tprop (Hok v Hv)) as (_ & Hn1 & Hn2).
    cbn zeta in *. set (n := Z.to_nat (Z.min (nitems tprop) 511)) in *.
    destruct (status_copied v statusbuf n Hlen Hn1 Hn2) as (buf & Hbuf & Eb & Hl).
    assert (Ht : List.length (take n v) = n) by (rewrite length_take; lia).
    assert (Hnul : buf !! n = Some x00).
    { rewrite Eb, lookup_app_r by lia. rewrite Ht, Nat.sub_diag. reflexivity. }
    destruct (c_str_terminated buf n Hnul) as [Hle _].
    split.
    + exists buf. split; [exact Hbuf | ]. split; [exact Hl | ].
      split; [rewrite Eb; apply take_app_length'; symmetry; exact Ht | ].
      split; [exact Hnul | ].
      split; [rewrite Eb; apply c_str_app_nul | ]. split; [lia | ].
      intros ->. rewrite Eb. reflexivity.
    + intros He. apply truthy_nonzero in He. rewrite He. reflexivity.
Qed.

Lemma update_root_status_frees_atom_witness :
  update_root_status 1 xterm_status (repeat x00 512) = None.
Proof.
  destruct (update_root_status_frees_atom 1 xterm_status (repeat x00 512))
    as [_ H].
  - reflexivity.
  - intros v [= <-]. vm_compute. split; discriminate.
  - destruct (H (list_byte_of_string "Open xterm")) as [_ Hfree];
      [reflexivity | reflexivity | ].
    apply Hfree. vm_compute. discriminate.
Defined.

End StatusUpdate.

(** ** Click dispatch *)

Section ClickDispatch.

Variable Clay_Layout :
  Clay_Dimensions -> Element -> list Clay_RenderCommand * Clay_Context.

(** A frame changes the Clay context only and paints once. *)
Lemma render_clay_with_cairo_state (st : Bar) :
  let r := render_clay_with_cairo Clay_Layout st in
  screen_w (fst r) = screen_w st
  /\ dropdown_open (fst r) = dropdown_open st
  /\ timebuf (fst r) = timebuf st
  /\ statusbuf (fst r) = statusbuf st
  /\ exists cmds, snd r = [ Paint cmds ].
Proof.
  unfold render_clay_with_cairo. destruct (Clay_Layout _ _) as [cmds boxes].
  cbn. repeat split. exists cmds. reflexivity.
Qed.

Lemma truthy_c_not (z : Z) : truthy (c_not z) = negb (truthy z).
Proof. unfold truthy, c_not. destruct (z =? 0); reflexivity. Qed.

(** C1. A click at [(mx, my)]: when the point hits [menu_toggle],
    [dropdown_open] is flipped and a frame is drawn; otherwise, when the
    dropdown is open, a hit on [item1] launches [xterm], a hit on
    [item2] launches [xdg-open .], and in both cases as for any other
    click [dropdown_open] becomes 0 and a frame is drawn; when the
    dropdown is closed and the toggle is missed, the state is unchanged
    and nothing is done. *)
Theorem on_button_press_dispatch (st : Bar) (mx my : Z) :
  let hit := fun id_str => point_in_element (clay st) id_str mx my in
  let redraw := fun v => render_clay_with_cairo Clay_Layout (set_dropdown_open v st) in
  (forall v, dropdown_open (fst (redraw v)) = v
             /\ exists cmds, snd (redraw v) = [ Paint cmds ])
  /\ (forall t, hit "menu_toggle" = Some t -> truthy t = true ->
        on_button_press Clay_Layout st mx my
        = Some (redraw (c_not (dropdown_open st)))
        /\ truthy (c_not (dropdown_open st)) = negb (truthy (dropdown_open st)))
  /\ (forall t h1, hit "menu_toggle" = Some t -> truthy t = false ->
        truthy (dropdown_open st) = true ->
        hit "item1" = Some h1 -> truthy h1 = true ->
        on_button_press Clay_Layout st mx my
        = Some (fst (redraw 0), Spawn [ "xterm" ] :: snd (redraw 0)))
  /\ (forall t h1 h2, hit "menu_toggle" = Some t -> truthy t = false ->
        truthy (dropdown_open st) = true ->
        hit "item1" = Some h1 -> truthy h1 = false ->
        hit "item2" = Some h2 -> truthy h2 = true ->
        on_button_press Clay_Layout st mx my
        = Some (fst (redraw 0), Spawn [ "xdg-open"; "." ] :: snd (redraw 0)))
  /\ (forall t h1 h2, hit "menu_toggle" = Some t -> truthy t = false ->
        truthy (dropdown_open st) = true ->
        hit "item1" = Some h1 -> truthy h1 = false ->
        hit "item2" = Some h2 -> truthy h2 = false ->
        on_button_press Clay_Layout st mx my = Some (redraw 0))
  /\ (forall t, hit "menu_toggle" = Some t -> truthy t = false ->
        truthy (dropdown_open st) = false ->
        on_button_press Clay_Layout st mx my = Some (st, [])).
Proof.
  intros hit redraw. unfold on_button_press. fold (hit "menu_toggle").
  fold (hit "item1"). fold (hit "item2"). fold (redraw 0).
  fold (redraw (c_not (dropdown_open st))).
  split; [ | split; [ | split; [ | split; [ | split]]]].
  - intros v.
    destruct (render_clay_with_cairo_state (set_dropdown_open v st))
      as (_ & Hd & _ & _ & Hp).
    split; [exact Hd | exact Hp].
  - intros t Ht Tt. rewrite Ht. cbn [mbind option_bind]. rewrite Tt.
    split; [reflexivity | apply truthy_c_not].
  - intros t h1 Ht Tt Hopen H1 T1. rewrite Ht. cbn [mbind option_bind].
    rewrite Tt, Hopen, H1. cbn [mbind option_bind]. rewrite T1.
    destruct (redraw 0). reflexivity.
  - intros t h1 h2 Ht Tt Hopen H1 T1 H2 T2. rewrite Ht. cbn [mbind option_bind].
    rewrite Tt, Hopen, H1. cbn [mbind option_bind]. rewrite T1, H2.
    cbn [mbind option_bind]. rewrite T2. destruct (redraw 0). reflexivity.
  - intros t h1 h2 Ht Tt Hopen H1 T1 H2 T2. rewrite Ht. cbn [mbind option_bind].
    rewrite Tt, Hopen, H1. cbn [mbind option_bind]. rewrite T1, H2.
    cbn [mbind option_bind]. rewrite T2. reflexivity.
  - intros t Ht Tt Hclosed. rewrite Ht. cbn [mbind option_bind].
    rewrite Tt, Hclosed. reflexivity.
Qed.

(** Every state change is followed by a frame, so the boxes queried by
    the hit test are always those of the state the user sees. *)
Lemma render_in_sync (st : Bar) :
  frame_in_sync Clay_Layout (fst (render_clay_with_cairo Clay_Layout st)).
Proof.
  unfold frame_in_sync, render_clay_with_cairo.
  destruct (Clay_Layout _ _) as [cmds boxes] eqn:E. cbn. rewrite E. reflexivity.
Qed.

Lemma handle_event_in_sync (st st' : Bar) (ev : XEvent) (fx : list Effect) :
  frame_in_sync Clay_Layout st ->
  handle_event Clay_Layout st ev = Some (st', fx) ->
  frame_in_sync Clay_Layout st'.
Proof.
  intros Hsync Hev.
  assert (R : forall s s' f,
             render_clay_with_cairo Clay_Layout s = (s', f) ->
             frame_in_sync Clay_Layout s').
  { intros s s' f E. pose proof (render_in_sync s) as H. rewrite E in H. exact H. }
  destruct ev as [ | width | mx my | | ]; cbn in Hev.
  - injection Hev as Hev. eapply R. exact Hev.
  - unfold on_configure in Hev. destruct (negb (width =? screen_w st)).
    + destruct (render_clay_with_cairo _ _) as [s' f] eqn:E.
      injection Hev as <- _. eapply R. exact E.
    + injection Hev as <- _. exact Hsync.
  - unfold on_button_press in Hev.
    destruct (point_in_element (clay st) "menu_toggle" mx my) as [t | ];
      [cbn in Hev | discriminate Hev].
    destruct (truthy t).
    { injection Hev as Hev. eapply R. exact Hev. }
    destruct (truthy (dropdown_open st)); [ | injection Hev as <- _; exact Hsync].
    destruct (point_in_element (clay st) "item1" mx my) as [h1 | ];
      [cbn in Hev | discriminate Hev].
    destruct (truthy h1).
    { destruct (render_clay_with_cairo _ _) as [s' f] eqn:E.
      injection Hev as <- _. eapply R. exact E. }
    destruct (point_in_element (clay st) "item2" mx my) as [h2 | ];
      [cbn in Hev | discriminate Hev].
    destruct (truthy h2).
    { destruct (render_clay_with_cairo _ _) as [s' f] eqn:E.
      injection Hev as <- _. eapply R. exact E. }
    injection Hev as Hev. eapply R. exact Hev.
  - injection Hev as <- _. exact Hsync.
  - injection Hev as <- _. exact Hsync.
Qed.

Lemma periodic_update_in_sync (st st' : Bar) (now : list byte) (status : Z)
    (tprop : XTextProperty) (fx : list Effect) :
  periodic_update Clay_Layout st now status tprop = Some (st', fx) ->
  frame_in_sync Clay_Layout st'.
Proof.
  unfold periodic_update. destruct (update_root_status _ _ _) as [buf | ];
    [cbn | discriminate].
  intros H. injection H as H.
  match type of H with
  | render_clay_with_cairo _ ?s = _ => pose proof (render_in_sync s) as R
  end.
  rewrite H in R. exact R.
Qed.

End ClickDispatch.

Lemma on_button_press_dispatch_witness :
  (dropdown_open ∘ fst) <$> on_button_press spec_engine bar_closed 10 10 = Some 1
  /\ (exists st cmds,
        on_button_press spec_engine bar_open 20 40
        = Some (st, [ Spawn [ "xterm" ]; Paint cmds ]) /\ dropdown_open st = 0)
  /\ (exists st cmds,
        on_button_press spec_engine bar_open 20 70
        = Some (st, [ Spawn [ "xdg-open"; "." ]; Paint cmds ]) /\ dropdown_open st = 0)
  /\ (exists st cmds,
        on_button_press spec_engine bar_open 500 10 = Some (st, [ Paint cmds ])
        /\ dropdown_open st = 0)
  /\ on_button_press spec_engine bar_closed 500 10 = Some (bar_closed, []).
Proof.
  split; [ | split; [ | split; [ | split]]].
  - destruct (on_button_press_dispatch spec_engine bar_closed 10 10)
      as (Hr & Htoggle & _).
    destruct (Htoggle 1) as [E _]; [reflexivity | reflexivity | ].
    rewrite E. cbn [fmap option_fmap option_map compose].
    rewrite (proj1 (Hr _)). reflexivity.
  - destruct (on_button_press_dispatch spec_engine bar_open 20 40)
      as (Hr & _ & Hitem1 & _).
    destruct (Hr 0) as [Hd [cmds Hp]].
    eexists _, cmds. split; [ | exact Hd].
    rewrite (Hitem1 0 1); try reflexivity. rewrite Hp. reflexivity.
  - destruct (on_button_press_dispatch spec_engine bar_open 20 70)
      as (Hr & _ & _ & Hitem2 & _).
    destruct (Hr 0) as [Hd [cmds Hp]].
    eexists _, cmds. split; [ | exact Hd].
    rewrite (Hitem2 0 0 1); try reflexivity. rewrite Hp. reflexivity.
  - destruct (on_button_press_dispatch spec_engine bar_open 500 10)
      as (Hr & _ & _ & _ & Hother & _).
    destruct (Hr 0) as [Hd [cmds Hp]].
    eexists _, cmds. split; [ | exact Hd].
    rewrite (Hother 0 0 0); try reflexivity.
    rewrite <- Hp. destruct (render_clay_with_cairo _ _). reflexivity.
  - destruct (on_button_press_dispatch spec_engine bar_closed 500 10)
      as (_ & _ & _ & _ & _ & Hnoop).
    apply (Hnoop 0); reflexivity.
Defined.

(** ** Agreement with the Standard Library's IEEE 754 binary32 on the
    constants and sample operations of the program *)

Section Binary32.

Example literal_0_55_agrees :
  (F32.rnd (55 # 100) == SF2Q (SFdiv 24 128 (binary32_of_Z 55) (binary32_of_Z 100)))%Q.
Proof. vm_compute. reflexivity. Qed.

Example font_scale_agrees :
  (F32.mul (F32.of_int 12) (F32.rnd (55 # 100))
   == SF2Q (SFmul 24 128 (binary32_of_Z 12)
              (SFdiv 24 128 (binary32_of_Z 55) (binary32_of_Z 100))))%Q.
Proof. vm_compute. reflexivity. Qed.

Example of_int_rounds_agrees :
  (F32.of_int 16777217 == SF2Q (binary32_of_Z 16777217))%Q
  /\ (F32.of_int 123456789 == SF2Q (binary32_of_Z 123456789))%Q
  /\ (F32.of_int (- 16777219) == SF2Q (binary32_of_Z (- 16777219)))%Q.
Proof. vm_compute. repeat split; reflexivity. Qed.

Example add_agrees :
  (F32.add (21 # 2) 60
   == SF2Q (SFadd 24 128 (SFdiv 24 128 (binary32_of_Z 21) (binary32_of_Z 2))
              (binary32_of_Z 60)))%Q.
Proof. vm_compute. reflexivity. Qed.

Example to_int_truncates :
  F32.to_int (21 # 2) = Some 10 /\ F32.to_int (- 21 # 2) = Some (- 10)
  /\ F32.to_int (inject_Z (2 ^ 31)) = None.
Proof. vm_compute. repeat split; reflexivity. Qed.

End Binary32.

(** ** The emitter of the specification on any frame *)

Section PaintOrder.

Lemma insert_by_z_perm (x : Z * Engine.Resolved) (l : list (Z * Engine.Resolved)) :
  Engine.insert_by_z x l ≡ₚ x :: l.
Proof.
  induction l as [ | y l IH]; cbn; [reflexivity | ].
  destruct (fst x <? fst y); [reflexivity | ].
  rewrite IH. apply Permutation_swap.
Qed.

Lemma insert_by_z_sorted (x : Z * Engine.Resolved) (l : list (Z * Engine.Resolved)) :
  StronglySorted z_le l -> StronglySorted z_le (Engine.insert_by_z x l).
Proof.
  induction 1 as [ | y l Hl IH Hy]; cbn.
  - repeat constructor.
  - destruct (Z.ltb_spec (fst x) (fst y)) as [Hlt | Hge].
    + constructor; [constructor; assumption | ].
      constructor; [unfold z_le; lia | ].
      eapply Forall_impl; [exact Hy | ]. unfold z_le. intros z Hz. lia.
    + constructor; [exact IH | ].
      rewrite insert_by_z_perm. constructor; [exact Hge | exact Hy].
Qed.

(** The floating subtrees are emitted in ascending z-index order, each
    exactly once. *)
Lemma sort_by_z_sorted (l : list (Z * Engine.Resolved)) :
  StronglySorted z_le (Engine.sort_by_z l) /\ Engine.sort_by_z l ≡ₚ l.
Proof.
  unfold Engine.sort_by_z.
  assert (G : forall acc,
             StronglySorted z_le acc ->
             StronglySorted z_le (fold_left (fun a x => Engine.insert_by_z x a) l acc)
             /\ fold_left (fun a x => Engine.insert_by_z x a) l acc ≡ₚ acc ++ l).
  { induction l as [ | x l IH]; intros acc Hacc; cbn.
    - rewrite app_nil_r. split; [exact Hacc | reflexivity].
    - destruct (IH (Engine.insert_by_z x acc) (insert_by_z_sorted x acc Hacc))
        as [Hs Hp].
      split; [exact Hs | ]. rewrite Hp, insert_by_z_perm.
      cbn. apply Permutation_middle. }
  destruct (G [] (SSorted_nil _)) as [Hs Hp]. split; [exact Hs | exact Hp].
Qed.

(** On any frame, a command of a floating subtree is never followed by
    a command of the non-floating tree. *)
Lemma floats_emitted_after_flow (f : Engine.Frame) (i j : nat)
    (ci cj : string * Clay_RenderCommand) :
  Engine.emit_owned f !! i = Some ci -> Engine.emit_owned f !! j = Some cj ->
  (i < List.length (Engine.emit_tree (Engine.flow f)))%nat ->
  (List.length (Engine.emit_tree (Engine.flow f)) <= j)%nat ->
  ci ∈ Engine.emit_tree (Engine.flow f)
  /\ cj ∈ flat_map (fun zr => Engine.emit_tree (snd zr))
            (Engine.sort_by_z (Engine.floats f))
  /\ (i < j)%nat.
Proof.
  unfold Engine.emit_owned. intros Hi Hj Li Lj.
  rewrite lookup_app_l in Hi by exact Li.
  rewrite lookup_app_r in Hj by exact Lj.
  split; [eapply list_elem_of_lookup_2; exact Hi | ].
  split; [eapply list_elem_of_lookup_2; exact Hj | lia].
Qed.

End PaintOrder.

(** ** Frames under the engine of the specification *)

Section FrameBasics.

Lemma of_int_BAR_HEIGHT : F32.of_int BAR_HEIGHT = 26%Q.
Proof. vm_compute. reflexivity. Qed.

Lemma bar_inner_height : F32.sub (F32.of_int BAR_HEIGHT) 12%Q = 14%Q.
Proof. vm_compute. reflexivity. Qed.

Lemma clamp0_spec (q : Q) :
  (0 <= q /\ Engine.clamp0 q == q)%Q \/ (q < 0 /\ Engine.clamp0 q == 0)%Q.
Proof.
  unfold Engine.clamp0. destruct (Q.max_spec 0 q) as [[H E] | [H E]].
  - left. split; [lra | exact E].
  - destruct (Qlt_le_dec q 0) as [L | G].
    + right. split; [exact L | exact E].
    + left. split; [exact G | rewrite E; lra].
Qed.

Lemma clamp0_nonneg (q : Q) : (0 <= q)%Q -> (Engine.clamp0 q == q)%Q.
Proof. intros H. destruct (clamp0_spec q) as [[_ E] | [L _]]; [exact E | lra]. Qed.

(** With the engine of the specification a frame stores the resolved
    boxes and paints the emitted commands. *)
Lemma render_spec_engine (st : Bar) :
  render_clay_with_cairo spec_engine st
  = ({| screen_w := screen_w st; dropdown_open := dropdown_open st;
        timebuf := timebuf st; statusbuf := statusbuf st; clay := bar_boxes st |},
     [ Paint (bar_commands st) ]).
Proof. reflexivity. Qed.

Lemma measure_empty_text (cfg : Clay_TextElementConfig) :
  fontSize cfg = 12%N -> letterSpacing cfg = 0%N ->
  Engine.measure_text measure_text_fn "" cfg = {| dim_width := 0%Q; dim_height := 12%Q |}.
Proof.
  destruct cfg as [tc fs ls]. cbn. intros -> ->. vm_compute. reflexivity.
Qed.

End FrameBasics.

(** Symbolic evaluation of a frame: the structure is computed, the
    arithmetic on the screen width and on the measured texts is kept. *)
Ltac frame_eval :=
  lazy -[Qplus Qminus Qmult Qdiv Qopp Qmax Qeq Qle Qlt F32.of_int
         Engine.measure_text measure_text_fn CLAY_STRING Engine.clamp0].

Ltac unfold_bar :=
  unfold bar_commands, bar_boxes, bar_tree, bar_frame, bar_layout;
  cbn [screen_w dropdown_open timebuf statusbuf];
  unfold dropdown_element, dropdown_decl, root_decl, left_decl, center_decl,
    menu_toggle_decl, time_text_decl, item_decl, fixed_layout;
  rewrite ?bar_inner_height, ?of_int_BAR_HEIGHT.

(** Case analysis on every clamp of the goal, innermost first. *)
Ltac clamp_elim :=
  repeat match goal with
  | |- context [Engine.clamp0 ?t] =>
      lazymatch t with
      | context [Engine.clamp0 _] => fail
      | _ => idtac
      end;
      let c := fresh "c" in
      let H := fresh "Hc" in
      pose proof (clamp0_spec t) as H;
      set (c := Engine.clamp0 t) in *; clearbody c;
      destruct H as [[? ?] | [? ?]]
  end.

Ltac absurd_elem H :=
  repeat (apply elem_of_cons in H; destruct H as [H | H]; [discriminate H | ]);
  inversion H.

Ltac find_elem :=
  repeat first [apply list_elem_of_here | apply list_elem_of_further].

Section Frames.

(** Who emits what, for every state. *)
Lemma emit_owned_skeleton (st : Bar) :
  owners_data (Engine.emit_owned (bar_frame st))
  = closed_skeleton (timebuf st) (statusbuf st)
    ++ (if truthy (dropdown_open st) then dropdown_skeleton else []).
Proof.
  destruct st as [W d tb sb c]. unfold_bar.
  destruct (truthy d); frame_eval; reflexivity.
Qed.

Lemma bar_commands_data (st : Bar) :
  map renderData (bar_commands st)
  = map snd (owners_data (Engine.emit_owned (bar_frame st))).
Proof.
  unfold bar_commands, Engine.emit, owners_data. rewrite !map_map. reflexivity.
Qed.

Lemma text_contents_data (cmds : list Clay_RenderCommand) :
  text_contents cmds
  = omap (fun d => match d with
                   | CLAY_RENDER_COMMAND_TYPE_TEXT s _ _ => Some s
                   | _ => None
                   end) (map renderData cmds).
Proof.
  unfold text_contents. induction cmds as [ | c cmds IH]; [reflexivity | ].
  cbn. destruct (renderData c); cbn; rewrite <- ?IH; reflexivity.
Qed.

Lemma bar_text_contents (st : Bar) :
  text_contents (bar_commands st)
  = [ "Menu"; CLAY_STRING (timebuf st); CLAY_STRING (statusbuf st) ]
    ++ (if truthy (dropdown_open st)
        then [ "Open xterm"; "Show files (xdg-open .)" ] else []).
Proof.
  rewrite text_contents_data, bar_commands_data, emit_owned_skeleton.
  destruct (truthy (dropdown_open st)); reflexivity.
Qed.

Lemma bar_element_ids (st : Bar) :
  element_ids (bar_tree st)
  = [ "root"; "left"; "menu_toggle"; "time_text"; "center" ]
    ++ (if truthy (dropdown_open st) then [ "dropdown"; "item1"; "item2" ] else []).
Proof.
  unfold bar_tree, bar_layout. destruct (truthy (dropdown_open st)); reflexivity.
Qed.

Lemma bar_floating_ids (st : Bar) :
  floating_ids (bar_tree st)
  = if truthy (dropdown_open st) then [ "dropdown"; "item1"; "item2" ] else [].
Proof.
  unfold bar_tree, bar_layout. destruct (truthy (dropdown_open st)); reflexivity.
Qed.

(** The floating dropdown leaves the resolved non-floating tree as it
    is without it. *)
Lemma flow_ignores_dropdown (st : Bar) :
  Engine.flow (bar_frame st) = Engine.flow (bar_frame (set_dropdown_open 0 st)).
Proof.
  destruct st as [W d tb sb c]. unfold set_dropdown_open. unfold_bar.
  destruct (truthy d); [frame_eval | ]; reflexivity.
Qed.

Lemma flow_boxes_ignore_dropdown (st : Bar) (name : string) :
  name ∈ [ "root"; "left"; "menu_toggle"; "time_text"; "center" ] ->
  bar_boxes st !! name = bar_boxes (set_dropdown_open 0 st) !! name.
Proof.
  intros Hin. destruct st as [W d tb sb c]. unfold set_dropdown_open. unfold_bar.
  destruct (truthy d); [ | reflexivity].
  repeat (apply elem_of_cons in Hin; destruct Hin as [-> | Hin];
          [frame_eval; reflexivity | ]).
  inversion Hin.
Qed.

Lemma root_box_resolved (st : Bar) :
  exists b, bar_boxes st !! "root" = Some b
    /\ bb_x b = 0%Q /\ bb_y b = 0%Q
    /\ (bb_width b == Engine.clamp0 (F32.of_int (screen_w st)))%Q
    /\ (bb_height b == 26)%Q.
Proof.
  destruct st as [W d tb sb c]. unfold_bar.
  destruct (truthy d); (eexists; split; [frame_eval; reflexivity | ]);
    cbn [bb_x bb_y bb_width bb_height];
    (split; [reflexivity | split; [reflexivity | split; [reflexivity | ]]]);
    clamp_elim; lra.
Qed.

Lemma center_box_resolved (st : Bar) :
  exists b, bar_boxes st !! "center" = Some b
    /\ (bb_x b == 250)%Q /\ (bb_y b == 0)%Q
    /\ (bb_width b
        == Engine.clamp0 (Engine.clamp0 (F32.of_int (screen_w st)) - 250))%Q
    /\ (bb_height b == 26)%Q.
Proof.
  destruct st as [W d tb sb c]. unfold_bar.
  destruct (truthy d); (eexists; split; [frame_eval; reflexivity | ]);
    cbn [bb_x bb_y bb_width bb_height];
    (split; [ | split; [ | split]]); clamp_elim; lra.
Qed.

(** The center container takes what the 250 pixel left cluster leaves
    of the bar, for every width a screen can have. *)
Lemma center_takes_remaining_width (st : Bar) :
  250 <= screen_w st <= 2 ^ 24 ->
  exists b, bar_boxes st !! "center" = Some b
    /\ (bb_width b == inject_Z (screen_w st) - 250)%Q.
Proof.
  intros [Hlo Hhi].
  destruct (center_box_resolved st) as (b & Hb & _ & _ & Wb & _).
  exists b. split; [exact Hb | ]. rewrite Wb.
  assert (E : (F32.of_int (screen_w st) == inject_Z (screen_w st))%Q)
    by (apply of_int_exact; lia).
  assert (G : (250 <= inject_Z (screen_w st))%Q)
    by (change 250%Q with (inject_Z 250); rewrite <- Zle_Qle; exact Hlo).
  set (w := F32.of_int (screen_w st)) in *. clearbody w.
  clamp_elim; lra.
Qed.

Lemma dropdown_box_resolved (st : Bar) :
  truthy (dropdown_open st) = true ->
  exists b, bar_boxes st !! "dropdown" = Some b
    /\ (bb_x b == 6)%Q /\ (bb_y b == 26)%Q
    /\ (bb_width b == 180)%Q /\ (bb_height b == 120)%Q.
Proof.
  destruct st as [W d tb sb c]. cbn [dropdown_open]. intros Hd. unfold_bar.
  rewrite Hd. eexists. split; [frame_eval; reflexivity | ].
  cbn [bb_x bb_y bb_width bb_height].
  (split; [ | split; [ | split]]); clamp_elim; lra.
Qed.

Lemma root_command (st : Bar) :
  exists box rest,
    bar_commands st
    = {| boundingBox := box;
         renderData := CLAY_RENDER_COMMAND_TYPE_RECTANGLE (color 18 18 18 255) |}
      :: rest
    /\ (bb_width box == Engine.clamp0 (F32.of_int (screen_w st)))%Q.
Proof.
  destruct st as [W d tb sb c]. unfold_bar.
  destruct (truthy d); (eexists _, _; split; [frame_eval; reflexivity | ]);
    cbn [bb_width]; reflexivity.
Qed.

Lemma open_owners_order (i j : nat) (a b : string) :
  open_owners !! i = Some a -> open_owners !! j = Some b ->
  a ∈ [ "dropdown"; "item1"; "item2" ] -> b ∉ [ "dropdown"; "item1"; "item2" ] ->
  (j < i)%nat.
Proof.
  intros Hi Hj Ha Hb.
  assert (Hi7 : (7 <= i)%nat).
  { do 7 (destruct i as [ | i];
          [cbn in Hi; injection Hi as <-; exfalso; absurd_elem Ha | ]). lia. }
  assert (Hj7 : (j < 7)%nat).
  { do 7 (destruct j as [ | j]; [lia | ]).
    do 4 (destruct j as [ | j];
          [cbn in Hj; injection Hj as <-; exfalso; apply Hb; find_elem | ]).
    discriminate Hj. }
  lia.
Qed.

Lemma open_owners_emitted (st : Bar) :
  truthy (dropdown_open st) = true ->
  fst <$> Engine.emit_owned (bar_frame st) = open_owners.
Proof.
  intros Hopen. pose proof (emit_owned_skeleton st) as Hs. rewrite Hopen in Hs.
  apply (f_equal (fmap fst)) in Hs. unfold owners_data in Hs.
  change (map ?f ?l) with (f <$> l) in Hs. rewrite <- list_fmap_compose in Hs.
  exact Hs.
Qed.

End Frames.

(** ** The boxes of the frames *)

Section ResolvedBoxes.

(** Every box of a frame is the one the table gives. *)
Lemma bar_box_list_resolved (st : Bar) :
  Forall2 resolved_as (bar_box_list st) (resolved_boxes st).
Proof.
  destruct st as [W d tb sb c]. unfold bar_box_list, resolved_boxes. unfold_bar.
  destruct (truthy d); frame_eval;
    change (Qmax 0 ?q) with (Engine.clamp0 q);
    repeat (apply Forall2_cons; split;
            [split; [reflexivity | ];
             (split; [ | split; [ | split]]); clamp_elim; lra | ]);
    apply Forall2_nil; exact I.
Qed.

Lemma bar_boxes_resolved (st : Bar) (id_str : string) (b : Clay_BoundingBox) :
  bar_boxes st !! id_str = Some b ->
  exists x y w h,
    (id_str, (x, y, w, h)) ∈ resolved_boxes st /\ box_is b x y w h.
Proof.
  intros H. change (bar_boxes st) with (list_to_map (M := Clay_Context) (bar_box_list st)) in H.
  apply elem_of_list_to_map_2, list_elem_of_lookup in H as [i Hi].
  destruct (Forall2_lookup_l _ _ _ _ _ (bar_box_list_resolved st) Hi)
    as ([name [[[x y] w] h]] & Hspec & Hname & Hbox).
  cbn in Hname, Hbox. subst name. exists x, y, w, h.
  split; [ | exact Hbox]. apply list_elem_of_lookup. exists i. exact Hspec.
Qed.

(** The width of the root and of the center container on a screen of at
    most 2^24 pixels (an X11 screen has at most 65535). *)
Lemma clamp0_inject_Z (q : Q) (z : Z) :
  (q == inject_Z z)%Q -> (Engine.clamp0 q == inject_Z (Z.max 0 z))%Q.
Proof.
  intros E. destruct (Z.le_gt_cases 0 z) as [Hpos | Hneg].
  - rewrite Z.max_r by lia.
    assert (P : (0 <= inject_Z z)%Q)
      by (change 0%Q with (inject_Z 0); rewrite <- Zle_Qle; exact Hpos).
    destruct (clamp0_spec q) as [[Hq Ec] | [Hq Ec]]; rewrite Ec; lra.
  - rewrite Z.max_l by lia. change (inject_Z 0) with 0%Q.
    assert (L : (inject_Z z < 0)%Q)
      by (change 0%Q with (inject_Z 0); rewrite <- Zlt_Qlt; lia).
    destruct (clamp0_spec q) as [[Hq Ec] | [Hq Ec]]; rewrite Ec; lra.
Qed.

Lemma root_width_integer (sw : Z) :
  sw <= 2 ^ 24 ->
  (Engine.clamp0 (F32.of_int sw) == inject_Z (Z.max 0 sw))%Q.
Proof.
  intros Hsw. destruct (Z.le_gt_cases (- 2 ^ 24) sw) as [Hin | Hout].
  - apply clamp0_inject_Z, of_int_exact. lia.
  - rewrite Z.max_l by lia. change (inject_Z 0) with 0%Q.
    pose proof (of_int_mono sw 0 ltac:(lia)) as Hm.
    assert (E0 : F32.of_int 0 = 0%Q) by (vm_compute; reflexivity).
    rewrite E0 in Hm.
    destruct (clamp0_spec (F32.of_int sw)) as [[Hp E] | [Hp E]]; rewrite E; lra.
Qed.

Lemma center_width_integer (sw : Z) :
  sw <= 2 ^ 24 ->
  (Engine.clamp0 (Engine.clamp0 (F32.of_int sw) - 250)
   == inject_Z (Z.max 0 (Z.max 0 sw - 250)))%Q.
Proof.
  intros Hsw. apply clamp0_inject_Z.
  rewrite (root_width_integer sw Hsw). unfold Z.sub.
  rewrite inject_Z_plus, inject_Z_opp. change (inject_Z 250) with 250%Q. lra.
Qed.

(** The boxes of a frame have integer pixel coordinates, with every
    edge in the range in which the float sums of the hit test are
    exact.  Only the root and the center container depend on the
    screen width. *)
Lemma bar_boxes_integer (st : Bar) (id_str : string) (b : Clay_BoundingBox) :
  bar_boxes st !! id_str = Some b ->
  (id_str ∈ [ "root"; "center" ] -> screen_w st <= 2 ^ 24) ->
  exists x y w h : Z,
    box_is b (inject_Z x) (inject_Z y) (inject_Z w) (inject_Z h)
    /\ Z.abs x <= 2 ^ 24 /\ Z.abs y <= 2 ^ 24
    /\ Z.abs (x + w) <= 2 ^ 24 /\ Z.abs (y + h) <= 2 ^ 24.
Proof.
  intros Hb Hsw.
  destruct (bar_boxes_resolved st id_str b Hb) as (x & y & w & h & Hin & Hbox).
  assert (Fixed : forall x' y' w' h' : Z,
             (x, y, w, h) = (inject_Z x', inject_Z y', inject_Z w', inject_Z h') ->
             0 <= x' <= 1000 -> 0 <= y' <= 1000 ->
             0 <= w' <= 1000 -> 0 <= h' <= 1000 ->
             exists x y w h : Z,
               box_is b (inject_Z x) (inject_Z y) (inject_Z w) (inject_Z h)
               /\ Z.abs x <= 2 ^ 24 /\ Z.abs y <= 2 ^ 24
               /\ Z.abs (x + w) <= 2 ^ 24 /\ Z.abs (y + h) <= 2 ^ 24).
  { intros x' y' w' h' E Hx Hy Hw Hh. injection E as -> -> -> ->.
    exists x', y', w', h'. split; [exact Hbox | lia]. }
  unfold resolved_boxes in Hin. cbn zeta in Hin.
  apply elem_of_app in Hin as [Hin | Hin].
  - apply elem_of_cons in Hin as [Hin | Hin].
    { injection Hin as -> -> -> -> ->.
      assert (Hs : screen_w st <= 2 ^ 24) by (apply Hsw; find_elem).
      exists 0, 0, (Z.max 0 (screen_w st)), 26. split; [ | lia].
      destruct Hbox as (Ex & Ey & Ew & Eh).
      repeat split; try assumption.
      rewrite Ew. apply root_width_integer. exact Hs. }
    apply elem_of_cons in Hin as [Hin | Hin].
    { injection Hin as _ E1 E2 E3 E4.
      apply (Fixed 0 0 250 26); [subst x y w h; reflexivity | lia ..]. }
    apply elem_of_cons in Hin as [Hin | Hin].
    { injection Hin as _ E1 E2 E3 E4.
      apply (Fixed 6 6 60 14); [subst x y w h; reflexivity | lia ..]. }
    apply elem_of_cons in Hin as [Hin | Hin].
    { injection Hin as _ E1 E2 E3 E4.
      apply (Fixed 72 6 170 14); [subst x y w h; reflexivity | lia ..]. }
    apply elem_of_cons in Hin as [Hin | Hin]; [ | inversion Hin].
    injection Hin as -> -> -> -> ->.
    assert (Hs : screen_w st <= 2 ^ 24) by (apply Hsw; find_elem).
    exists 250, 0, (Z.max 0 (Z.max 0 (screen_w st) - 250)), 26. split; [ | lia].
    destruct Hbox as (Ex & Ey & Ew & Eh).
    repeat split; try assumption.
    rewrite Ew. apply center_width_integer. exact Hs.
  - destruct (truthy (dropdown_open st)); [ | inversion Hin].
    apply elem_of_cons in Hin as [Hin | Hin].
    { injection Hin as _ E1 E2 E3 E4.
      apply (Fixed 6 26 180 120); [subst x y w h; reflexivity | lia ..]. }
    apply elem_of_cons in Hin as [Hin | Hin].
    { injection Hin as _ E1 E2 E3 E4.
      apply (Fixed 12 32 168 28); [subst x y w h; reflexivity | lia ..]. }
    apply elem_of_cons in Hin as [Hin | Hin]; [ | inversion Hin].
    injection Hin as _ E1 E2 E3 E4.
    apply (Fixed 12 66 168 28); [subst x y w h; reflexivity | lia ..].
Qed.

(** The half-open rule in exact arithmetic, as a proposition. *)
Lemma spec_hit_test_iff (b : Clay_BoundingBox) (px py : Z) :
  spec_hit_test b px py = true
  <-> (bb_x b <= inject_Z px /\ inject_Z px < bb_x b + bb_width b
       /\ bb_y b <= inject_Z py /\ inject_Z py < bb_y b + bb_height b)%Q.
Proof.
  unfold spec_hit_test, Qlt_bool.
  rewrite !andb_true_iff, !negb_true_iff, !Qle_bool_iff.
  assert (N : forall p q : Q, Qle_bool p q = false <-> (q < p)%Q).
  { intros p q. rewrite <- not_true_iff_false, Qle_bool_iff. split.
    - apply Qnot_le_lt.
    - apply Qlt_not_le. }
  rewrite !N. tauto.
Qed.

(** On the boxes of a frame the hit test is defined and is the
    half-open rule. *)
Lemma point_in_element_bar_box (st : Bar) (id_str : string) (b : Clay_BoundingBox)
    (px py : Z) :
  bar_boxes st !! id_str = Some b ->
  (id_str ∈ [ "root"; "center" ] -> screen_w st <= 2 ^ 24) ->
  point_in_element (bar_boxes st) id_str px py
  = Some (c_bool (spec_hit_test b px py)).
Proof.
  intros Hb Hsw.
  destruct (bar_boxes_integer st id_str b Hb Hsw)
    as (x & y & w & h & (Ex & Ey & Ew & Eh) & Hx & Hy & Hxw & Hyh).
  destruct (point_in_element_pixel_box (bar_boxes st) id_str b x y w h px py
              Hb Ex Ey Ew Eh Hx Hy Hxw Hyh) as [Hcode Hspec].
  rewrite Hcode, Hspec. reflexivity.
Qed.

(** The three hit tests of a click are defined in every frame. *)
Lemma point_in_element_clickable (st : Bar) (id_str : string) (px py : Z) :
  id_str ∈ [ "menu_toggle"; "item1"; "item2" ] ->
  exists t, point_in_element (bar_boxes st) id_str px py = Some t
            /\ (t = 0 \/ t = 1).
Proof.
  intros Hid. destruct (bar_boxes st !! id_str) as [b | ] eqn:Hb.
  - rewrite (point_in_element_bar_box st id_str b px py Hb).
    + eexists. split; [reflexivity | ].
      destruct (spec_hit_test b px py); [right | left]; reflexivity.
    + intros Hrc. exfalso.
      repeat (apply elem_of_cons in Hid as [-> | Hid]; [absurd_elem Hrc | ]).
      inversion Hid.
  - rewrite (point_in_element_not_found _ _ _ _ Hb). eauto.
Qed.

End ResolvedBoxes.

(** ** Properties of the frames *)

Section FrameProperties.

(** C2. For every element id of a frame, with the box [(x, y, w, h)]
    that the frame resolved for it, and every point [(px, py)], the hit
    test is defined and returns true if and only if [px] is in
    [[x, x+w)] and [py] is in [[y, y+h)]: it is the half-open rule of
    the specification on that box.  The boxes of the root and of the
    center container follow the screen; for them the screen is taken to
    be at most 2^24 pixels wide (an X11 screen is at most 65535 wide).
    The same holds for any box with integer pixel coordinates, in
    particular for the box [(10, 0, 60, 14)]: the points [(10, 0)] and
    [(69, 13)] are hits, the points [(70, 0)] and [(9, 0)] are not. *)
Theorem point_in_element_half_open (st : Bar) (id_str : string)
    (b : Clay_BoundingBox) (px py : Z) :
  bar_boxes st !! id_str = Some b ->
  (id_str ∈ [ "root"; "center" ] -> screen_w st <= 2 ^ 24) ->
  point_in_element (bar_boxes st) id_str px py
  = Some (c_bool (spec_hit_test b px py))
  /\ (point_in_element (bar_boxes st) id_str px py = Some 1
      <-> (bb_x b <= inject_Z px /\ inject_Z px < bb_x b + bb_width b
           /\ bb_y b <= inject_Z py /\ inject_Z py < bb_y b + bb_height b)%Q)
  /\ (forall (ctx : Clay_Context) (id' : string) (x y w h px' py' : Z),
        ctx !! id' = Some (pixel_box x y w h) ->
        Z.abs x <= 2 ^ 24 -> Z.abs y <= 2 ^ 24 ->
        Z.abs (x + w) <= 2 ^ 24 -> Z.abs (y + h) <= 2 ^ 24 ->
        (point_in_element ctx id' px' py' = Some 1
         <-> x <= px' < x + w /\ y <= py' < y + h))
  /\ (forall (ctx : Clay_Context) (id' : string),
        ctx !! id' = Some (pixel_box 10 0 60 14) ->
        point_in_element ctx id' 10 0 = Some 1
        /\ point_in_element ctx id' 69 13 = Some 1
        /\ point_in_element ctx id' 70 0 = Some 0
        /\ point_in_element ctx id' 9 0 = Some 0).
Proof.
  intros Hb Hsw.
  pose proof (point_in_element_bar_box st id_str b px py Hb Hsw) as Hcode.
  split; [exact Hcode | split; [ | split]].
  - rewrite Hcode, <- spec_hit_test_iff.
    destruct (spec_hit_test b px py); cbn; split; congruence.
  - intros ctx id' x y w h px' py' Hc Hx Hy Hxw Hyh.
    apply (point_in_element_integer_box ctx id' x y w h px' py' Hc Hx Hy Hxw Hyh).
  - intros ctx id' Hc.
    assert (H : forall px' py',
               point_in_element ctx id' px' py'
               = Some (c_bool (spec_hit_test (pixel_box 10 0 60 14) px' py'))).
    { intros px' py'.
      apply (point_in_element_integer_box ctx id' 10 0 60 14 px' py' Hc);
        vm_compute; discriminate. }
    rewrite !H. repeat split; reflexivity.
Qed.

Lemma point_in_element_half_open_witness :
  let ctx : Clay_Context := {[ "menu_toggle" := pixel_box 10 0 60 14 ]} in
  (point_in_element (bar_boxes bar_open) "item1" 12 32 = Some 1
   /\ point_in_element (bar_boxes bar_open) "item1" 179 59 = Some 1
   /\ point_in_element (bar_boxes bar_open) "item1" 180 32 = Some 0
   /\ point_in_element (bar_boxes bar_open) "item1" 11 32 = Some 0)
  /\ (point_in_element (bar_boxes bar_open) "root" 1919 25 = Some 1
      /\ point_in_element (bar_boxes bar_open) "root" 1920 25 = Some 0)
  /\ (point_in_element ctx "menu_toggle" 10 0 = Some 1
      /\ point_in_element ctx "menu_toggle" 69 13 = Some 1
      /\ point_in_element ctx "menu_toggle" 70 0 = Some 0
      /\ point_in_element ctx "menu_toggle" 9 0 = Some 0).
Proof.
  intros ctx.
  assert (Hw : screen_w bar_open <= 2 ^ 24) by (vm_compute; discriminate).
  destruct (bar_boxes bar_open !! "item1") as [b1 | ] eqn:H1;
    [ | vm_compute in H1; discriminate H1].
  destruct (bar_boxes bar_open !! "root") as [b0 | ] eqn:H0;
    [ | vm_compute in H0; discriminate H0].
  pose proof (fun px py =>
                point_in_element_half_open bar_open "item1" b1 px py H1
                  (fun _ => Hw)) as R1.
  pose proof (fun px py =>
                point_in_element_half_open bar_open "root" b0 px py H0
                  (fun _ => Hw)) as R0.
  vm_compute in H1. injection H1 as <-.
  vm_compute in H0. injection H0 as <-.
  split; [ | split].
  - rewrite (proj1 (R1 12 32)), (proj1 (R1 179 59)), (proj1 (R1 180 32)),
      (proj1 (R1 11 32)).
    repeat split; vm_compute; reflexivity.
  - rewrite (proj1 (R0 1919 25)), (proj1 (R0 1920 25)).
    split; vm_compute; reflexivity.
  - destruct (R1 0 0) as (_ & _ & _ & Hex).
    apply (Hex ctx "menu_toggle"). reflexivity.
Defined.

(** The frame a click paints when it closes the dropdown. *)
Lemma closing_click (st st' : Bar) (mx my : Z) (fx : list Effect) :
  on_button_press spec_engine st mx my = Some (st', fx) ->
  truthy (dropdown_open st) = true -> truthy (dropdown_open st') = false ->
  st' = fst (render_clay_with_cairo spec_engine (set_dropdown_open 0 st))
  /\ exists pre, fx = pre ++ [ Paint (bar_commands st') ].
Proof.
  intros H Hopen Hclosed.
  assert (Hc : c_not (dropdown_open st) = 0).
  { unfold c_not. unfold truthy in Hopen.
    destruct (dropdown_open st =? 0); [discriminate Hopen | reflexivity]. }
  unfold on_button_press in H. rewrite Hopen, Hc in H.
  rewrite render_spec_engine in H.
  assert (R : forall pre,
             Some ({| screen_w := screen_w (set_dropdown_open 0 st);
                      dropdown_open := dropdown_open (set_dropdown_open 0 st);
                      timebuf := timebuf (set_dropdown_open 0 st);
                      statusbuf := statusbuf (set_dropdown_open 0 st);
                      clay := bar_boxes (set_dropdown_open 0 st) |},
                   pre ++ [ Paint (bar_commands (set_dropdown_open 0 st)) ])
             = Some (st', fx) ->
             st' = fst (render_clay_with_cairo spec_engine (set_dropdown_open 0 st))
             /\ exists pre, fx = pre ++ [ Paint (bar_commands st') ]).
  { intros pre [= <- <-]. rewrite render_spec_engine.
    split; [reflexivity | exists pre; reflexivity]. }
  destruct (point_in_element (clay st) "menu_toggle" mx my) as [t | ];
    [cbn [mbind option_bind] in H | discriminate H].
  destruct (truthy t); [exact (R [] H) | ].
  destruct (point_in_element (clay st) "item1" mx my) as [h1 | ];
    [cbn [mbind option_bind] in H | discriminate H].
  destruct (truthy h1); [exact (R [ Spawn [ "xterm" ] ] H) | ].
  destruct (point_in_element (clay st) "item2" mx my) as [h2 | ];
    [cbn [mbind option_bind] in H | discriminate H].
  destruct (truthy h2); [exact (R [ Spawn [ "xdg-open"; "." ] ] H) | exact (R [] H)].
Qed.

Lemma bar_dropdown_commands (st : Bar) :
  dropdown_commands st
  = if truthy (dropdown_open st) then dropdown_skeleton else [].
Proof.
  unfold dropdown_commands. rewrite emit_owned_skeleton.
  destruct (truthy (dropdown_open st)); reflexivity.
Qed.

Lemma bar_item_texts (st : Bar) :
  item_texts st = if truthy (dropdown_open st) then item_labels else [].
Proof.
  unfold item_texts. rewrite emit_owned_skeleton.
  destruct (truthy (dropdown_open st)); reflexivity.
Qed.

(** C3. The built tree contains the floating dropdown subtree (ids
    dropdown, item1, item2) if and only if [dropdown_open] is true.
    Consequently the commands of a frame contain the text commands of
    the two items, with the contents "Open xterm" and "Show files
    (xdg-open .)", exactly when [dropdown_open] is true for that frame:
    the text commands of a frame are "Menu", the clock text and the
    status text, followed by the two item texts when the dropdown is
    open and by nothing when it is closed.  The frame that a click
    paints when it closes the dropdown has no command of the dropdown
    subtree: its text commands are "Menu", the clock text and the
    status text. *)
Theorem dropdown_texts_when_open (st : Bar) :
  (forall name, name ∈ dropdown_ids ->
     (name ∈ element_ids (bar_tree st) <-> truthy (dropdown_open st) = true))
  /\ (forall label, label ∈ item_labels ->
        (label ∈ item_texts st <-> truthy (dropdown_open st) = true))
  /\ (truthy (dropdown_open st) = true ->
        item_texts st = [ "Open xterm"; "Show files (xdg-open .)" ]
        /\ text_contents (bar_commands st)
           = [ "Menu"; CLAY_STRING (timebuf st); CLAY_STRING (statusbuf st);
               "Open xterm"; "Show files (xdg-open .)" ])
  /\ (truthy (dropdown_open st) = false ->
        item_texts st = [] /\ dropdown_commands st = []
        /\ text_contents (bar_commands st)
           = [ "Menu"; CLAY_STRING (timebuf st); CLAY_STRING (statusbuf st) ])
  /\ (CLAY_STRING (timebuf st) ∉ item_labels ->
        (("Open xterm" ∈ text_contents (bar_commands st)
          /\ "Show files (xdg-open .)" ∈ text_contents (bar_commands st))
         <-> truthy (dropdown_open st) = true))
  /\ (forall (mx my : Z) (st' : Bar) (fx : list Effect),
        truthy (dropdown_open st) = true ->
        on_button_press spec_engine st mx my = Some (st', fx) ->
        truthy (dropdown_open st') = false ->
        (exists pre, fx = pre ++ [ Paint (bar_commands st') ])
        /\ item_texts st' = [] /\ dropdown_commands st' = []
        /\ text_contents (bar_commands st')
           = [ "Menu"; CLAY_STRING (timebuf st); CLAY_STRING (statusbuf st) ]).
Proof.
  assert (Closed : forall s, truthy (dropdown_open s) = false ->
            item_texts s = [] /\ dropdown_commands s = []
            /\ text_contents (bar_commands s)
               = [ "Menu"; CLAY_STRING (timebuf s); CLAY_STRING (statusbuf s) ]).
  { intros s Hs.
    rewrite bar_item_texts, bar_dropdown_commands, bar_text_contents, Hs.
    repeat split; reflexivity. }
  split; [ | split; [ | split; [ | split; [ | split]]]].
  - rewrite bar_element_ids. intros name Hname.
    destruct (truthy (dropdown_open st)).
    + split; [reflexivity | intros _]. rewrite elem_of_app. right. exact Hname.
    + split; [ | discriminate]. intros Hin. exfalso.
      rewrite app_nil_r in Hin. unfold dropdown_ids in Hname.
      repeat (apply elem_of_cons in Hname; destruct Hname as [-> | Hname];
              [absurd_elem Hin | ]).
      inversion Hname.
  - rewrite bar_item_texts. intros label Hlabel.
    destruct (truthy (dropdown_open st)).
    + split; [reflexivity | intros _; exact Hlabel].
    + split; [intros Hin; inversion Hin | discriminate].
  - intros Hopen. rewrite bar_item_texts, bar_text_contents, Hopen.
    split; reflexivity.
  - apply Closed.
  - rewrite bar_text_contents. intros Hclock.
    destruct (truthy (dropdown_open st)).
    + split; [reflexivity | intros _].
      split; rewrite elem_of_app; right; find_elem.
    + split; [ | discriminate]. intros [H1 H2]. exfalso.
      rewrite app_nil_r in H1, H2.
      apply elem_of_cons in H1 as [H1 | H1]; [discriminate H1 | ].
      apply elem_of_cons in H2 as [H2 | H2]; [discriminate H2 | ].
      apply elem_of_cons in H1 as [H1 | H1];
        [apply Hclock; rewrite <- H1; find_elem | ].
      apply elem_of_cons in H2 as [H2 | H2];
        [apply Hclock; rewrite <- H2; find_elem | ].
      apply list_elem_of_singleton in H1. apply list_elem_of_singleton in H2.
      rewrite <- H1 in H2. discriminate H2.
  - intros mx my st' fx Hopen Hpress Hclosed.
    destruct (closing_click st st' mx my fx Hpress Hopen Hclosed) as [Est Hfx].
    split; [exact Hfx | ].
    destruct (Closed st' Hclosed) as (Hi & Hd & Ht).
    split; [exact Hi | split; [exact Hd | ]].
    rewrite Ht, Est, render_spec_engine. reflexivity.
Qed.

Lemma dropdown_texts_when_open_witness :
  ("Open xterm" ∈ item_texts bar_open <-> truthy (dropdown_open bar_open) = true)
  /\ ("Open xterm" ∈ item_texts bar_closed
      <-> truthy (dropdown_open bar_closed) = true)
  /\ ("item1" ∈ element_ids (bar_tree bar_open)
      <-> truthy (dropdown_open bar_open) = true)
  /\ text_contents (bar_commands bar_open)
     = [ "Menu"; ""; ""; "Open xterm"; "Show files (xdg-open .)" ]
  /\ text_contents (bar_commands bar_closed) = [ "Menu"; ""; "" ]
  /\ (exists st' cmds,
        on_button_press spec_engine bar_open 500 10 = Some (st', [ Paint cmds ])
        /\ text_contents cmds = [ "Menu"; ""; "" ]).
Proof.
  split; [ | split; [ | split; [ | split; [ | split]]]].
  - destruct (dropdown_texts_when_open bar_open) as (_ & H & _).
    apply H. apply list_elem_of_here.
  - destruct (dropdown_texts_when_open bar_closed) as (_ & H & _).
    apply H. apply list_elem_of_here.
  - destruct (dropdown_texts_when_open bar_open) as (H & _).
    apply H. apply list_elem_of_further, list_elem_of_here.
  - destruct (dropdown_texts_when_open bar_open) as (_ & _ & H & _).
    apply H. reflexivity.
  - destruct (dropdown_texts_when_open bar_closed) as (_ & _ & _ & H & _).
    apply H. reflexivity.
  - destruct (on_button_press spec_engine bar_open 500 10) as [[st' fx] | ] eqn:E;
      [ | vm_compute in E; discriminate E].
    assert (Hc : truthy (dropdown_open st') = false).
    { transitivity (match on_button_press spec_engine bar_open 500 10 with
                    | Some p => truthy (dropdown_open (fst p))
                    | None => true
                    end); [rewrite E; reflexivity | vm_compute; reflexivity]. }
    assert (Hl : List.length fx = 1%nat).
    { transitivity (match on_button_press spec_engine bar_open 500 10 with
                    | Some p => List.length (snd p)
                    | None => 0%nat
                    end); [rewrite E; reflexivity | vm_compute; reflexivity]. }
    destruct (dropdown_texts_when_open bar_open) as (_ & _ & _ & _ & _ & H).
    destruct (H 500 10 st' fx eq_refl E Hc) as ([pre Hfx] & _ & _ & Ht).
    exists st', (bar_commands st'). split; [ | exact Ht].
    f_equal. f_equal. rewrite Hfx in Hl |- *.
    destruct pre as [ | e pre]; [reflexivity | ].
    rewrite length_app in Hl. cbn in Hl. lia.
Defined.

(** C4. In every frame with the dropdown open, every command that
    belongs to the floating dropdown subtree comes after every command
    that belongs to the non-floating tree: the sequence is the
    pre-order commands of the non-floating tree followed by those of
    the floating subtree (dropdown rectangle and border, then the two
    item texts), a container's rectangle and border coming before the
    commands of its children. *)
Theorem floating_commands_painted_last (st : Bar) :
  truthy (dropdown_open st) = true ->
  let owned := Engine.emit_owned (bar_frame st) in
  let fl := floating_ids (bar_tree st) in
  bar_commands st = snd <$> owned
  /\ owners_data owned
     = closed_skeleton (timebuf st) (statusbuf st) ++ dropdown_skeleton
  /\ (exists flow_part float_part,
        owned = flow_part ++ float_part
        /\ Forall (fun oc => fst oc ∉ fl) flow_part
        /\ Forall (fun oc => fst oc ∈ fl) float_part
        /\ fst <$> float_part = [ "dropdown"; "dropdown"; "item1"; "item2" ])
  /\ (forall i j oi oj,
        owned !! i = Some oi -> owned !! j = Some oj ->
        fst oi ∈ fl -> fst oj ∉ fl -> (j < i)%nat).
Proof.
  intros Hopen owned fl.
  assert (Hfl : fl = [ "dropdown"; "item1"; "item2" ]).
  { unfold fl. rewrite bar_floating_ids, Hopen. reflexivity. }
  pose proof (open_owners_emitted st Hopen) as Hown. fold owned in Hown.
  rewrite Hfl.
  split; [reflexivity | split; [ | split]].
  - unfold owned. rewrite emit_owned_skeleton, Hopen. reflexivity.
  - exists (take 7 owned), (drop 7 owned).
    split; [symmetry; apply take_drop | ].
    split; [ | split].
    + apply (Forall_fmap fst (fun o => o ∉ [ "dropdown"; "item1"; "item2" ])).
      rewrite fmap_take, Hown. repeat constructor; intros Hin; absurd_elem Hin.
    + apply (Forall_fmap fst (fun o => o ∈ [ "dropdown"; "item1"; "item2" ])).
      rewrite fmap_drop, Hown. repeat constructor; find_elem.
    + rewrite fmap_drop, Hown. reflexivity.
  - intros i j oi oj Hi Hj Hin Hnot.
    apply (open_owners_order i j (fst oi) (fst oj)); try assumption.
    + rewrite <- Hown, list_lookup_fmap, Hi. reflexivity.
    + rewrite <- Hown, list_lookup_fmap, Hj. reflexivity.
Qed.

Lemma floating_commands_painted_last_witness :
  exists oi oj,
    Engine.emit_owned (bar_frame bar_open) !! 7%nat = Some oi
    /\ Engine.emit_owned (bar_frame bar_open) !! 6%nat = Some oj
    /\ fst oi = "dropdown" /\ fst oj = "center"
    /\ (6 < 7)%nat.
Proof.
  destruct (floating_commands_painted_last bar_open) as (_ & _ & _ & H);
    [reflexivity | ].
  eexists _, _.
  split; [vm_compute; reflexivity | ].
  split; [vm_compute; reflexivity | ].
  split; [reflexivity | split; [reflexivity | ]].
  eapply (H 7%nat 6%nat).
  - vm_compute. reflexivity.
  - vm_compute. reflexivity.
  - cbn [fst]. rewrite bar_floating_ids. cbn. find_elem.
  - cbn [fst]. rewrite bar_floating_ids. cbn. intros Hin. absurd_elem Hin.
Defined.

(** C5. When the width changes from 1920 to 1280, the handler stores
    1280 and draws a frame in which the root container is 1280 wide
    (so is its rectangle command, the first of the frame) and the
    center container, the percent-sized sibling of the 250 pixel left
    cluster, is [1280 - 250] wide. *)
Theorem resize_1920_to_1280 (st : Bar) :
  screen_w st = 1920 ->
  let r := on_configure spec_engine st 1280 in
  screen_w (fst r) = 1280
  /\ (exists root center,
        clay (fst r) !! "root" = Some root
        /\ clay (fst r) !! "center" = Some center
        /\ (bb_width root == 1280)%Q
        /\ (bb_width center == 1280 - 250)%Q)
  /\ (exists box rest,
        snd r = [ SurfaceSetSize 1280 BAR_HEIGHT;
                  Paint ({| boundingBox := box;
                            renderData := CLAY_RENDER_COMMAND_TYPE_RECTANGLE
                                            (color 18 18 18 255) |} :: rest) ]
        /\ (bb_width box == 1280)%Q).
Proof.
  intros Hw r. unfold r, on_configure. rewrite Hw. cbn [Z.eqb Pos.eqb negb].
  rewrite render_spec_engine. cbn [fst snd screen_w clay set_screen_w].
  set (st' := set_screen_w 1280 st).
  assert (Ew : F32.of_int (screen_w st') = 1280%Q) by (vm_compute; reflexivity).
  split; [reflexivity | split].
  - destruct (root_box_resolved st') as (root & Hr & _ & _ & Wr & _).
    destruct (center_box_resolved st') as (center & Hc & _ & _ & Wc & _).
    exists root, center. rewrite Ew in Wr, Wc.
    split; [exact Hr | split; [exact Hc | split]].
    + rewrite Wr. apply clamp0_nonneg. lra.
    + rewrite Wc. clamp_elim; lra.
  - destruct (root_command st') as (box & rest & Hcmds & Wb).
    exists box, rest. rewrite Hcmds. split; [reflexivity | ].
    rewrite Wb, Ew. apply clamp0_nonneg. lra.
Qed.

Lemma resize_1920_to_1280_witness :
  let r := on_configure spec_engine bar_open 1280 in
  screen_w (fst r) = 1280
  /\ exists root center,
       clay (fst r) !! "root" = Some root
       /\ clay (fst r) !! "center" = Some center
       /\ (bb_width root == 1280)%Q
       /\ (bb_width center == 1280 - 250)%Q.
Proof.
  destruct (resize_1920_to_1280 bar_open) as (Hw & Hboxes & _); [reflexivity | ].
  split; [exact Hw | exact Hboxes].
Defined.

(** C6 (amended). When [dropdown_open] is true, the floating dropdown
    container is resolved as a 180 by 120 box, declared with column
    layout, padding 6 and gap 6 and with a z-index above that of every
    other element; its top-left corner is the root's top-left corner
    moved 6 pixels to the right and down by the bar height; and the
    non-floating tree is resolved as it is without the dropdown, so the
    dropdown takes no space in the root's flow. *)
Theorem dropdown_floating_box (st : Bar) :
  truthy (dropdown_open st) = true ->
  (exists root dd,
     bar_boxes st !! "root" = Some root
     /\ bar_boxes st !! "dropdown" = Some dd
     /\ (bb_x dd == bb_x root + 6)%Q
     /\ (bb_y dd == bb_y root + inject_Z BAR_HEIGHT)%Q
     /\ (bb_width dd == 180)%Q
     /\ (bb_height dd == 120)%Q)
  /\ (dropdown_decl ∈ element_decls (bar_tree st)
      /\ layoutDirection (layout dropdown_decl) = CLAY_TOP_TO_BOTTOM
      /\ padding (layout dropdown_decl) = CLAY_PADDING_ALL 6
      /\ childGap (layout dropdown_decl) = 6)
  /\ (forall d, d ∈ element_decls (bar_tree st) -> id d <> "dropdown" ->
                zIndex d < zIndex dropdown_decl)
  /\ Engine.flow (bar_frame st) = Engine.flow (bar_frame (set_dropdown_open 0 st))
  /\ (forall name, name ∈ [ "root"; "left"; "menu_toggle"; "time_text"; "center" ] ->
        bar_boxes st !! name = bar_boxes (set_dropdown_open 0 st) !! name).
Proof.
  intros Hopen.
  split; [ | split; [ | split; [ | split]]].
  - destruct (root_box_resolved st) as (root & Hr & Xr & Yr & _).
    destruct (dropdown_box_resolved st Hopen) as (dd & Hd & Xd & Yd & Wd & Hgt).
    exists root, dd. rewrite Xr, Yr, Xd, Yd.
    repeat (split; [first [assumption | reflexivity] | ]). exact Hgt.
  - split; [ | repeat split].
    unfold bar_tree, bar_layout. rewrite Hopen. cbn. find_elem.
  - intros d Hin Hid. unfold bar_tree, bar_layout in Hin. rewrite Hopen in Hin.
    cbn in Hin.
    repeat (apply elem_of_cons in Hin; destruct Hin as [-> | Hin];
            [first [reflexivity | exfalso; apply Hid; reflexivity] | ]).
    inversion Hin.
  - apply flow_ignores_dropdown.
  - apply flow_boxes_ignore_dropdown.
Qed.

Lemma dropdown_floating_box_witness :
  exists root dd,
    bar_boxes bar_open !! "root" = Some root
    /\ bar_boxes bar_open !! "dropdown" = Some dd
    /\ (bb_x dd == bb_x root + 6)%Q
    /\ (bb_y dd == bb_y root + inject_Z BAR_HEIGHT)%Q
    /\ (bb_width dd == 180)%Q
    /\ (bb_height dd == 120)%Q.
Proof.
  destruct (dropdown_floating_box bar_open) as (H & _); [reflexivity | exact H].
Defined.

(** C6 (as stated) fails on the horizontal position: the declared
    offset is (6, BAR_HEIGHT), so the dropdown's left edge is at 6 while
    the root's is at 0. *)
Lemma dropdown_not_at_root_x :
  vec_x (offset (floating dropdown_decl)) = 6%Q
  /\ exists root dd,
       clay bar_open !! "root" = Some root
       /\ clay bar_open !! "dropdown" = Some dd
       /\ ~ (bb_x dd == bb_x root)%Q.
Proof.
  split; [reflexivity | ].
  eexists _, _. split; [vm_compute; reflexivity | ].
  split; [vm_compute; reflexivity | ]. cbn [bb_x]. intros H. discriminate H.
Qed.

(** C9. When the status text is the empty string, the built tree still
    has the center container with its text leaf of zero-length content,
    and the frame has a text command with empty content, owned by the
    center container, whose box has zero width and is centered in the
    center container horizontally and vertically. *)
Theorem empty_status_text_emitted (st : Bar) :
  c_str (statusbuf st) = [] ->
  CLAY center_decl [ CLAY_TEXT "" (text_config 200 200 200) ] ∈ subelements (bar_tree st)
  /\ exists box center,
       ("center",
        {| boundingBox := box;
           renderData := CLAY_RENDER_COMMAND_TYPE_TEXT "" 12 (color 200 200 200 255) |})
         ∈ Engine.emit_owned (bar_frame st)
       /\ {| boundingBox := box;
             renderData := CLAY_RENDER_COMMAND_TYPE_TEXT "" 12 (color 200 200 200 255) |}
            ∈ bar_commands st
       /\ bar_boxes st !! "center" = Some center
       /\ (bb_width box == 0)%Q
       /\ (bb_x box + (1 # 2) * bb_width box
           == bb_x center + (1 # 2) * bb_width center)%Q
       /\ (bb_y box + (1 # 2) * bb_height box
           == bb_y center + (1 # 2) * bb_height center)%Q.
Proof.
  intros Hempty.
  assert (Es : CLAY_STRING (statusbuf st) = "").
  { unfold CLAY_STRING. rewrite Hempty. reflexivity. }
  split.
  - unfold bar_tree, bar_layout. rewrite Es. cbn. find_elem.
  - destruct st as [W d tb sb c]. cbn [statusbuf] in Es. unfold_bar. rewrite Es.
    destruct (truthy d);
      (eexists _, _;
       split; [frame_eval; do 6 apply list_elem_of_further; apply list_elem_of_here | ];
       split; [frame_eval; do 6 apply list_elem_of_further; apply list_elem_of_here | ];
       split; [frame_eval; reflexivity | ]);
      cbn [bb_x bb_y bb_width bb_height];
      rewrite !measure_empty_text by reflexivity;
      cbn [dim_width dim_height];
      (split; [ | split]); clamp_elim; lra.
Qed.

Lemma empty_status_text_emitted_witness :
  exists box,
    {| boundingBox := box;
       renderData := CLAY_RENDER_COMMAND_TYPE_TEXT "" 12 (color 200 200 200 255) |}
      ∈ bar_commands bar_closed
    /\ (bb_width box == 0)%Q.
Proof.
  destruct (empty_status_text_emitted bar_closed)
    as (_ & box & center & _ & Hin & _ & Hw & _); [reflexivity | ].
  exists box. split; [exact Hin | exact Hw].
Defined.

End FrameProperties.

(** * Further properties of the Clay bar *)

(** ** Casts to [int] *)

Section Truncation.
Open Scope Q_scope.

Lemma Ztrunc_nonneg (q : Q) :
  0 <= q -> inject_Z (Ztrunc q) <= q /\ q < inject_Z (Ztrunc q) + 1.
Proof.
  intros Hq. destruct q as [n d]. unfold Ztrunc. cbn [Qnum Qden].
  assert (Hn : (0 <= n)%Z) by (unfold Qle in Hq; cbn in Hq; lia).
  rewrite quot_floor by exact Hn. split.
  - apply Qfloor_le.
  - pose proof (Qlt_floor (n # d)) as H. rewrite inject_Z_plus in H. exact H.
Qed.

Lemma Ztrunc_opp (q : Q) : Ztrunc (- q) = (- Ztrunc q)%Z.
Proof.
  destruct q as [n d]. unfold Ztrunc. cbn [Qnum Qden Qopp].
  apply Z.quot_opp_l. discriminate.
Qed.

Lemma Ztrunc_nonpos (q : Q) :
  q <= 0 -> inject_Z (Ztrunc q) - 1 < q /\ q <= inject_Z (Ztrunc q).
Proof.
  intros Hq. destruct (Ztrunc_nonneg (- q)) as [H1 H2]; [lra | ].
  rewrite Ztrunc_opp, inject_Z_opp in H1, H2. split; lra.
Qed.

(** Truncation moves a value by less than one, toward zero. *)
Lemma Ztrunc_close (q : Q) :
  inject_Z (Ztrunc q) - 1 < q /\ q < inject_Z (Ztrunc q) + 1.
Proof.
  destruct (Qlt_le_dec q 0) as [L | G].
  - destruct (Ztrunc_nonpos q) as [H1 H2]; [lra | ]. split; lra.
  - destruct (Ztrunc_nonneg q G) as [H1 H2]. split; lra.
Qed.

Lemma Ztrunc_mono (p q : Q) : p <= q -> (Ztrunc p <= Ztrunc q)%Z.
Proof.
  intros Hpq.
  destruct (Qlt_le_dec p 0) as [Lp | Gp]; destruct (Qlt_le_dec q 0) as [Lq | Gq].
  - destruct (Ztrunc_nonpos p) as [P1 P2]; [lra | ].
    destruct (Ztrunc_nonpos q) as [Q1 Q2]; [lra | ].
    assert (H : inject_Z (Ztrunc p) - 1 < inject_Z (Ztrunc q)) by lra.
    assert (H' : inject_Z (Ztrunc p) < inject_Z (Ztrunc q + 1))
      by (rewrite inject_Z_plus; change (inject_Z 1) with 1; lra).
    rewrite <- Zlt_Qlt in H'. lia.
  - destruct (Ztrunc_nonpos p) as [P1 P2]; [lra | ].
    destruct (Ztrunc_nonneg q Gq) as [Q1 Q2].
    assert (H1 : inject_Z (Ztrunc p) < inject_Z 1)
      by (change (inject_Z 1) with 1; lra).
    assert (H2 : inject_Z (-1) < inject_Z (Ztrunc q))
      by (change (inject_Z (-1)) with (-1 # 1); lra).
    rewrite <- Zlt_Qlt in H1, H2. lia.
  - lra.
  - destruct (Ztrunc_nonneg p Gp) as [P1 P2].
    destruct (Ztrunc_nonneg q Gq) as [Q1 Q2].
    assert (H' : inject_Z (Ztrunc p) < inject_Z (Ztrunc q + 1)).
    { rewrite inject_Z_plus. change (inject_Z 1) with 1. lra. }
    rewrite <- Zlt_Qlt in H'. lia.
Qed.

Lemma to_int_Ztrunc (q : Q) (t : Z) : F32.to_int q = Some t -> t = Ztrunc q.
Proof.
  unfold F32.to_int. fold (Ztrunc q).
  destruct ((F32.INT_MIN <=? Ztrunc q) && (Ztrunc q <=? F32.INT_MAX))%bool;
    [intros [= <-]; reflexivity | discriminate].
Qed.

Lemma to_int_castable (q : Q) : int_castable q -> F32.to_int q = Some (Ztrunc q).
Proof.
  intros [Hlo Hhi]. unfold F32.to_int. fold (Ztrunc q).
  assert (H1 : (F32.INT_MIN <= Ztrunc q)%Z).
  { rewrite <- (Qfloor_Z F32.INT_MIN).
    change (Qfloor (inject_Z F32.INT_MIN)) with (Ztrunc (inject_Z F32.INT_MIN)).
    apply Ztrunc_mono. exact Hlo. }
  assert (H2 : (Ztrunc q <= F32.INT_MAX)%Z).
  { destruct (Qlt_le_dec q 0) as [L | G].
    - destruct (Ztrunc_close q) as [C1 _].
      assert (H' : inject_Z (Ztrunc q) < inject_Z 1)
        by (change (inject_Z 1) with 1; lra).
      rewrite <- Zlt_Qlt in H'. unfold F32.INT_MAX. lia.
    - destruct (Ztrunc_nonneg q G) as [P _].
      assert (H' : inject_Z (Ztrunc q) < inject_Z (F32.INT_MAX + 1))
        by (rewrite inject_Z_plus; change (inject_Z 1) with 1; lra).
      rewrite <- Zlt_Qlt in H'. lia. }
  destruct (Z.leb_spec F32.INT_MIN (Ztrunc q)); [ | lia].
  destruct (Z.leb_spec (Ztrunc q) F32.INT_MAX); [ | lia]. reflexivity.
Qed.

End Truncation.

(** ** The hit test on arbitrary boxes *)

Section HitTestGeometry.

Lemma point_in_element_bool (ctx : Clay_Context) (id_str : string) (px py r : Z) :
  point_in_element ctx id_str px py = Some r -> r = 0 \/ r = 1.
Proof.
  destruct (ctx !! id_str) as [b | ] eqn:Hb.
  - rewrite (point_in_element_found ctx id_str b px py Hb).
    destruct (F32.to_int (bb_x b)) as [ix | ]; [cbn | discriminate].
    destruct (negb (px >=? ix)); [intros [= <-]; now left | ].
    destruct (F32.to_int (F32.add (bb_x b) (bb_width b))) as [ixw | ];
      [cbn | discriminate].
    destruct (negb (px <? ixw)); [intros [= <-]; now left | ].
    destruct (F32.to_int (bb_y b)) as [iy | ]; [cbn | discriminate].
    destruct (negb (py >=? iy)); [intros [= <-]; now left | ].
    destruct (F32.to_int (F32.add (bb_y b) (bb_height b))) as [iyh | ];
      [cbn | discriminate].
    intros [= <-]. destruct (py <? iyh); [now right | now left].
  - rewrite (point_in_element_not_found ctx id_str px py Hb).
    intros [= <-]. now left.
Qed.

(** A hit means that the point lies between the truncated edges. *)
Lemma point_in_element_hit_inv (ctx : Clay_Context) (id_str : string)
    (px py r : Z) :
  point_in_element ctx id_str px py = Some r -> r <> 0 ->
  exists b,
    ctx !! id_str = Some b
    /\ Ztrunc (bb_x b) <= px < Ztrunc (F32.add (bb_x b) (bb_width b))
    /\ Ztrunc (bb_y b) <= py < Ztrunc (F32.add (bb_y b) (bb_height b)).
Proof.
  destruct (ctx !! id_str) as [b | ] eqn:Hb.
  - rewrite (point_in_element_found ctx id_str b px py Hb). intros H Hr.
    exists b. split; [reflexivity | ].
    destruct (F32.to_int (bb_x b)) as [ix | ] eqn:Ex; [cbn in H | discriminate].
    apply to_int_Ztrunc in Ex. rewrite Z.geb_leb in H.
    destruct (Z.leb_spec ix px); cbn in H; [ | injection H as <-; contradiction].
    destruct (F32.to_int (F32.add (bb_x b) (bb_width b))) as [ixw | ] eqn:Exw;
      [cbn in H | discriminate].
    apply to_int_Ztrunc in Exw.
    destruct (Z.ltb_spec px ixw); cbn in H; [ | injection H as <-; contradiction].
    destruct (F32.to_int (bb_y b)) as [iy | ] eqn:Ey; [cbn in H | discriminate].
    apply to_int_Ztrunc in Ey. rewrite Z.geb_leb in H.
    destruct (Z.leb_spec iy py); cbn in H; [ | injection H as <-; contradiction].
    destruct (F32.to_int (F32.add (bb_y b) (bb_height b))) as [iyh | ] eqn:Eyh;
      [cbn in H | discriminate].
    apply to_int_Ztrunc in Eyh.
    destruct (Z.ltb_spec py iyh); cbn in H; [ | injection H as <-; contradiction].
    subst. lia.
  - rewrite (point_in_element_not_found ctx id_str px py Hb).
    intros [= <-] Hr. contradiction.
Qed.

(** An integer is at least the truncation of [q] when it is at least
    [q], and below the truncation when its successor is at most [q]. *)
Lemma Ztrunc_le_of_le (q : Q) (p : Z) : (q <= inject_Z p)%Q -> Ztrunc q <= p.
Proof.
  intros H. destruct (Ztrunc_close q) as [C _].
  assert (H' : (inject_Z (Ztrunc q) < inject_Z (p + 1))%Q).
  { rewrite inject_Z_plus. change (inject_Z 1) with 1%Q. lra. }
  rewrite <- Zlt_Qlt in H'. lia.
Qed.

Lemma Ztrunc_gt_of_succ_le (q : Q) (p : Z) :
  (inject_Z p + 1 <= q)%Q -> p < Ztrunc q.
Proof.
  intros H. destruct (Ztrunc_close q) as [_ C].
  assert (H' : (inject_Z p < inject_Z (Ztrunc q))%Q) by lra.
  rewrite <- Zlt_Qlt in H'. exact H'.
Qed.

(** X1. The hit test is defined whenever the four edges it casts lie in
    the range of [int], and then answers 0 or 1; on an identifier that
    is not in the layout nothing is cast and the answer is 0. *)
Theorem point_in_element_defined (ctx : Clay_Context) (id_str : string)
    (px py : Z) :
  (forall b, ctx !! id_str = Some b ->
     int_castable (bb_x b) /\ int_castable (F32.add (bb_x b) (bb_width b))
     /\ int_castable (bb_y b) /\ int_castable (F32.add (bb_y b) (bb_height b))) ->
  exists r, point_in_element ctx id_str px py = Some r /\ (r = 0 \/ r = 1).
Proof.
  intros Hc.
  assert (D : exists r, point_in_element ctx id_str px py = Some r).
  { destruct (ctx !! id_str) as [b | ] eqn:Hb.
    - destruct (Hc b eq_refl) as (Cx & Cxw & Cy & Cyh).
      rewrite (point_in_element_found ctx id_str b px py Hb).
      rewrite (to_int_castable _ Cx), (to_int_castable _ Cxw),
        (to_int_castable _ Cy), (to_int_castable _ Cyh).
      cbn [mbind option_bind].
      destruct (negb _); [eexists; reflexivity | ].
      destruct (negb _); [eexists; reflexivity | ].
      destruct (negb _); eexists; reflexivity.
    - rewrite (point_in_element_not_found ctx id_str px py Hb).
      eexists; reflexivity. }
  destruct D as [r Hr]. exists r. split; [exact Hr | ].
  apply (point_in_element_bool ctx id_str px py r Hr).
Qed.

Lemma point_in_element_defined_witness :
  exists r,
    point_in_element {[ "menu_toggle" := pixel_box 6 6 36 14 ]} "menu_toggle" 10 10
    = Some r /\ (r = 0 \/ r = 1).
Proof.
  apply point_in_element_defined.
  intros b Hb. rewrite lookup_singleton_eq in Hb. injection Hb as <-.
  unfold int_castable. vm_compute. repeat split; discriminate.
Defined.

(** X2. A hit places the point in the box, up to the truncation of the
    left and top edges: the point is less than one pixel to the left of
    (above) the box's origin and strictly before its right (bottom)
    edge [x + w] ([y + h]) as computed in [float].  In particular a
    hit needs the identifier to be in the layout. *)
Theorem point_in_element_hit_inside (ctx : Clay_Context) (id_str : string)
    (px py r : Z) :
  point_in_element ctx id_str px py = Some r -> r <> 0 ->
  exists b,
    ctx !! id_str = Some b
    /\ (bb_x b - 1 < inject_Z px /\ inject_Z px < F32.add (bb_x b) (bb_width b))%Q
    /\ (bb_y b - 1 < inject_Z py /\ inject_Z py < F32.add (bb_y b) (bb_height b))%Q.
Proof.
  intros H Hr.
  destruct (point_in_element_hit_inv ctx id_str px py r H Hr)
    as (b & Hb & [Hx1 Hx2] & [Hy1 Hy2]).
  exists b. split; [exact Hb | ].
  destruct (Ztrunc_close (bb_x b)) as [_ Cx].
  destruct (Ztrunc_close (F32.add (bb_x b) (bb_width b))) as [Cxw _].
  destruct (Ztrunc_close (bb_y b)) as [_ Cy].
  destruct (Ztrunc_close (F32.add (bb_y b) (bb_height b))) as [Cyh _].
  rewrite Zle_Qle in Hx1, Hy1.
  assert (Hx2' : Ztrunc (F32.add (bb_x b) (bb_width b)) >= px + 1) by lia.
  assert (Hy2' : Ztrunc (F32.add (bb_y b) (bb_height b)) >= py + 1) by lia.
  apply Z.ge_le in Hx2', Hy2'. rewrite Zle_Qle, inject_Z_plus in Hx2', Hy2'.
  change (inject_Z 1) with 1%Q in Hx2', Hy2'.
  repeat split; lra.
Qed.

Lemma point_in_element_hit_inside_witness :
  exists b,
    ({[ "item1" := pixel_box 6 26 220 30 ]} : Clay_Context) !! "item1" = Some b
    /\ (bb_x b - 1 < inject_Z 20 /\ inject_Z 20 < F32.add (bb_x b) (bb_width b))%Q
    /\ (bb_y b - 1 < inject_Z 40 /\ inject_Z 40 < F32.add (bb_y b) (bb_height b))%Q.
Proof.
  apply (point_in_element_hit_inside _ "item1" 20 40 1).
  - vm_compute. reflexivity.
  - discriminate.
Defined.

(** X3. Conversely, a point with [x <= px], [px + 1 <= x + w],
    [y <= py] and [py + 1 <= y + h] (the sums as computed in [float])
    is a hit whenever the casts are defined. *)
Theorem point_in_element_inside_hit (ctx : Clay_Context) (id_str : string)
    (b : Clay_BoundingBox) (px py r : Z) :
  ctx !! id_str = Some b ->
  (bb_x b <= inject_Z px /\ inject_Z px + 1 <= F32.add (bb_x b) (bb_width b))%Q ->
  (bb_y b <= inject_Z py /\ inject_Z py + 1 <= F32.add (bb_y b) (bb_height b))%Q ->
  point_in_element ctx id_str px py = Some r -> r = 1.
Proof.
  intros Hb [Hx1 Hx2] [Hy1 Hy2].
  rewrite (point_in_element_found ctx id_str b px py Hb). intros H.
  apply Ztrunc_le_of_le in Hx1, Hy1. apply Ztrunc_gt_of_succ_le in Hx2, Hy2.
  destruct (F32.to_int (bb_x b)) as [ix | ] eqn:Ex; [cbn in H | discriminate].
  apply to_int_Ztrunc in Ex. rewrite Z.geb_leb in H.
  destruct (Z.leb_spec ix px); [cbn in H | lia].
  destruct (F32.to_int (F32.add (bb_x b) (bb_width b))) as [ixw | ] eqn:Exw;
    [cbn in H | discriminate].
  apply to_int_Ztrunc in Exw.
  destruct (Z.ltb_spec px ixw); [cbn in H | lia].
  destruct (F32.to_int (bb_y b)) as [iy | ] eqn:Ey; [cbn in H | discriminate].
  apply to_int_Ztrunc in Ey. rewrite Z.geb_leb in H.
  destruct (Z.leb_spec iy py); [cbn in H | lia].
  destruct (F32.to_int (F32.add (bb_y b) (bb_height b))) as [iyh | ] eqn:Eyh;
    [cbn in H | discriminate].
  apply to_int_Ztrunc in Eyh.
  destruct (Z.ltb_spec py iyh); [cbn in H | lia].
  injection H as <-. reflexivity.
Qed.

Lemma point_in_element_inside_hit_witness :
  let ctx : Clay_Context :=
    {[ "t" := {| bb_x := (1 # 2)%Q; bb_y := (1 # 2)%Q; bb_width := 3%Q;
                 bb_height := 3%Q |} ]} in
  exists r, point_in_element ctx "t" 2 1 = Some r /\ r = 1.
Proof.
  intros ctx. exists 1. split; [vm_compute; reflexivity | ].
  apply (point_in_element_inside_hit ctx "t"
           {| bb_x := (1 # 2)%Q; bb_y := (1 # 2)%Q; bb_width := 3%Q;
              bb_height := 3%Q |} 2 1 1).
  - apply lookup_singleton_eq.
  - vm_compute. split; discriminate.
  - vm_compute. split; discriminate.
  - vm_compute. reflexivity.
Defined.

(** X4. A box without extent is never hit: when the width or the height
    is zero or negative, every defined answer is 0.  (The coordinates
    are [float] values, so rounding them again changes nothing.) *)
Theorem point_in_element_empty_box (ctx : Clay_Context) (id_str : string)
    (b : Clay_BoundingBox) (px py r : Z) :
  ctx !! id_str = Some b ->
  (F32.rnd (bb_x b) == bb_x b)%Q -> (F32.rnd (bb_y b) == bb_y b)%Q ->
  (bb_width b <= 0 \/ bb_height b <= 0)%Q ->
  point_in_element ctx id_str px py = Some r -> r = 0.
Proof.
  intros Hb Fx Fy Hempty H.
  destruct (Z.eq_dec r 0) as [E | NE]; [exact E | exfalso].
  destruct (point_in_element_hit_inv ctx id_str px py r H NE)
    as (b' & Hb' & [Hx1 Hx2] & [Hy1 Hy2]).
  rewrite Hb in Hb'. injection Hb' as <-.
  destruct Hempty as [Hw | Hh].
  - assert (M : (F32.add (bb_x b) (bb_width b) <= bb_x b)%Q).
    { rewrite <- Fx at 2. apply rnd_mono. lra. }
    apply Ztrunc_mono in M. lia.
  - assert (M : (F32.add (bb_y b) (bb_height b) <= bb_y b)%Q).
    { rewrite <- Fy at 2. apply rnd_mono. lra. }
    apply Ztrunc_mono in M. lia.
Qed.

Lemma point_in_element_empty_box_witness :
  let ctx : Clay_Context := {[ "center" := pixel_box 100 6 0 14 ]} in
  exists r, point_in_element ctx "center" 100 10 = Some r /\ r = 0.
Proof.
  intros ctx. exists 0. split; [vm_compute; reflexivity | ].
  apply (point_in_element_empty_box ctx "center" (pixel_box 100 6 0 14) 100 10 0).
  - apply lookup_singleton_eq.
  - vm_compute. reflexivity.
  - vm_compute. reflexivity.
  - left. vm_compute. discriminate.
  - vm_compute. reflexivity.
Defined.

End HitTestGeometry.
(** ** The status buffer across updates *)

Section StatusMore.

(** X5. With an Xlib that reports the type of every property it
    fetched, a call of [update_root_status] that returns is one whose
    fetch failed.  It has written the terminator at index 0 and nothing
    else: the status text is empty, the buffer keeps its size and every
    byte behind index 0 keeps its old value, so the remains of what the
    buffer held stay in memory behind the terminator. *)
Theorem update_root_status_only_clears (status : Z) (tprop : XTextProperty)
    (statusbuf buf : list byte) :
  typed_fetch status tprop ->
  update_root_status status tprop statusbuf = Some buf ->
  (truthy status = false \/ value tprop = None)
  /\ buf !! 0%nat = Some x00
  /\ c_str buf = []
  /\ List.length buf = List.length statusbuf
  /\ forall i, (0 < i)%nat -> buf !! i = statusbuf !! i.
Proof.
  intros Ht H.
  destruct (update_root_status_ok _ _ _ _ H) as [Hlen _].
  destruct (update_root_status_cleared _ _ _ _ Ht H) as [Hf ->].
  split; [exact Hf | ]. split; [reflexivity | ]. split; [reflexivity | ].
  split; [exact Hlen | ].
  intros i Hi. destruct i as [ | i]; [lia | ]. simpl.
  rewrite lookup_drop. reflexivity.
Qed.

Lemma update_root_status_only_clears_witness :
  let old := list_byte_of_string "old name" ++ repeat x00 504 in
  exists buf,
    update_root_status 0 no_status old = Some buf
    /\ c_str buf = []
    /\ buf !! 1%nat = Some "l"%byte.
Proof.
  intros old.
  destruct (update_root_status 0 no_status old) as [buf | ] eqn:E;
    [ | vm_compute in E; discriminate E].
  exists buf. split; [reflexivity | ].
  assert (Ht : typed_fetch 0 no_status).
  { intros H. vm_compute in H. discriminate H. }
  destruct (update_root_status_only_clears 0 no_status old buf Ht E)
    as (_ & _ & Hc & _ & Htail).
  split; [exact Hc | ]. rewrite (Htail 1%nat); [reflexivity | lia].
Defined.

End StatusMore.

(** ** The event loop *)

Section LoopProperties.

Variable Clay_Layout :
  Clay_Dimensions -> Element -> list Clay_RenderCommand * Clay_Context.

Local Abbreviation render := (render_clay_with_cairo Clay_Layout).
Local Abbreviation frame := (frame_of Clay_Layout).

(** A frame in closed form: the state with the new boxes, one paint. *)
Lemma render_eq (st : Bar) :
  render st
  = ({| screen_w := screen_w st; dropdown_open := dropdown_open st;
        timebuf := timebuf st; statusbuf := statusbuf st;
        clay := snd (Clay_Layout
                       {| dim_width := F32.of_int (screen_w st);
                          dim_height := F32.of_int BAR_HEIGHT |}
                       (bar_layout (screen_w st) (dropdown_open st)
                          (timebuf st) (statusbuf st))) |},
     [ Paint (frame st) ]).
Proof.
  unfold render_clay_with_cairo, frame_of.
  destruct (Clay_Layout _ _) as [cmds boxes]. reflexivity.
Qed.

(** The frame depends on the state only through what the layout reads. *)
Lemma frame_of_ext (s1 s2 : Bar) :
  screen_w s1 = screen_w s2 -> dropdown_open s1 = dropdown_open s2 ->
  timebuf s1 = timebuf s2 -> statusbuf s1 = statusbuf s2 ->
  frame s1 = frame s2.
Proof. intros A B C D. unfold frame_of. rewrite A, B, C, D. reflexivity. Qed.

Lemma frame_of_render (st : Bar) : frame (fst (render st)) = frame st.
Proof. rewrite render_eq. apply frame_of_ext; reflexivity. Qed.

Lemma on_button_press_inv (st st' : Bar) (mx my : Z) (fx : list Effect) :
  on_button_press Clay_Layout st mx my = Some (st', fx) ->
  press_outcome Clay_Layout st mx my st' fx.
Proof.
  unfold on_button_press. intros H.
  destruct (point_in_element (clay st) "menu_toggle" mx my) as [t | ] eqn:Ht;
    [cbn in H | discriminate H].
  destruct (truthy t) eqn:Tt.
  { injection H as H. rewrite (surjective_pairing (render _)) in H.
    injection H as <- <-. eapply press_toggle; eassumption. }
  apply truthy_false in Tt. subst t.
  destruct (truthy (dropdown_open st)) eqn:Hopen;
    [ | injection H as <- <-; now apply press_ignored].
  destruct (point_in_element (clay st) "item1" mx my) as [h1 | ] eqn:H1;
    [cbn in H | discriminate H].
  destruct (truthy h1) eqn:T1.
  { rewrite (surjective_pairing (render _)) in H. injection H as <- <-.
    eapply press_item1; eassumption. }
  apply truthy_false in T1. subst h1.
  destruct (point_in_element (clay st) "item2" mx my) as [h2 | ] eqn:H2;
    [cbn in H | discriminate H].
  destruct (truthy h2) eqn:T2.
  { rewrite (surjective_pairing (render _)) in H. injection H as <- <-.
    eapply press_item2; eassumption. }
  apply truthy_false in T2. subst h2.
  injection H as H. rewrite (surjective_pairing (render _)) in H.
  injection H as <- <-. now apply press_outside.
Qed.


Lemma press_outcome_state (st st' : Bar) (mx my : Z) (fx : list Effect) :
  press_outcome Clay_Layout st mx my st' fx ->
  (st' = st /\ fx = [] /\ truthy (dropdown_open st) = false)
  \/ exists v pre,
       st' = fst (render (set_dropdown_open v st))
       /\ fx = pre ++ [ Paint (frame (set_dropdown_open v st)) ]
       /\ ((v = c_not (dropdown_open st) /\ pre = [])
           \/ (v = 0 /\ truthy (dropdown_open st) = true
               /\ (pre = [] \/ pre = [ Spawn [ "xterm" ] ]
                   \/ pre = [ Spawn [ "xdg-open"; "." ] ]))).
Proof.
  intros H. destruct H.
  - right. exists (c_not (dropdown_open st)), []. rewrite render_eq.
    split; [reflexivity | split; [reflexivity | left; split; reflexivity]].
  - right. exists 0, [ Spawn [ "xterm" ] ]. rewrite render_eq.
    split; [reflexivity | split; [reflexivity | right; auto]].
  - right. exists 0, [ Spawn [ "xdg-open"; "." ] ]. rewrite render_eq.
    split; [reflexivity | split; [reflexivity | right; auto]].
  - right. exists 0, []. rewrite render_eq.
    split; [reflexivity | split; [reflexivity | right; auto]].
  - left. auto.
Qed.

(** One iteration either does nothing or ends in a frame of some state
    [s] that differs from the old one in the field the input is about. *)
Lemma step_shape (st st' : Bar) (i : Input) (fx : list Effect) :
  step Clay_Layout st i = Some (st', fx) ->
  (st' = st /\ fx = [])
  \/ exists s pre,
       st' = fst (render s) /\ fx = pre ++ [ Paint (frame s) ]
       /\ ((i = Event Expose /\ s = st /\ pre = [])
           \/ (exists w, i = Event (ConfigureNotify w) /\ w <> screen_w st
                         /\ s = set_screen_w w st
                         /\ pre = [ SurfaceSetSize w BAR_HEIGHT ])
           \/ (exists x y v, i = Event (ButtonPress x y)
                             /\ s = set_dropdown_open v st
                             /\ press_outcome Clay_Layout st x y st' fx
                             /\ ((v = c_not (dropdown_open st) /\ pre = [])
                                 \/ (v = 0 /\ truthy (dropdown_open st) = true
                                     /\ (pre = [] \/ pre = [ Spawn [ "xterm" ] ]
                                         \/ pre = [ Spawn [ "xdg-open"; "." ] ]))))
           \/ (exists now status tprop buf,
                 i = Tick now status tprop
                 /\ update_root_status status tprop (statusbuf st) = Some buf
                 /\ s = {| screen_w := screen_w st;
                           dropdown_open := dropdown_open st;
                           timebuf := now; statusbuf := buf; clay := clay st |}
                 /\ pre = [])).
Proof.
  destruct i as [[ | w | x y | | ] | now status tprop]; cbn [step handle_event].
  - rewrite render_eq. intros [= <- <-]. right. exists st, []. rewrite render_eq.
    split; [reflexivity | split; [reflexivity | left; auto]].
  - unfold on_configure. destruct (Z.eqb_spec w (screen_w st)) as [E | NE]; cbn [negb].
    + intros [= <- <-]. left. auto.
    + rewrite render_eq. intros [= <- <-]. right.
      exists (set_screen_w w st), [ SurfaceSetSize w BAR_HEIGHT ].
      rewrite render_eq. split; [reflexivity | split; [reflexivity | ]].
      right; left. exists w. auto.
  - intros H. apply on_button_press_inv in H.
    destruct (press_outcome_state _ _ _ _ _ H) as [(-> & -> & _) | (v & pre & E1 & E2 & C)].
    + left. auto.
    + right. exists (set_dropdown_open v st), pre.
      split; [exact E1 | split; [exact E2 | ]].
      right; right; left. exists x, y, v. auto.
  - intros [= <- <-]. left. auto.
  - intros [= <- <-]. left. auto.
  - unfold periodic_update.
    destruct (update_root_status status tprop (statusbuf st)) as [buf | ] eqn:E;
      [cbn | discriminate].
    rewrite render_eq. intros [= <- <-]. right.
    exists {| screen_w := screen_w st; dropdown_open := dropdown_open st;
              timebuf := now; statusbuf := buf; clay := clay st |}, [].
    rewrite render_eq.
    split; [reflexivity | split; [reflexivity | ]].
    right; right; right. exists now, status, tprop, buf. auto.
Qed.

End LoopProperties.

Section LoopTheorems.

Variable Clay_Layout :
  Clay_Dimensions -> Element -> list Clay_RenderCommand * Clay_Context.

Local Abbreviation render := (render_clay_with_cairo Clay_Layout).
Local Abbreviation frame := (frame_of Clay_Layout).

(** X8. No state change goes unpainted: an iteration of the loop either
    leaves the state as it is and does nothing, or its last action is
    to paint the frame of the state it leaves, after at most one other
    action (the resize of the surface, or the launch of a program). *)
Theorem step_paints_new_state (st st' : Bar) (i : Input) (fx : list Effect) :
  step Clay_Layout st i = Some (st', fx) ->
  (st' = st /\ fx = [])
  \/ exists pre,
       fx = pre ++ [ Paint (frame st') ]
       /\ (pre = [] \/ pre = [ SurfaceSetSize (screen_w st') BAR_HEIGHT ]
           \/ exists argv, pre = [ Spawn argv ]).
Proof.
  intros H. destruct (step_shape _ _ _ _ _ H) as [N | (s & pre & -> & -> & C)];
    [left; exact N | right].
  exists pre. rewrite frame_of_render. split; [reflexivity | ].
  destruct C as [(_ & _ & ->) | [(w & _ & _ & -> & ->) | [(x & y & v & _ & _ & _ & C) | C]]].
  - left. reflexivity.
  - right; left. rewrite render_eq. reflexivity.
  - destruct C as [[_ ->] | (_ & _ & [-> | [-> | ->]])]; eauto.
  - destruct C as (now & status & tprop & buf & _ & _ & _ & ->). left. reflexivity.
Qed.

(** X9. The frame rule of the loop.  An event never changes the two text
    buffers; it changes the width only if it is a [ConfigureNotify]
    (to the width it carries) and [dropdown_open] only if it is a
    [ButtonPress].  The periodic refresh changes neither width nor
    [dropdown_open] and stores the time it was given. *)
Theorem step_frame_rule (st st' : Bar) (i : Input) (fx : list Effect) :
  step Clay_Layout st i = Some (st', fx) ->
  match i with
  | Event ev =>
      timebuf st' = timebuf st /\ statusbuf st' = statusbuf st
      /\ (screen_w st' <> screen_w st -> ev = ConfigureNotify (screen_w st'))
      /\ (dropdown_open st' <> dropdown_open st -> exists x y, ev = ButtonPress x y)
  | Tick now status tprop =>
      screen_w st' = screen_w st /\ dropdown_open st' = dropdown_open st
      /\ timebuf st' = now
      /\ update_root_status status tprop (statusbuf st) = Some (statusbuf st')
  end.
Proof.
  intros H. destruct (step_shape _ _ _ _ _ H) as [[-> ->] | (s & pre & -> & -> & C)].
  - destruct i as [ev | now status tprop].
    + repeat split; try reflexivity; intros N; contradiction N; reflexivity.
    + cbn in H. unfold periodic_update in H.
      destruct (update_root_status _ _ _); [cbn in H | discriminate H].
      rewrite render_eq in H. discriminate H.
  - rewrite render_eq. cbn [fst screen_w dropdown_open timebuf statusbuf].
    destruct C as [(-> & -> & _) | [(w & -> & _ & -> & _)
                   | [(x & y & v & -> & -> & _) | (now & status & tprop & buf & -> & E & -> & _)]]].
    + repeat split; try reflexivity; intros N; contradiction N; reflexivity.
    + cbn. repeat split; try reflexivity. intros N; contradiction N; reflexivity.
    + cbn. repeat split; try reflexivity.
      * intros N; contradiction N; reflexivity.
      * intros _. eauto.
    + cbn. repeat split; try reflexivity. exact E.
Qed.

(** X10. A program is launched only by a click that misses the toggle
    while the dropdown is open and hits the item of that program; the
    click closes the dropdown.  No other input launches anything, and
    nothing but [xterm] and [xdg-open .] is ever launched. *)
Theorem spawn_needs_open_menu (st st' : Bar) (i : Input) (fx : list Effect)
    (argv : list string) :
  step Clay_Layout st i = Some (st', fx) -> Spawn argv ∈ fx ->
  exists x y,
    i = Event (ButtonPress x y)
    /\ truthy (dropdown_open st) = true /\ dropdown_open st' = 0
    /\ point_in_element (clay st) "menu_toggle" x y = Some 0
    /\ ((argv = [ "xterm" ]
         /\ exists h, point_in_element (clay st) "item1" x y = Some h
                      /\ truthy h = true)
        \/ (argv = [ "xdg-open"; "." ]
            /\ point_in_element (clay st) "item1" x y = Some 0
            /\ exists h, point_in_element (clay st) "item2" x y = Some h
                         /\ truthy h = true)).
Proof.
  intros H Hin.
  destruct i as [[ | w | x y | | ] | now status tprop]; cbn [step handle_event] in H.
  - rewrite render_eq in H. injection H as <- <-.
    apply list_elem_of_singleton in Hin. discriminate Hin.
  - unfold on_configure in H. destruct (negb _).
    + rewrite render_eq in H. injection H as <- <-.
      repeat (apply elem_of_cons in Hin as [Hin | Hin]; [discriminate Hin | ]).
      apply elem_of_nil in Hin. contradiction.
    + injection H as <- <-. apply elem_of_nil in Hin. contradiction.
  - apply on_button_press_inv in H. exists x, y. split; [reflexivity | ].
    destruct H as [t Ht Tt | h Ht Ho H1 T1 | h Ht Ho H1 H2 T2 | Ht Ho H1 H2 | Ht Ho];
      rewrite ?render_eq in Hin; cbn [fst snd] in Hin.
    + apply list_elem_of_singleton in Hin. discriminate Hin.
    + apply elem_of_cons in Hin as [Hin | Hin];
        [ | apply list_elem_of_singleton in Hin; discriminate Hin].
      injection Hin as ->. rewrite render_eq. cbn.
      split; [exact Ho | split; [reflexivity | split; [exact Ht | ]]].
      left. eauto.
    + apply elem_of_cons in Hin as [Hin | Hin];
        [ | apply list_elem_of_singleton in Hin; discriminate Hin].
      injection Hin as ->. rewrite render_eq. cbn.
      split; [exact Ho | split; [reflexivity | split; [exact Ht | ]]].
      right. eauto.
    + apply list_elem_of_singleton in Hin. discriminate Hin.
    + apply elem_of_nil in Hin. contradiction.
  - injection H as <- <-. apply elem_of_nil in Hin. contradiction.
  - injection H as <- <-. apply elem_of_nil in Hin. contradiction.
  - unfold periodic_update in H.
    destruct (update_root_status _ _ _); [cbn in H | discriminate H].
    rewrite render_eq in H. injection H as <- <-.
    apply list_elem_of_singleton in Hin. discriminate Hin.
Qed.

(** The state a click leaves and the programs it launches, against
    whether the dropdown was open. *)
Lemma step_spawn_budget (st st' : Bar) (i : Input) (fx : list Effect) :
  step Clay_Layout st i = Some (st', fx) ->
  (2 * spawns fx + (if truthy (dropdown_open st') then 1 else 0)
   <= (if is_press i then 1 else 0) + (if truthy (dropdown_open st) then 1 else 0))%nat.
Proof.
  intros H. destruct (step_shape _ _ _ _ _ H) as [[-> ->] | (s & pre & -> & -> & C)].
  - cbn. lia.
  - rewrite render_eq. cbn [fst dropdown_open].
    destruct C as [(-> & -> & ->) | [(w & -> & _ & -> & ->)
                   | [(x & y & v & -> & -> & _ & C) | (now & status & tprop & buf & -> & _ & -> & ->)]]];
      cbn; try lia.
    destruct C as [[-> ->] | (-> & Ho & [-> | [-> | ->]])]; cbn.
    + rewrite truthy_c_not. destruct (truthy (dropdown_open st)); cbn; lia.
    + rewrite Ho. cbn. lia.
    + rewrite Ho. cbn. lia.
    + rewrite Ho. cbn. lia.
Qed.

Lemma spawns_app (a b : list Effect) : spawns (a ++ b) = (spawns a + spawns b)%nat.
Proof. unfold spawns. rewrite List.filter_app, length_app. reflexivity. Qed.

(** X11. Over any run of the loop, the programs launched are at most
    half the clicks received, counting one more click when the run
    starts with the dropdown open: every launch closes the dropdown,
    and only a click on the toggle opens it again. *)
Theorem run_spawns_bounded (inputs : list Input) (st st' : Bar) (fx : list Effect) :
  run Clay_Layout st inputs = Some (st', fx) ->
  (2 * spawns fx
   <= presses inputs + (if truthy (dropdown_open st) then 1 else 0))%nat.
Proof.
  enough (G : forall inputs st st' fx,
             run Clay_Layout st inputs = Some (st', fx) ->
             (2 * spawns fx + (if truthy (dropdown_open st') then 1 else 0)
              <= presses inputs + (if truthy (dropdown_open st) then 1 else 0))%nat).
  { intros H. specialize (G _ _ _ _ H). lia. }
  clear. intros inputs. induction inputs as [ | i rest IH]; intros st st' fx H.
  - injection H as <- <-. cbn. lia.
  - cbn [run] in H.
    destruct (step Clay_Layout st i) as [[st1 fx1] | ] eqn:E1; [cbn in H | discriminate H].
    destruct (run Clay_Layout st1 rest) as [[st2 fx2] | ] eqn:E2; [cbn in H | discriminate H].
    injection H as <- <-.
    pose proof (step_spawn_budget _ _ _ _ E1) as B1.
    pose proof (IH _ _ _ E2) as B2.
    rewrite spawns_app. unfold presses in *. cbn [List.filter].
    destruct (is_press i); cbn [List.length] in *; lia.
Qed.

(** One iteration keeps the invariant of the globals. *)
Lemma step_bar_ok (st st' : Bar) (i : Input) (fx : list Effect) :
  bar_ok st -> step Clay_Layout st i = Some (st', fx) -> bar_ok st'.
Proof.
  intros (Hd & Hl & Hn) H.
  destruct (step_shape _ _ _ _ _ H) as [[-> ->] | (s & pre & -> & -> & C)].
  - repeat split; assumption.
  - rewrite render_eq. unfold bar_ok. cbn [fst dropdown_open statusbuf].
    destruct C as [(_ & -> & _) | [(w & _ & _ & -> & _)
                   | [(x & y & v & _ & -> & _ & C) | (now & status & tprop & buf & -> & E & -> & _)]]].
    + repeat split; assumption.
    + cbn. repeat split; assumption.
    + cbn. split; [ | split; assumption].
      destruct C as [[-> _] | (-> & _)]; [ | now left].
      unfold c_not. destruct (dropdown_open st =? 0); [now right | now left].
    + cbn. split; [exact Hd | ].
      destruct (update_root_status_ok status tprop (statusbuf st) buf E) as [L N].
      split; [rewrite L; exact Hl | exact N].
Qed.

(** One iteration keeps an empty status text empty, when the fetch
    reports the type of what it fetched. *)
Lemma step_status_empty (st st' : Bar) (i : Input) (fx : list Effect) :
  c_str (statusbuf st) = [] -> input_typed i ->
  step Clay_Layout st i = Some (st', fx) ->
  c_str (statusbuf st') = []
  /\ match i with
     | Event _ => True
     | Tick _ status tprop => truthy status = false \/ value tprop = None
     end.
Proof.
  intros He Ht H.
  destruct (step_shape _ _ _ _ _ H) as [[-> ->] | (s & pre & -> & -> & C)].
  - split; [exact He | ]. destruct i as [ev | now status tprop]; [exact I | ].
    cbn in H. unfold periodic_update in H.
    destruct (update_root_status _ _ _); [cbn in H | discriminate H].
    rewrite render_eq in H. discriminate H.
  - rewrite render_eq. cbn [fst statusbuf].
    destruct C as [(-> & -> & _) | [(w & -> & _ & -> & _)
                   | [(x & y & v & -> & -> & _) | (now & status & tprop & buf & -> & E & -> & _)]]];
      cbn [statusbuf set_screen_w set_dropdown_open]; try (split; [exact He | exact I]).
    destruct (update_root_status_cleared _ _ _ _ Ht E) as [Hf ->].
    split; [reflexivity | exact Hf].
Qed.

Lemma step_in_sync (st st' : Bar) (i : Input) (fx : list Effect) :
  frame_in_sync Clay_Layout st -> step Clay_Layout st i = Some (st', fx) ->
  frame_in_sync Clay_Layout st'.
Proof.
  intros Hs H. destruct i as [ev | now status tprop]; cbn [step] in H.
  - exact (handle_event_in_sync Clay_Layout st st' ev fx Hs H).
  - exact (periodic_update_in_sync Clay_Layout st st' now status tprop fx H).
Qed.

(** X12. The invariant of the loop.  From a state whose [dropdown_open]
    is 0 or 1, whose status buffer has 512 bytes with a NUL among them
    and whose Clay context holds the boxes of its own frame, every run
    of the loop that is defined ends in such a state. *)
Theorem run_keeps_invariant (inputs : list Input) (st st' : Bar) (fx : list Effect) :
  bar_ok st -> frame_in_sync Clay_Layout st ->
  run Clay_Layout st inputs = Some (st', fx) ->
  bar_ok st' /\ frame_in_sync Clay_Layout st'.
Proof.
  revert st st' fx. induction inputs as [ | i rest IH]; intros st st' fx Hok Hs H.
  - injection H as <- <-. split; assumption.
  - cbn [run] in H.
    destruct (step Clay_Layout st i) as [[st1 fx1] | ] eqn:E1; [cbn in H | discriminate H].
    destruct (run Clay_Layout st1 rest) as [[st2 fx2] | ] eqn:E2; [cbn in H | discriminate H].
    injection H as <- <-.
    apply (IH st1 st2 fx2).
    + exact (step_bar_ok _ _ _ _ Hok E1).
    + exact (step_in_sync _ _ _ _ Hs E1).
    + exact E2.
Qed.

(** X6. The bar never shows the name of the root window.  In a run of
    the loop that is defined (the fetches reporting the type of what
    they fetched), every fetch of a periodic refresh has failed, and a
    status text that was empty at the start, as it is when the program
    starts, is empty at the end. *)
Theorem run_status_stays_empty (inputs : list Input) (st st' : Bar)
    (fx : list Effect) :
  c_str (statusbuf st) = [] -> Forall input_typed inputs ->
  run Clay_Layout st inputs = Some (st', fx) ->
  c_str (statusbuf st') = []
  /\ Forall (fun i => match i with
                      | Event _ => True
                      | Tick _ status tprop =>
                          truthy status = false \/ value tprop = None
                      end) inputs.
Proof.
  revert st st' fx. induction inputs as [ | i rest IH]; intros st st' fx He Ht H.
  - injection H as <- <-. split; [exact He | apply Forall_nil; exact I].
  - cbn [run] in H.
    destruct (step Clay_Layout st i) as [[st1 fx1] | ] eqn:E1; [cbn in H | discriminate H].
    destruct (run Clay_Layout st1 rest) as [[st2 fx2] | ] eqn:E2; [cbn in H | discriminate H].
    injection H as <- <-.
    apply Forall_cons in Ht as [Hi Hrest].
    destruct (step_status_empty _ _ _ _ He Hi E1) as [He1 Hf].
    destruct (IH st1 st2 fx2 He1 Hrest E2) as [He2 Hfs].
    split; [exact He2 | ]. apply Forall_cons. split; assumption.
Qed.

(** X14. A [ConfigureNotify] stores whatever width it carries, also a
    zero or negative one, resizes the surface to the bar's height and
    draws a frame; a second notification of the same width does
    nothing. *)
Theorem on_configure_settles (st : Bar) (width : Z) :
  let r := on_configure Clay_Layout st width in
  screen_w (fst r) = width
  /\ (width <> screen_w st ->
      snd r = [ SurfaceSetSize width BAR_HEIGHT; Paint (frame (fst r)) ])
  /\ on_configure Clay_Layout (fst r) width = (fst r, []).
Proof.
  cbn zeta. destruct (Z.eqb_spec width (screen_w st)) as [E | NE].
  - subst width.
    assert (R : on_configure Clay_Layout st (screen_w st) = (st, [])).
    { unfold on_configure. rewrite Z.eqb_refl. reflexivity. }
    rewrite R. cbn [fst snd].
    split; [reflexivity | ]. split; [intros N; contradiction | exact R].
  - assert (R : on_configure Clay_Layout st width
                = (fst (render (set_screen_w width st)),
                   [ SurfaceSetSize width BAR_HEIGHT;
                     Paint (frame (set_screen_w width st)) ])).
    { unfold on_configure. destruct (Z.eqb_spec width (screen_w st)); [contradiction | ].
      cbn [negb]. rewrite render_eq. reflexivity. }
    rewrite R. cbn [fst snd]. rewrite frame_of_render.
    split; [rewrite render_eq; reflexivity | ]. split; [reflexivity | ].
    unfold on_configure. rewrite render_eq. cbn [fst screen_w].
    rewrite Z.eqb_refl. reflexivity.
Qed.

End LoopTheorems.

(** ** Undefined behaviour in the loop *)

Section LoopDefined.

Lemma in_sync_boxes (st : Bar) : frame_in_sync spec_engine st -> clay st = bar_boxes st.
Proof. intros H. exact H. Qed.

(** In a state of the loop a click is always defined. *)
Lemma on_button_press_defined (st : Bar) (mx my : Z) :
  frame_in_sync spec_engine st ->
  exists r, on_button_press spec_engine st mx my = Some r.
Proof.
  intros Hs. unfold on_button_press. rewrite (in_sync_boxes st Hs).
  destruct (point_in_element_clickable st "menu_toggle" mx my) as (t & -> & _);
    [find_elem | cbn [mbind option_bind]].
  destruct (truthy t); [eauto | ].
  destruct (truthy (dropdown_open st)); [ | eauto].
  destruct (point_in_element_clickable st "item1" mx my) as (h1 & -> & _);
    [find_elem | cbn [mbind option_bind]].
  destruct (truthy h1); [destruct (render_clay_with_cairo _ _); eauto | ].
  destruct (point_in_element_clickable st "item2" mx my) as (h2 & -> & _);
    [find_elem | cbn [mbind option_bind]].
  destruct (truthy h2); [destruct (render_clay_with_cairo _ _); eauto | eauto].
Qed.

(** X13. The one undefined behaviour an iteration of the loop can
    reach.  From a state of the loop (the invariant of the globals, the
    Clay context holding the boxes of the current frame) an iteration
    is undefined exactly when it is a periodic refresh whose fetch of
    the root window name succeeded with a non-zero type atom, which
    [update_root_status] then hands to [XFree].  Every event is
    defined, the hit tests of a click included, and so is every buffer
    access of the refresh. *)
Theorem step_undefined_only_by_free (st : Bar) (i : Input) :
  bar_ok st -> frame_in_sync spec_engine st -> input_ok i ->
  (step spec_engine st i = None
   <-> exists now status tprop v,
         i = Tick now status tprop /\ truthy status = true
         /\ value tprop = Some v /\ encoding tprop <> 0).
Proof.
  intros (_ & Hl & _) Hs Hi. split.
  - intros H.
    destruct i as [[ | w | x y | | ] | now status tprop];
      cbn [step handle_event] in H; try discriminate H.
    + destruct (on_button_press_defined st x y Hs) as [r Hr].
      rewrite Hr in H. discriminate H.
    + unfold periodic_update in H.
      rewrite (update_root_status_result status tprop (statusbuf st) Hl Hi) in H.
      destruct (truthy status) eqn:Hst; [ | discriminate H].
      destruct (value tprop) as [v | ] eqn:Hv; [ | discriminate H].
      cbn zeta in H. destruct (truthy (encoding tprop)) eqn:He; [ | discriminate H].
      exists now, status, tprop, v. apply truthy_nonzero in He. auto.
  - intros (now & status & tprop & v & -> & Hst & Hv & He).
    cbn [step]. unfold periodic_update.
    rewrite (update_root_status_result status tprop (statusbuf st) Hl Hi).
    rewrite Hst, Hv. cbn zeta. apply truthy_nonzero in He. rewrite He. reflexivity.
Qed.

End LoopDefined.
Lemma step_paints_new_state_witness :
  exists st' cmds,
    step spec_engine bar_open (Event (ButtonPress 20 40))
    = Some (st', [ Spawn [ "xterm" ]; Paint cmds ])
    /\ cmds = frame_of spec_engine st'.
Proof.
  destruct (step spec_engine bar_open (Event (ButtonPress 20 40)))
    as [[st' fx] | ] eqn:E; [ | vm_compute in E; discriminate E].
  assert (P : head fx = Some (Spawn [ "xterm" ])).
  { transitivity (match step spec_engine bar_open (Event (ButtonPress 20 40)) with
                  | Some p => head (snd p)
                  | None => None
                  end); [rewrite E; reflexivity | vm_compute; reflexivity]. }
  destruct (step_paints_new_state spec_engine bar_open st' _ fx E)
    as [[_ N] | (pre & Efx & C)].
  - exfalso. subst fx. discriminate P.
  - exists st', (frame_of spec_engine st'). split; [ | reflexivity].
    f_equal. f_equal. rewrite Efx in P |- *.
    destruct C as [-> | [-> | [argv ->]]]; cbn in P; try discriminate P.
    injection P as ->. reflexivity.
Defined.

Lemma step_frame_rule_witness :
  exists st' fx,
    step spec_engine bar_open (Event (ConfigureNotify 1280)) = Some (st', fx)
    /\ timebuf st' = timebuf bar_open /\ statusbuf st' = statusbuf bar_open.
Proof.
  destruct (step spec_engine bar_open (Event (ConfigureNotify 1280)))
    as [[st' fx] | ] eqn:E; [ | discriminate E].
  exists st', fx. split; [reflexivity | ].
  destruct (step_frame_rule spec_engine bar_open st' _ fx E) as (H1 & H2 & _).
  split; assumption.
Defined.

Lemma spawn_needs_open_menu_witness :
  exists st' fx,
    step spec_engine bar_open (Event (ButtonPress 20 70)) = Some (st', fx)
    /\ Spawn [ "xdg-open"; "." ] ∈ fx
    /\ truthy (dropdown_open bar_open) = true /\ dropdown_open st' = 0.
Proof.
  destruct (step spec_engine bar_open (Event (ButtonPress 20 70)))
    as [[st' fx] | ] eqn:E; [ | vm_compute in E; discriminate E].
  assert (P : head fx = Some (Spawn [ "xdg-open"; "." ])).
  { transitivity (match step spec_engine bar_open (Event (ButtonPress 20 70)) with
                  | Some p => head (snd p)
                  | None => None
                  end); [rewrite E; reflexivity | vm_compute; reflexivity]. }
  assert (Hin : Spawn [ "xdg-open"; "." ] ∈ fx).
  { destruct fx as [ | e fx]; [discriminate P | ]. injection P as ->.
    apply list_elem_of_here. }
  exists st', fx. split; [reflexivity | split; [exact Hin | ]].
  destruct (spawn_needs_open_menu spec_engine bar_open st' _ fx _ E Hin)
    as (x & y & _ & Ho & Hc & _).
  split; assumption.
Defined.

Lemma run_spawns_bounded_witness :
  let clicks := [ Event (ButtonPress 10 10); Event (ButtonPress 20 40);
                  Event (ButtonPress 20 40) ] in
  exists st' fx,
    run spec_engine bar_closed clicks = Some (st', fx)
    /\ (2 * spawns fx <= 3)%nat.
Proof.
  intros clicks.
  destruct (run spec_engine bar_closed clicks) as [[st' fx] | ] eqn:E;
    [ | vm_compute in E; discriminate E].
  exists st', fx. split; [reflexivity | ].
  exact (run_spawns_bounded spec_engine clicks bar_closed st' fx E).
Defined.

Lemma run_keeps_invariant_witness :
  let inputs := [ Tick (list_byte_of_string "2024-01-01 00:00:00") 0 no_status;
                  Event (ButtonPress 10 10); Event Expose ] in
  exists st' fx,
    run spec_engine bar_closed inputs = Some (st', fx)
    /\ bar_ok st' /\ frame_in_sync spec_engine st'.
Proof.
  intros inputs.
  destruct (run spec_engine bar_closed inputs) as [[st' fx] | ] eqn:E;
    [ | vm_compute in E; discriminate E].
  exists st', fx. split; [reflexivity | ].
  apply (run_keeps_invariant spec_engine inputs bar_closed st' fx).
  - split; [left; reflexivity | split; [reflexivity | ]].
    apply (list_elem_of_here x00 (repeat x00 511)).
  - apply render_in_sync.
  - exact E.
Defined.

Lemma run_status_stays_empty_witness :
  let inputs := [ Tick (list_byte_of_string "2024-01-01 00:00:00") 0 no_status;
                  Event (ButtonPress 10 10);
                  Tick (list_byte_of_string "2024-01-01 00:00:01") 0 no_status ] in
  exists st' fx,
    run spec_engine bar_closed inputs = Some (st', fx)
    /\ c_str (statusbuf st') = [].
Proof.
  intros inputs.
  destruct (run spec_engine bar_closed inputs) as [[st' fx] | ] eqn:E;
    [ | vm_compute in E; discriminate E].
  exists st', fx. split; [reflexivity | ].
  assert (Ht : typed_fetch 0 no_status).
  { intros H. vm_compute in H. discriminate H. }
  destruct (run_status_stays_empty spec_engine inputs bar_closed st' fx) as [H _].
  - reflexivity.
  - apply Forall_cons. split; [exact Ht | ].
    apply Forall_cons. split; [exact I | ].
    apply Forall_cons. split; [exact Ht | ]. apply Forall_nil. exact I.
  - exact E.
  - exact H.
Defined.

Lemma step_undefined_only_by_free_witness :
  step spec_engine bar_closed
    (Tick (list_byte_of_string "2024-01-01 00:00:00") 1 xterm_status) = None.
Proof.
  apply (step_undefined_only_by_free bar_closed).
  - split; [left; reflexivity | split; [reflexivity | ]].
    apply (list_elem_of_here x00 (repeat x00 511)).
  - apply render_in_sync.
  - intros v H. vm_compute in H. injection H as <-. vm_compute. split; discriminate.
  - exists (list_byte_of_string "2024-01-01 00:00:00"), 1, xterm_status,
      (list_byte_of_string "Open xterm").
    split; [reflexivity | split; [reflexivity | split; [reflexivity | ]]].
    vm_compute. discriminate.
Defined.

(** ** Rounding at any precision *)

Section GenericRounding.
Open Scope Q_scope.

Variable p : Z.
Hypothesis Hp : (1 <= p)%Z.

Lemma fp_scaled_bounds (a : Q) :
  0 < a -> 2 ^ (p - 1) <= a / 2 ^ (F32.ilog2 a - (p - 1)) < 2 ^ p.
Proof.
  intros Ha. destruct (ilog2_spec a Ha) as [H1 H2].
  set (l := F32.ilog2 a) in *.
  pose proof (pow2_pos (l - (p - 1))) as Pe.
  assert (E1 : 2 ^ l == 2 ^ (p - 1) * 2 ^ (l - (p - 1))).
  { rewrite <- pow2_add. replace (p - 1 + (l - (p - 1)))%Z with l by lia. reflexivity. }
  assert (E2 : 2 ^ (l + 1) == 2 ^ p * 2 ^ (l - (p - 1))).
  { rewrite <- pow2_add. replace (p + (l - (p - 1)))%Z with (l + 1)%Z by lia. reflexivity. }
  split.
  - apply Qle_shift_div_l; [exact Pe | lra].
  - apply Qlt_shift_div_r; [exact Pe | lra].
Qed.

Lemma fp_rnd_pos_bounds (a : Q) :
  0 < a -> 2 ^ F32.ilog2 a <= FP.rnd_pos p a <= 2 ^ (F32.ilog2 a + 1).
Proof.
  intros Ha. destruct (fp_scaled_bounds a Ha) as [H1 H2]. unfold FP.rnd_pos.
  set (l := F32.ilog2 a) in *.
  set (e := (l - (p - 1))%Z) in *.
  pose proof (pow2_pos e) as Pe.
  assert (E1 : 2 ^ l == 2 ^ (p - 1) * 2 ^ e).
  { rewrite <- pow2_add. replace (p - 1 + e)%Z with l by lia. reflexivity. }
  assert (E2 : 2 ^ (l + 1) == 2 ^ p * 2 ^ e).
  { rewrite <- pow2_add. replace (p + e)%Z with (l + 1)%Z by lia. reflexivity. }
  assert (M1 : (2 ^ (p - 1) <= F32.round_half_even (a / 2 ^ e))%Z).
  { apply round_half_even_ge. rewrite pow2_inject by lia. exact H1. }
  assert (M2 : (F32.round_half_even (a / 2 ^ e) <= 2 ^ p)%Z).
  { apply round_half_even_le. rewrite pow2_inject by lia. apply Qlt_le_weak. exact H2. }
  rewrite Zle_Qle in M1, M2.
  rewrite pow2_inject in M1 by lia. rewrite pow2_inject in M2 by lia.
  rewrite E1, E2. split; apply Qmult_le_compat_r; lra.
Qed.

Lemma fp_rnd_pos_mono (a b : Q) : 0 < a -> a <= b -> FP.rnd_pos p a <= FP.rnd_pos p b.
Proof.
  intros Ha Hab. pose proof (ilog2_mono a b Ha Hab) as Hl.
  destruct (Z.eq_dec (F32.ilog2 a) (F32.ilog2 b)) as [E | NE].
  - unfold FP.rnd_pos. rewrite E. set (e := (F32.ilog2 b - (p - 1))%Z).
    pose proof (pow2_pos e) as Pe.
    apply Qmult_le_compat_r; [ | lra].
    rewrite <- Zle_Qle. apply round_half_even_mono.
    apply Qmult_le_compat_r; [exact Hab | ].
    apply Qlt_le_weak, Qinv_lt_0_compat, Pe.
  - destruct (fp_rnd_pos_bounds a Ha) as [_ H1].
    destruct (fp_rnd_pos_bounds b) as [H2 _]; [lra | ].
    assert (H3 : 2 ^ (F32.ilog2 a + 1) <= 2 ^ F32.ilog2 b) by (apply pow2_le; lia).
    lra.
Qed.

Lemma fp_rnd_pos_pos (a : Q) : 0 < a -> 0 < FP.rnd_pos p a.
Proof.
  intros Ha. destruct (fp_rnd_pos_bounds a Ha) as [H _].
  pose proof (pow2_pos (F32.ilog2 a)). lra.
Qed.

Lemma fp_rnd_case (q : Q) :
  (q == 0 /\ FP.rnd p q = 0) \/ (0 < q /\ FP.rnd p q == FP.rnd_pos p q) \/
  (q < 0 /\ FP.rnd p q == - FP.rnd_pos p (- q)).
Proof.
  unfold FP.rnd. destruct (q ?= 0) eqn:C.
  - left. apply Qeq_alt in C. split; [exact C | reflexivity].
  - right; right. apply Qlt_alt in C. split; [exact C | apply Qred_correct].
  - right; left. apply Qgt_alt in C. split; [exact C | apply Qred_correct].
Qed.

Lemma fp_rnd_mono (a b : Q) : a <= b -> FP.rnd p a <= FP.rnd p b.
Proof.
  intros Hab.
  destruct (fp_rnd_case a) as [[Ha Ea] | [[Ha Ea] | [Ha Ea]]];
  destruct (fp_rnd_case b) as [[Hb Eb] | [[Hb Eb] | [Hb Eb]]];
  rewrite ?Ea, ?Eb; try lra.
  - pose proof (fp_rnd_pos_pos b Hb). lra.
  - apply fp_rnd_pos_mono; assumption.
  - assert (H : 0 < FP.rnd_pos p (- a)) by (apply fp_rnd_pos_pos; lra). lra.
  - assert (H : 0 < FP.rnd_pos p (- a)) by (apply fp_rnd_pos_pos; lra).
    pose proof (fp_rnd_pos_pos b Hb). lra.
  - assert (H : FP.rnd_pos p (- b) <= FP.rnd_pos p (- a)) by (apply fp_rnd_pos_mono; lra).
    lra.
Qed.

Lemma fp_rnd_comp (a b : Q) : a == b -> FP.rnd p a == FP.rnd p b.
Proof.
  intros E. apply Qle_antisym; apply fp_rnd_mono; rewrite E; apply Qle_refl.
Qed.

(** A value [m * 2^k] with at most [p] significant bits is kept. *)
Lemma fp_rnd_pos_exact (m k : Z) :
  (0 < m < 2 ^ p)%Z -> FP.rnd_pos p (inject_Z m * 2 ^ k) == inject_Z m * 2 ^ k.
Proof.
  intros [Hm0 Hm].
  set (q := inject_Z m * 2 ^ k).
  pose proof (pow2_pos k) as Pk.
  assert (Hq : 0 < q).
  { unfold q. apply Qmult_lt_0_compat; [ | exact Pk].
    change 0 with (inject_Z 0). rewrite <- Zlt_Qlt. exact Hm0. }
  destruct (ilog2_spec q Hq) as [Hl _].
  assert (Hlt : q < 2 ^ (p + k)).
  { unfold q. rewrite pow2_add. apply Qmult_lt_compat_r; [exact Pk | ].
    rewrite <- pow2_inject by lia. rewrite <- Zlt_Qlt. exact Hm. }
  assert (He : (F32.ilog2 q < p + k)%Z) by (apply pow2_lt_inv; lra).
  unfold FP.rnd_pos. set (e := (F32.ilog2 q - (p - 1))%Z).
  assert (Hke : (0 <= k - e)%Z) by (unfold e; lia).
  assert (Hs : q / 2 ^ e == inject_Z (m * 2 ^ (k - e))).
  { rewrite inject_Z_mult, pow2_inject by exact Hke.
    unfold q. replace k with ((k - e) + e)%Z at 1 by lia.
    rewrite pow2_add. field. pose proof (pow2_pos e). lra. }
  rewrite Hs, round_half_even_Z.
  rewrite inject_Z_mult, pow2_inject by exact Hke.
  unfold q. replace k with ((k - e) + e)%Z at 2 by lia.
  rewrite pow2_add. ring.
Qed.

Lemma fp_rnd_opp (q : Q) : FP.rnd p (- q) == - FP.rnd p q.
Proof.
  destruct (fp_rnd_case q) as [[Hq E] | [[Hq E] | [Hq E]]];
  destruct (fp_rnd_case (- q)) as [[Hq' E'] | [[Hq' E'] | [Hq' E']]];
  try (exfalso; lra); rewrite E, E'.
  - reflexivity.
  - assert (X : FP.rnd_pos p (- - q) == FP.rnd_pos p q).
    { apply Qle_antisym; apply fp_rnd_pos_mono; lra. }
    rewrite X. reflexivity.
  - ring.
Qed.

Lemma fp_rnd_exact (m k : Z) :
  (Z.abs m < 2 ^ p)%Z -> FP.rnd p (inject_Z m * 2 ^ k) == inject_Z m * 2 ^ k.
Proof.
  intros Hm. pose proof (pow2_pos k) as Pk.
  destruct (Z.lt_trichotomy m 0) as [Hneg | [H0 | Hpos]].
  - assert (E : inject_Z m * 2 ^ k == - (inject_Z (- m) * 2 ^ k)).
    { rewrite inject_Z_opp. ring. }
    rewrite (fp_rnd_comp _ _ E), fp_rnd_opp, E. apply Qopp_comp.
    assert (P : 0 < inject_Z (- m) * 2 ^ k).
    { apply Qmult_lt_0_compat; [ | exact Pk].
      change 0 with (inject_Z 0). rewrite <- Zlt_Qlt. lia. }
    destruct (fp_rnd_case (inject_Z (- m) * 2 ^ k)) as [[Hq _] | [[_ Eq] | [Hq _]]]; try lra.
    rewrite Eq. apply fp_rnd_pos_exact. lia.
  - subst m. assert (E : inject_Z 0 * 2 ^ k == 0) by ring.
    rewrite (fp_rnd_comp _ _ E), E. reflexivity.
  - assert (P : 0 < inject_Z m * 2 ^ k).
    { apply Qmult_lt_0_compat; [ | exact Pk].
      change 0 with (inject_Z 0). rewrite <- Zlt_Qlt. lia. }
    destruct (fp_rnd_case (inject_Z m * 2 ^ k)) as [[Hq _] | [[_ Eq] | [Hq _]]]; try lra.
    rewrite Eq. apply fp_rnd_pos_exact. lia.
Qed.

Lemma fp_rnd_inject_Z (z : Z) : (Z.abs z < 2 ^ p)%Z -> FP.rnd p (inject_Z z) == inject_Z z.
Proof.
  intros Hz.
  assert (E : inject_Z z == inject_Z z * 2 ^ 0) by (change (2 ^ 0) with 1; ring).
  rewrite (fp_rnd_comp _ _ E), fp_rnd_exact by exact Hz. symmetry. exact E.
Qed.

End GenericRounding.

(** [F32.rnd] is the rounding at precision 24. *)
Lemma F32_rnd_FP (q : Q) : F32.rnd q = FP.rnd 24 q.
Proof. reflexivity. Qed.

(** ** [double] arithmetic *)

Section Double.
Open Scope Q_scope.

Lemma f64_mono (a b : Q) : a <= b -> F64.rnd a <= F64.rnd b.
Proof. apply fp_rnd_mono. discriminate. Qed.

Lemma f64_comp (a b : Q) : a == b -> F64.rnd a == F64.rnd b.
Proof. apply fp_rnd_comp. discriminate. Qed.

(** The dyadic rationals with at most 53 significant bits are values
    of [double]. *)
Lemma f64_dyadic (c : Q) (m k : Z) :
  c == inject_Z m * 2 ^ k -> (Z.abs m < 2 ^ 53)%Z -> F64.rnd c == c.
Proof.
  intros E Hm. rewrite (f64_comp _ _ E), E. apply fp_rnd_exact; [discriminate | exact Hm].
Qed.

Lemma f64_of_int_exact (z : Z) : (Z.abs z < 2 ^ 53)%Z -> F64.of_int z == inject_Z z.
Proof. intros H. apply fp_rnd_inject_Z; [discriminate | exact H]. Qed.

Lemma f64_le (q c : Q) (m k : Z) :
  c == inject_Z m * 2 ^ k -> (Z.abs m < 2 ^ 53)%Z -> q <= c -> F64.rnd q <= c.
Proof.
  intros E Hm H. rewrite <- (f64_dyadic c m k E Hm). apply f64_mono. exact H.
Qed.

Lemma f64_ge (q c : Q) (m k : Z) :
  c == inject_Z m * 2 ^ k -> (Z.abs m < 2 ^ 53)%Z -> c <= q -> c <= F64.rnd q.
Proof.
  intros E Hm H. rewrite <- (f64_dyadic c m k E Hm). apply f64_mono. exact H.
Qed.

Lemma f64_le_Z (q : Q) (z : Z) :
  (Z.abs z < 2 ^ 53)%Z -> q <= inject_Z z -> F64.rnd q <= inject_Z z.
Proof.
  intros Hz. apply (f64_le q (inject_Z z) z 0); [ | exact Hz].
  change (2 ^ 0) with 1. ring.
Qed.

Lemma f64_ge_Z (q : Q) (z : Z) :
  (Z.abs z < 2 ^ 53)%Z -> inject_Z z <= q -> inject_Z z <= F64.rnd q.
Proof.
  intros Hz. apply (f64_ge q (inject_Z z) z 0); [ | exact Hz].
  change (2 ^ 0) with 1. ring.
Qed.

End Double.

(** ** The refresh timer *)

Ltac timer_side :=
  solve [ assumption | lia | vm_compute; reflexivity
        | vm_compute; let H := fresh in intros H; discriminate H ].

Section Timer.
Open Scope Q_scope.

Lemma Qlt_bool_true (a b : Q) : a < b -> Qlt_bool a b = true.
Proof.
  intros H. unfold Qlt_bool. destruct (Qle_bool b a) eqn:E; [ | reflexivity].
  apply Qle_bool_iff in E. lra.
Qed.

Lemma Qlt_bool_false (a b : Q) : b <= a -> Qlt_bool a b = false.
Proof.
  intros H. unfold Qlt_bool. apply Qle_bool_iff in H. rewrite H. reflexivity.
Qed.

Lemma Qle_bool_true (a b : Q) : a <= b -> Qle_bool a b = true.
Proof. apply Qle_bool_iff. Qed.

Lemma Qle_bool_false (a b : Q) : b < a -> Qle_bool a b = false.
Proof.
  intros H. destruct (Qle_bool a b) eqn:E; [ | reflexivity].
  apply Qle_bool_iff in E. lra.
Qed.

Lemma long_ok (z : Z) : (LONG_MIN <= z <= LONG_MAX)%Z -> long z = Some z.
Proof.
  intros [H1 H2]. unfold long.
  destruct (Z.leb_spec LONG_MIN z); [ | lia].
  destruct (Z.leb_spec z LONG_MAX); [ | lia]. reflexivity.
Qed.

(** The nanosecond part of the difference, divided in [double], against
    a [double] constant [c]. *)
Lemma nsec_ratio_ge (dn k m e : Z) (c : Q) :
  (Z.abs dn < 2 ^ 53)%Z -> (k <= dn)%Z -> c * 1000000000 <= inject_Z k ->
  c == inject_Z m * 2 ^ e -> (Z.abs m < 2 ^ 53)%Z ->
  c <= F64.div (F64.of_int dn) 1000000000.
Proof.
  intros Hdn Hk Hc E Hm. unfold F64.div.
  assert (X : F64.of_int dn / 1000000000 == inject_Z dn / 1000000000)
    by (rewrite (f64_of_int_exact dn Hdn); reflexivity).
  rewrite (f64_comp _ _ X). apply (f64_ge _ c m e E Hm).
  rewrite Zle_Qle in Hk. unfold Qdiv. change (/ 1000000000) with (1 # 1000000000).
  lra.
Qed.

Lemma nsec_ratio_le (dn k m e : Z) (c : Q) :
  (Z.abs dn < 2 ^ 53)%Z -> (dn <= k)%Z -> inject_Z k <= c * 1000000000 ->
  c == inject_Z m * 2 ^ e -> (Z.abs m < 2 ^ 53)%Z ->
  F64.div (F64.of_int dn) 1000000000 <= c.
Proof.
  intros Hdn Hk Hc E Hm. unfold F64.div.
  assert (X : F64.of_int dn / 1000000000 == inject_Z dn / 1000000000)
    by (rewrite (f64_of_int_exact dn Hdn); reflexivity).
  rewrite (f64_comp _ _ X). apply (f64_le _ c m e E Hm).
  rewrite Zle_Qle in Hk. unfold Qdiv. change (/ 1000000000) with (1 # 1000000000).
  lra.
Qed.

Lemma of_int_ge (z k : Z) :
  (Z.abs k < 2 ^ 53)%Z -> (k <= z)%Z -> inject_Z k <= F64.of_int z.
Proof. intros Hk H. apply f64_ge_Z; [exact Hk | ]. rewrite <- Zle_Qle. exact H. Qed.

Lemma of_int_le (z k : Z) :
  (Z.abs k < 2 ^ 53)%Z -> (z <= k)%Z -> F64.of_int z <= inject_Z k.
Proof. intros Hk H. apply f64_le_Z; [exact Hk | ]. rewrite <- Zle_Qle. exact H. Qed.

Lemma elapsed_defined (now last : timespec) :
  timespec_ok now -> timespec_ok last ->
  elapsed now last
  = Some (F64.add (F64.of_int (tv_sec now - tv_sec last))
            (F64.div (F64.of_int (tv_nsec now - tv_nsec last)) 1000000000)).
Proof.
  intros [[S1 S2] [N1 N2]] [[S3 S4] [N3 N4]]. unfold elapsed.
  rewrite !long_ok by (unfold LONG_MIN, LONG_MAX in *; lia). reflexivity.
Qed.


(** Bounds on [elapsed] from bounds on the two differences, through
    [double] constants. *)
Lemma elapsed_ge (ds dn s k m1 e1 m e : Z) (c1 c : Q) :
  (Z.abs dn < 2 ^ 53)%Z -> (Z.abs s < 2 ^ 53)%Z ->
  (s <= ds)%Z -> (k <= dn)%Z -> c1 * 1000000000 <= inject_Z k ->
  c1 == inject_Z m1 * 2 ^ e1 -> (Z.abs m1 < 2 ^ 53)%Z ->
  c == inject_Z m * 2 ^ e -> (Z.abs m < 2 ^ 53)%Z ->
  c <= inject_Z s + c1 ->
  c <= F64.add (F64.of_int ds) (F64.div (F64.of_int dn) 1000000000).
Proof.
  intros Hdn Hs Hds Hk Hc1 E1 Hm1 E Hm Hc.
  pose proof (of_int_ge ds s Hs Hds) as A.
  pose proof (nsec_ratio_ge dn k m1 e1 c1 Hdn Hk Hc1 E1 Hm1) as B.
  unfold F64.add. apply (f64_ge _ c m e E Hm). lra.
Qed.

Lemma elapsed_le (ds dn s k m1 e1 m e : Z) (c1 c : Q) :
  (Z.abs dn < 2 ^ 53)%Z -> (Z.abs s < 2 ^ 53)%Z ->
  (ds <= s)%Z -> (dn <= k)%Z -> inject_Z k <= c1 * 1000000000 ->
  c1 == inject_Z m1 * 2 ^ e1 -> (Z.abs m1 < 2 ^ 53)%Z ->
  c == inject_Z m * 2 ^ e -> (Z.abs m < 2 ^ 53)%Z ->
  inject_Z s + c1 <= c ->
  F64.add (F64.of_int ds) (F64.div (F64.of_int dn) 1000000000) <= c.
Proof.
  intros Hdn Hs Hds Hk Hc1 E1 Hm1 E Hm Hc.
  pose proof (of_int_le ds s Hs Hds) as A.
  pose proof (nsec_ratio_le dn k m1 e1 c1 Hdn Hk Hc1 E1 Hm1) as B.
  unfold F64.add. apply (f64_le _ c m e E Hm). lra.
Qed.

(** X15. The periodic refresh of the bar is due exactly when more than
    half a second has passed between the two clock readings: the
    [double] computation of [elapsed] never misjudges the comparison
    with 0.5, whatever the readings. *)
Theorem refresh_due_exact (now last : timespec) :
  timespec_ok now -> timespec_ok last ->
  refresh_due now last
  = Some (500000000 <? nanoseconds now - nanoseconds last)%Z.
Proof.
  intros Hnow Hlast. unfold refresh_due.
  rewrite (elapsed_defined now last Hnow Hlast). cbn [mbind option_bind]. f_equal.
  destruct Hnow as [[S1 S2] [N1 N2]], Hlast as [[S3 S4] [N3 N4]].
  unfold nanoseconds.
  set (ds := (tv_sec now - tv_sec last)%Z).
  set (dn := (tv_nsec now - tv_nsec last)%Z).
  assert (Hdn : (- 999999999 <= dn <= 999999999)%Z) by (unfold dn; lia).
  assert (Adn : (Z.abs dn < 2 ^ 53)%Z) by lia.
  replace (tv_sec now * 1000000000 + tv_nsec now
           - (tv_sec last * 1000000000 + tv_nsec last))%Z
    with (ds * 1000000000 + dn)%Z by (unfold ds, dn; ring).
  destruct (Z.ltb_spec 500000000 (ds * 1000000000 + dn)) as [Due | NotDue].
  - apply Qlt_bool_true.
    destruct (Z_le_gt_dec 2%Z ds) as [D2 | D2].
    + assert (B : 1 <= F64.add (F64.of_int ds) (F64.div (F64.of_int dn) 1000000000)).
      { apply (elapsed_ge ds dn 2 (- 999999999) (- 1) 0 1 0 (- 1) 1); timer_side. }
      lra.
    + destruct (Z.eq_dec ds 1%Z) as [D1 | D1].
      * assert (B : 536870913 # 1073741824
                    <= F64.add (F64.of_int ds) (F64.div (F64.of_int dn) 1000000000)).
        { apply (elapsed_ge ds dn 1 (- 499999999) (- 536870911) (- 30)
                   536870913 (- 30) (- 536870911 # 1073741824)); timer_side. }
        assert (C : 1 # 2 < 536870913 # 1073741824) by reflexivity. lra.
      * assert (D0 : ds = 0%Z) by lia.
        assert (B : 536870913 # 1073741824
                    <= F64.add (F64.of_int ds) (F64.div (F64.of_int dn) 1000000000)).
        { apply (elapsed_ge ds dn 0 500000001 536870913 (- 30)
                   536870913 (- 30) (536870913 # 1073741824)); timer_side. }
        assert (C : 1 # 2 < 536870913 # 1073741824) by reflexivity. lra.
  - apply Qlt_bool_false.
    destruct (Z_le_gt_dec ds (- 1)%Z) as [D2 | D2].
    + assert (B : F64.add (F64.of_int ds) (F64.div (F64.of_int dn) 1000000000) <= 0).
      { apply (elapsed_le ds dn (- 1) 999999999 1 0 0 0 1); timer_side. }
      lra.
    + destruct (Z.eq_dec ds 0%Z) as [D0 | D0].
      * apply (elapsed_le ds dn 0 500000000 1 (- 1) 1 (- 1) (1 # 2)); timer_side.
      * assert (D1 : ds = 1%Z) by lia.
        apply (elapsed_le ds dn 1 (- 500000000) (- 1) (- 1) 1 (- 1) (- 1 # 2));
          timer_side.
Qed.

End Timer.

(** ** Agreement with the Standard Library's IEEE 754 binary64 on sample
    operations of the timer *)

Section Binary64.

Example nsec_ratio_agrees :
  (F64.div (F64.of_int 500000001) 1000000000
   == SF2Q (SFdiv 53 1024 (binary64_of_Z 500000001) (binary64_of_Z 1000000000)))%Q
  /\ (F64.div (F64.of_int (- 499999999)) 1000000000
      == SF2Q (SFdiv 53 1024 (binary64_of_Z (- 499999999))
                 (binary64_of_Z 1000000000)))%Q.
Proof. vm_compute. split; reflexivity. Qed.

Example elapsed_agrees :
  (F64.add (F64.of_int 1) (F64.div (F64.of_int (- 499999999)) 1000000000)
   == SF2Q (SFadd 53 1024 (binary64_of_Z 1)
              (SFdiv 53 1024 (binary64_of_Z (- 499999999))
                 (binary64_of_Z 1000000000))))%Q
  /\ (F64.add (F64.of_int 59) (F64.div (F64.of_int 999999999) 1000000000)
      == SF2Q (SFadd 53 1024 (binary64_of_Z 59)
                 (SFdiv 53 1024 (binary64_of_Z 999999999)
                    (binary64_of_Z 1000000000))))%Q.
Proof. vm_compute. split; reflexivity. Qed.

Example of_int_rounds_to_double :
  (F64.of_int (2 ^ 53 + 1) == SF2Q (binary64_of_Z (2 ^ 53 + 1)))%Q
  /\ (F64.of_int (2 ^ 62 - 1) == SF2Q (binary64_of_Z (2 ^ 62 - 1)))%Q.
Proof. vm_compute. split; reflexivity. Qed.

End Binary64.

Lemma refresh_due_exact_witness :
  refresh_due {| tv_sec := 12; tv_nsec := 100000000 |}
              {| tv_sec := 11; tv_nsec := 600000000 |} = Some false
  /\ refresh_due {| tv_sec := 12; tv_nsec := 100000001 |}
                 {| tv_sec := 11; tv_nsec := 600000000 |} = Some true.
Proof.
  split.
  - rewrite refresh_due_exact; [reflexivity | | ]; unfold timespec_ok, LONG_MAX; cbn; lia.
  - rewrite refresh_due_exact; [reflexivity | | ]; unfold timespec_ok, LONG_MAX; cbn; lia.
Defined.

(** ** The range of the measured width *)

Section MeasureRange.
Open Scope Q_scope.

Lemma rnd_pow2 (k : Z) : F32.rnd (2 ^ k) == 2 ^ k.
Proof.
  assert (E : 2 ^ k == inject_Z 1 * 2 ^ k) by (change (inject_Z 1) with 1; ring).
  rewrite E at 1. rewrite rnd_exact by (vm_compute; reflexivity). symmetry. exact E.
Qed.

(** Rounding keeps a value inside a binade-aligned interval. *)
Lemma rnd_between (q : Q) (a b : Z) :
  2 ^ a <= q <= 2 ^ b -> 2 ^ a <= F32.rnd q <= 2 ^ b.
Proof.
  intros [H1 H2]. split.
  - rewrite <- (rnd_pow2 a). apply rnd_mono. exact H1.
  - rewrite <- (rnd_pow2 b). apply rnd_mono. exact H2.
Qed.

Lemma rnd_zero (q : Q) : q == 0 -> F32.rnd q == 0.
Proof. intros E. rewrite E. reflexivity. Qed.

(** An unsigned 16-bit integer, converted to [float], is itself: zero,
    or between 1 and [2^16]. *)
Lemma of_int_uint16 (n : N) :
  uint16 n ->
  F32.of_int (Z.of_N n) == inject_Z (Z.of_N n)
  /\ (F32.of_int (Z.of_N n) == 0 \/ 2 ^ 0 <= F32.of_int (Z.of_N n) <= 2 ^ 16).
Proof.
  intros Hn. unfold uint16 in Hn.
  assert (E : F32.of_int (Z.of_N n) == inject_Z (Z.of_N n)).
  { apply of_int_exact. lia. }
  split; [exact E | ]. rewrite E.
  destruct (N.eq_dec n 0%N) as [-> | NZ]; [left; reflexivity | right].
  change (2 ^ 0) with (inject_Z 1). change (2 ^ 16) with (inject_Z 65536).
  rewrite <- !Zle_Qle. lia.
Qed.

Lemma mul_range (x y : Q) (a b c d : Z) :
  (x == 0 \/ 2 ^ a <= x <= 2 ^ b) -> (y == 0 \/ 2 ^ c <= y <= 2 ^ d) ->
  F32.mul x y == 0 \/ 2 ^ (a + c) <= F32.mul x y <= 2 ^ (b + d).
Proof.
  intros [X0 | [X1 X2]] [Y0 | [Y1 Y2]]; unfold F32.mul.
  - left. apply rnd_zero. rewrite X0. ring.
  - left. apply rnd_zero. rewrite X0. ring.
  - left. apply rnd_zero. rewrite Y0. ring.
  - right. apply rnd_between. rewrite !pow2_add.
    pose proof (pow2_pos a). pose proof (pow2_pos c).
    split; apply Qmult_le_compat_nonneg; split; lra.
Qed.


Lemma add_range (x y : Q) (a b c d e : Z) :
  (x == 0 \/ 2 ^ a <= x <= 2 ^ b) -> (y == 0 \/ 2 ^ c <= y <= 2 ^ d) ->
  (e <= a)%Z -> (e <= c)%Z ->
  F32.add x y == 0 \/ 2 ^ e <= F32.add x y <= 2 ^ (Z.max b d + 1).
Proof.
  intros Hx Hy Ha Hc. unfold F32.add.
  pose proof (pow2_le e a Ha) as Pa. pose proof (pow2_le e c Hc) as Pc.
  pose proof (pow2_le b (Z.max b d) (Z.le_max_l b d)) as Pb.
  pose proof (pow2_le d (Z.max b d) (Z.le_max_r b d)) as Pd.
  pose proof (pow2_succ (Z.max b d)) as Ps.
  pose proof (pow2_pos e) as Pe. pose proof (pow2_pos (Z.max b d)) as Pm.
  destruct Hx as [X0 | [X1 X2]], Hy as [Y0 | [Y1 Y2]].
  - left. apply rnd_zero. rewrite X0, Y0. reflexivity.
  - right. apply rnd_between. rewrite X0. lra.
  - right. apply rnd_between. rewrite Y0. lra.
  - right. apply rnd_between. lra.
Qed.

Lemma of_int_length_range (len : Z) :
  (0 <= len <= F32.INT_MAX)%Z ->
  F32.of_int len == 0 \/ 2 ^ 0 <= F32.of_int len <= 2 ^ 31.
Proof.
  intros [H0 H1]. destruct (Z.eq_dec len 0%Z) as [-> | NZ]; [left; reflexivity | right].
  split.
  - change (2 ^ 0) with (F32.of_int 1). apply of_int_mono. lia.
  - assert (E : 2 ^ 31 == F32.of_int (2 ^ 31)) by (vm_compute; reflexivity).
    rewrite E. apply of_int_mono. unfold F32.INT_MAX in H1. lia.
Qed.

(** X16. The width [measure_text_fn] returns is zero or lies between 1/2
    and [2^48], for every length an [int] can hold and every 16-bit
    font size and letter spacing: no operation overflows binary32 or
    produces a subnormal, so the rounding of each operation is the
    IEEE 754 one.  The height is the font size, exactly. *)
Theorem measure_text_fn_in_range (s : Clay_StringSlice)
    (cfg : option Clay_TextElementConfig) (userData : Z) :
  (0 <= ss_length s <= F32.INT_MAX)%Z ->
  (forall c, cfg = Some c -> uint16 (fontSize c) /\ uint16 (letterSpacing c)) ->
  let d := measure_text_fn s cfg userData in
  (dim_width d == 0 \/ 1 # 2 <= dim_width d <= 2 ^ 48)
  /\ dim_height d == inject_Z match cfg with
                              | Some c => Z.of_N (fontSize c)
                              | None => 12
                              end.
Proof.
  intros Hlen Hcfg. cbn zeta. unfold measure_text_fn. cbn [dim_width dim_height].
  assert (Hc55 : F32.rnd (55 # 100) == 0 \/ 2 ^ (- 1) <= F32.rnd (55 # 100) <= 2 ^ 0).
  { right. vm_compute. split; discriminate. }
  assert (Hfs : (match cfg with
                 | Some c => F32.of_int (Z.of_N (fontSize c))
                 | None => 12
                 end == 0
                \/ 2 ^ 0 <= match cfg with
                            | Some c => F32.of_int (Z.of_N (fontSize c))
                            | None => 12
                            end <= 2 ^ 16)
                /\ match cfg with
                   | Some c => F32.of_int (Z.of_N (fontSize c))
                   | None => 12
                   end == inject_Z match cfg with
                                   | Some c => Z.of_N (fontSize c)
                                   | None => 12
                                   end).
  { destruct cfg as [c | ].
    - destruct (Hcfg c eq_refl) as [Hf _].
      destruct (of_int_uint16 _ Hf) as [E R]. split; [exact R | exact E].
    - split; [right; vm_compute; split; discriminate | reflexivity]. }
  destruct Hfs as [Rfs Efs].
  assert (Hls : F32.of_int match cfg with
                           | Some c => Z.of_N (letterSpacing c)
                           | None => 0
                           end == 0
                \/ 2 ^ 0 <= F32.of_int match cfg with
                                       | Some c => Z.of_N (letterSpacing c)
                                       | None => 0
                                       end <= 2 ^ 16).
  { destruct cfg as [c | ].
    - destruct (Hcfg c eq_refl) as [_ Hl]. apply (of_int_uint16 _ Hl).
    - left. reflexivity. }
  split.
  - pose proof (mul_range _ _ _ _ _ _ Rfs Hc55) as R1.
    pose proof (mul_range _ _ _ _ _ _ (of_int_length_range _ Hlen) R1) as R2.
    pose proof (add_range _ _ _ _ _ _ (- 1) R2 Hls) as R3.
    cbn [Z.add Z.max Z.compare Pos.compare Pos.compare_cont Z.pos_sub Pos.add
         Pos.succ Pos.pred_double Z.opp Z.succ_double Z.pred_double Z.double] in R3.
    destruct R3 as [Z0 | R3]; [lia | lia | left; exact Z0 | right].
    change (1 # 2) with (2 ^ (- 1)). exact R3.
  - destruct cfg as [c | ]; exact Efs.
Qed.

End MeasureRange.

Lemma measure_text_fn_in_range_witness :
  let d := measure_text_fn (slice_of "Open xterm") (Some (text_config 220 220 220)) 0 in
  (dim_width d == 0 \/ 1 # 2 <= dim_width d <= 2 ^ 48)%Q
  /\ (dim_height d == inject_Z 12)%Q.
Proof.
  apply (measure_text_fn_in_range (slice_of "Open xterm")
           (Some (text_config 220 220 220)) 0).
  - vm_compute. split; discriminate.
  - intros c [= <-]. vm_compute. split; reflexivity.
Defined.

(** * Properties of the shaped clock *)

(** ** The loops of [create_mask_from_a8] *)

Section ClockLoops.

Lemma for_each_seqZ_inv {St : Type} (body : Z -> St -> option St)
    (I : Z -> St -> Prop) (k : nat) (m : Z) (s : St) :
  I m s ->
  (forall i s, m <= i < m + Z.of_nat k -> I i s ->
               exists s', body i s = Some s' /\ I (i + 1) s') ->
  exists s', Clock.for_each (seqZ m (Z.of_nat k)) body s = Some s'
             /\ I (m + Z.of_nat k) s'.
Proof.
  revert m s. induction k as [ | k IH]; intros m s Hs Hbody.
  - exists s. split; [reflexivity | ]. replace (m + Z.of_nat 0) with m by lia. exact Hs.
  - rewrite seqZ_cons by lia. cbn [Clock.for_each].
    destruct (Hbody m s) as (s1 & E1 & H1); [lia | exact Hs | ].
    rewrite E1. cbn [mbind option_bind].
    replace (Z.pred (Z.of_nat (S k))) with (Z.of_nat k) by lia.
    destruct (IH (Z.succ m) s1) as (s2 & E2 & H2).
    + replace (Z.succ m) with (m + 1) by lia. exact H1.
    + intros i s' Hi. apply Hbody. lia.
    + exists s2. split; [exact E2 | ].
      replace (m + Z.of_nat (S k)) with (Z.succ m + Z.of_nat k) by lia. exact H2.
Qed.

(** The rule of the [for] loop: an invariant that holds at 0 and is kept
    by every iteration holds at the bound, and the loop is defined. *)
Lemma for_int_inv {St : Type} (n : Z) (body : Z -> St -> option St)
    (I : Z -> St -> Prop) (s : St) :
  0 <= n -> I 0 s ->
  (forall i s, 0 <= i < n -> I i s -> exists s', body i s = Some s' /\ I (i + 1) s') ->
  exists s', Clock.for_int n body s = Some s' /\ I n s'.
Proof.
  intros Hn Hs Hbody. unfold Clock.for_int.
  destruct (for_each_seqZ_inv body I (Z.to_nat n) 0 s Hs) as (s' & E & H).
  - intros i s0 Hi. apply Hbody. lia.
  - rewrite Z2Nat.id in E, H by lia. exists s'. split; [exact E | exact H].
Qed.

Lemma int_ok (z : Z) : F32.INT_MIN <= z <= F32.INT_MAX -> Clock.int z = Some z.
Proof.
  intros [H1 H2]. unfold Clock.int.
  destruct (Z.leb_spec F32.INT_MIN z); [ | lia].
  destruct (Z.leb_spec z F32.INT_MAX); [ | lia]. reflexivity.
Qed.

Lemma load_ok (buf : list Z) (i : Z) :
  0 <= i < Z.of_nat (List.length buf) ->
  Clock.load buf i = Some (nth (Z.to_nat i) buf 0).
Proof.
  intros [H0 H1]. unfold Clock.load. destruct (Z.leb_spec 0 i); [ | lia].
  destruct (lookup_lt_is_Some_2 buf (Z.to_nat i)) as [v Hv]; [lia | ].
  rewrite Hv. f_equal. symmetry. apply nth_lookup_Some. exact Hv.
Qed.

(** Division of a byte index into its row and its place in the row. *)
Lemma index_row (n y j : Z) :
  0 <= j < n -> (y * n + j) / n = y /\ (y * n + j) mod n = j.
Proof.
  intros Hj. split.
  - symmetry. apply (Z.div_unique (y * n + j) n y j); [left; exact Hj | lia].
  - symmetry. apply (Z.mod_unique (y * n + j) n y j); [left; exact Hj | lia].
Qed.

Lemma index_split (n h i : Z) :
  0 < n -> 0 <= i < n * h ->
  i = (i / n) * n + i mod n /\ 0 <= i mod n < n /\ 0 <= i / n < h.
Proof.
  intros Hn Hi. pose proof (Z.div_mod i n ltac:(lia)) as E.
  pose proof (Z.mod_pos_bound i n Hn) as M.
  split; [lia | split; [exact M | ]]. split.
  - apply Z.div_pos; lia.
  - apply Z.div_lt_upper_bound; lia.
Qed.

Lemma bytes_per_row_bound (w x : Z) : 0 <= x < w -> 0 <= x / 8 < (w + 7) / 8.
Proof.
  intros Hx. split; [apply Z.div_pos; lia | ].
  pose proof (Z.div_mod x 8 ltac:(lia)) as E1. pose proof (Z.mod_pos_bound x 8 ltac:(lia)).
  pose proof (Z.div_mod (w + 7) 8 ltac:(lia)) as E2.
  pose proof (Z.mod_pos_bound (w + 7) 8 ltac:(lia)). lia.
Qed.

Lemma bytes_per_row_covers (w : Z) : 0 < w -> w <= 8 * ((w + 7) / 8) /\ 0 < (w + 7) / 8.
Proof.
  intros Hw. pose proof (Z.div_mod (w + 7) 8 ltac:(lia)) as E.
  pose proof (Z.mod_pos_bound (w + 7) 8 ltac:(lia)). lia.
Qed.

End ClockLoops.

Section MaskPacking.

Variable surf : Clock.A8.
Variables w h : Z.
Hypothesis Hw : 0 < w.
Hypothesis Hh : 0 < h.
Hypothesis Hok : Clock.a8_ok surf w h.
Hypothesis Hsize : (w + 7) / 8 * h <= F32.INT_MAX.

Local Abbreviation bpr := ((w + 7) / 8).

Ltac bool_cases :=
  repeat match goal with
         | |- context [(?a <? ?b)] => destruct (Z.ltb_spec a b)
         | |- context [(?a =? ?b)] => destruct (Z.eqb_spec a b)
         end;
  cbn [andb orb negb]; try reflexivity; try lia.

Lemma packed_init :
  Clock.packed surf w h bpr 0 0 (replicate (Z.to_nat (bpr * h)) 0).
Proof.
  destruct (bytes_per_row_covers w Hw) as [_ Hb].
  split.
  - rewrite length_replicate. apply Z2Nat.id. apply Z.mul_nonneg_nonneg; lia.
  - intros i b Hi Hb0.
    destruct (index_split bpr h i Hb Hi) as (_ & Hj & Hy).
    assert (E : nth (Z.to_nat i) (replicate (Z.to_nat (bpr * h)) 0) 0 = 0).
    { rewrite nth_lookup. destruct (_ !! _) as [v | ] eqn:Ev; [ | reflexivity].
      apply lookup_replicate in Ev as [-> _]. reflexivity. }
    rewrite E, Z.testbit_0_l. unfold Clock.packed_bit. cbn zeta.
    symmetry. bool_cases.
Qed.

Lemma row_offset (n y j : Z) : 0 <= y < h -> 0 <= j < n -> 0 <= y * n + j < n * h.
Proof.
  intros Hy Hj.
  assert (y * n <= (h - 1) * n) by (apply Z.mul_le_mono_nonneg_r; lia).
  assert (0 <= y * n) by (apply Z.mul_nonneg_nonneg; lia).
  lia.
Qed.

Lemma set_pixel_packed (y x : Z) (bm : list Z) :
  0 <= y < h -> 0 <= x < w ->
  Clock.packed surf w h bpr y x bm ->
  exists bm',
    Clock.set_pixel surf bpr y x bm = Some bm'
    /\ Clock.packed surf w h bpr y (x + 1) bm'.
Proof.
  intros Hy Hx [Hlen Hbits].
  destruct Hok as (Hst & Hdata & Hmax & _).
  destruct (bytes_per_row_covers w Hw) as [Hcov Hb].
  pose proof (bytes_per_row_bound w x Hx) as Hx8.
  pose proof (row_offset (Clock.stride surf) y x Hy ltac:(lia)) as Hidx.
  pose proof (row_offset bpr y (x / 8) Hy Hx8) as Hbyte.
  assert (Hrow : 0 <= y * Clock.stride surf <= F32.INT_MAX).
  { pose proof (row_offset (Clock.stride surf) y 0 Hy ltac:(lia)). lia. }
  assert (Hbrow : 0 <= y * bpr <= F32.INT_MAX).
  { pose proof (row_offset bpr y 0 Hy ltac:(lia)). lia. }
  pose proof (Z.div_mod x 8 ltac:(lia)) as Ex.
  pose proof (Z.mod_pos_bound x 8 ltac:(lia)) as Mx.
  unfold Clock.set_pixel, F32.INT_MIN in *.
  rewrite (int_ok (y * Clock.stride surf)) by (unfold F32.INT_MIN; lia).
  cbn [mbind option_bind].
  rewrite (int_ok (y * Clock.stride surf + x)) by (unfold F32.INT_MIN; lia).
  cbn [mbind option_bind].
  rewrite load_ok by lia. cbn [mbind option_bind].
  change (nth (Z.to_nat (y * Clock.stride surf + x)) (Clock.data surf) 0)
    with (Clock.alpha surf x y).
  destruct (Z.gtb_spec (Clock.alpha surf x y) 0) as [Ha | Ha].
  - rewrite (int_ok (y * bpr)) by (unfold F32.INT_MIN; lia).
    cbn [mbind option_bind].
    rewrite Z.quot_div_nonneg by lia. rewrite Z.rem_mod_nonneg by lia.
    rewrite (int_ok (y * bpr + x / 8)) by (unfold F32.INT_MIN; lia).
    cbn [mbind option_bind].
    rewrite load_ok by lia. cbn [mbind option_bind].
    eexists. split; [reflexivity | ]. split.
    + rewrite length_insert. exact Hlen.
    + intros i b Hi Hb0.
      destruct (index_split bpr h i Hb Hi) as (Ei & Hj & Hpy).
      destruct (Z.eq_dec i (y * bpr + x / 8)) as [-> | Ni].
      * erewrite nth_lookup_Some by (apply list_lookup_insert_eq; lia).
        change (Z.lor ?a (Z.shiftl 1 ?n)) with (Z.setbit a n).
        change 256 with (2 ^ 8).
        rewrite Z.testbit_mod_pow2 by lia. rewrite Z.setbit_eqb by lia.
        rewrite (Hbits (y * bpr + x / 8) b Hi Hb0).
        unfold Clock.packed_bit. cbn zeta.
        destruct (index_row bpr y (x / 8) Hx8) as [-> ->].
        destruct (Z.eq_dec b (x mod 8)) as [-> | Nb].
        -- replace (8 * (x / 8) + x mod 8) with x by lia.
           destruct (Z.ltb_spec 0 (Clock.alpha surf x y)); [ | lia].
           bool_cases.
        -- bool_cases.
      * rewrite nth_lookup, list_lookup_insert_ne by lia. rewrite <- nth_lookup.
        rewrite (Hbits i b Hi Hb0). unfold Clock.packed_bit. cbn zeta.
        destruct (Z.ltb_spec b 8); [ | reflexivity].
        assert (Npx : i / bpr = y -> 8 * (i mod bpr) + b <> x).
        { intros Ey Epx. apply Ni. rewrite Ei, Ey. f_equal.
          assert (i mod bpr = x / 8); [ | lia].
          apply (Z.div_unique x 8 (i mod bpr) b); [left; lia | lia]. }
        bool_cases.
  - exists bm. split; [reflexivity | ]. split; [exact Hlen | ].
    intros i b Hi Hb0. rewrite (Hbits i b Hi Hb0). unfold Clock.packed_bit. cbn zeta.
    destruct (Z.eq_dec (i / bpr) y) as [Ey | Ny];
      [destruct (Z.eq_dec (8 * (i mod bpr) + b) x) as [Epx | Npx] | ].
    + rewrite Ey, Epx. destruct (Z.ltb_spec 0 (Clock.alpha surf x y)); [lia | ].
      rewrite !andb_false_r. reflexivity.
    + bool_cases.
    + bool_cases.
Qed.


Lemma row_packed (y : Z) (bm : list Z) :
  0 <= y < h -> Clock.packed surf w h bpr y 0 bm ->
  exists bm',
    Clock.for_int w (Clock.set_pixel surf bpr y) bm = Some bm'
    /\ Clock.packed surf w h bpr (y + 1) 0 bm'.
Proof.
  intros Hy Hp.
  destruct (for_int_inv w (Clock.set_pixel surf bpr y)
              (fun x bm => Clock.packed surf w h bpr y x bm) bm)
    as (bm' & E & [Hlen Hbits]); [lia | exact Hp | | ].
  - intros x bm0 Hx Hp0. apply set_pixel_packed; assumption.
  - exists bm'. split; [exact E | ]. split; [exact Hlen | ].
    intros i b Hi Hb0. rewrite (Hbits i b Hi Hb0).
    destruct (bytes_per_row_covers w Hw) as [_ Hb].
    destruct (index_split bpr h i Hb Hi) as (_ & Hj & _).
    unfold Clock.packed_bit. cbn zeta. bool_cases.
Qed.

Lemma rows_packed :
  exists bm,
    Clock.for_int h
      (fun y => Clock.for_int w (fun x => Clock.set_pixel surf bpr y x))
      (replicate (Z.to_nat (bpr * h)) 0) = Some bm
    /\ Clock.packed surf w h bpr h 0 bm.
Proof.
  apply (for_int_inv h _ (fun y bm => Clock.packed surf w h bpr y 0 bm)).
  - lia.
  - exact packed_init.
  - intros y bm Hy Hp. apply row_packed; assumption.
Qed.

(** A number whose bits from 8 on are clear is an [unsigned char]. *)
Lemma byte_of_bits (v : Z) :
  (forall b, 8 <= b -> Z.testbit v b = false) -> 0 <= v < 256.
Proof.
  intros Hhigh.
  assert (E : v = v mod 2 ^ 8).
  { apply Z.bits_inj'. intros b Hb. rewrite Z.testbit_mod_pow2 by lia.
    destruct (Z.ltb_spec b 8); [reflexivity | ]. rewrite Hhigh by lia. reflexivity. }
  rewrite E. change (2 ^ 8) with 256. apply Z.mod_pos_bound. lia.
Qed.

(** X17. [create_mask_from_a8] on a [w] by [h] A8 surface is defined
    (every index stays inside [data] and the bitmap, no [int]
    overflows) and hands the X server [(w + 7) / 8 * h] bytes in which
    the pixel [(x, y)] is set exactly when its coverage is non-zero;
    the padding bits at the end of each row are clear. *)
Theorem create_mask_packs_bits :
  w + 7 <= F32.INT_MAX ->
  exists bm,
    Clock.create_mask_from_a8 (Some surf) w h true = Some (Some bm)
    /\ Clock.bm_width bm = w /\ Clock.bm_height bm = h
    /\ Z.of_nat (List.length (Clock.bm_bits bm)) = (w + 7) / 8 * h
    /\ Forall (fun v => 0 <= v < 256) (Clock.bm_bits bm)
    /\ (forall x y, 0 <= x < w -> 0 <= y < h ->
          Clock.bitmap_pixel bm x y = (0 <? Clock.alpha surf x y))
    /\ (forall x y, w <= x < 8 * ((w + 7) / 8) -> 0 <= y < h ->
          Clock.bitmap_pixel bm x y = false).
Proof.
  intros Hw7. destruct rows_packed as (bits & E & [Hlen Hbits]).
  destruct (bytes_per_row_covers w Hw) as [Hcov Hb].
  assert (Hsz : 0 <= bpr * h) by (apply Z.mul_nonneg_nonneg; lia).
  exists {| Clock.bm_bits := bits; Clock.bm_width := w; Clock.bm_height := h |}.
  split.
  { unfold Clock.create_mask_from_a8.
    destruct (Z.leb_spec w 0); [lia | ]. destruct (Z.leb_spec h 0); [lia | ].
    cbn [orb]. rewrite (int_ok (w + 7)) by (unfold F32.INT_MIN; lia).
    cbn [mbind option_bind]. rewrite Z.quot_div_nonneg by lia.
    rewrite (int_ok (bpr * h)) by (unfold F32.INT_MIN; lia).
    cbn [mbind option_bind negb]. rewrite E. reflexivity. }
  cbn [Clock.bm_bits Clock.bm_width Clock.bm_height].
  split; [reflexivity | ]. split; [reflexivity | ]. split; [exact Hlen | ].
  assert (Pixel : forall x y, 0 <= x < 8 * bpr -> 0 <= y < h ->
            Clock.bitmap_pixel
              {| Clock.bm_bits := bits; Clock.bm_width := w; Clock.bm_height := h |} x y
            = (x <? w) && (0 <? Clock.alpha surf x y)).
  { intros x y Hx Hy. unfold Clock.bitmap_pixel. cbn [Clock.bm_bits Clock.bm_width].
    pose proof (Z.div_mod x 8 ltac:(lia)) as Ex.
    pose proof (Z.mod_pos_bound x 8 ltac:(lia)) as Mx.
    assert (Hx8 : 0 <= x / 8 < bpr).
    { split; [apply Z.div_pos; lia | apply Z.div_lt_upper_bound; lia]. }
    rewrite Hbits by (try apply row_offset; lia).
    unfold Clock.packed_bit. cbn zeta.
    destruct (index_row bpr y (x / 8) Hx8) as [-> ->].
    replace (8 * (x / 8) + x mod 8) with x by lia. bool_cases. }
  split; [ | split].
  - apply Forall_forall. intros v Hv.
    apply list_elem_of_lookup in Hv as [k Hk].
    pose proof (lookup_lt_Some _ _ _ Hk) as Hlt.
    apply byte_of_bits. intros b Hb8.
    replace v with (nth (Z.to_nat (Z.of_nat k)) bits 0)
      by (rewrite Nat2Z.id; apply nth_lookup_Some; exact Hk).
    rewrite Hbits by lia. unfold Clock.packed_bit. cbn zeta.
    destruct (Z.ltb_spec b 8); [lia | reflexivity].
  - intros x y Hx Hy. rewrite Pixel by lia.
    destruct (Z.ltb_spec x w); [reflexivity | lia].
  - intros x y Hx Hy. rewrite Pixel by lia.
    destruct (Z.ltb_spec x w); [lia | reflexivity].
Qed.

End MaskPacking.

Lemma create_mask_packs_bits_witness :
  let surf := {| Clock.data := [ 0; 255; 0; 0; 0; 0; 0; 0; 0; 7; 0; 0;
                                 9; 0; 0; 0; 0; 0; 0; 0; 0; 0; 0; 0 ];
                 Clock.stride := 12 |} in
  exists bm,
    Clock.create_mask_from_a8 (Some surf) 10 2 true = Some (Some bm)
    /\ Clock.bm_bits bm = [ 2; 2; 1; 0 ]
    /\ Clock.bitmap_pixel bm 9 0 = true /\ Clock.bitmap_pixel bm 0 0 = false.
Proof.
  intros surf.
  destruct (create_mask_packs_bits surf 10 2) as (bm & E & _ & _ & _ & _ & Hpix & _).
  - lia.
  - lia.
  - unfold Clock.a8_ok. cbn. split; [lia | split; [reflexivity | split; [discriminate | ]]].
    repeat constructor; lia.
  - cbn. discriminate.
  - cbn. discriminate.
  - exists bm. split; [exact E | ].
    assert (B : Clock.bm_bits bm = [ 2; 2; 1; 0 ]).
    { assert (V : Clock.create_mask_from_a8 (Some surf) 10 2 true
                  = Some (Some {| Clock.bm_bits := [ 2; 2; 1; 0 ]; Clock.bm_width := 10;
                                  Clock.bm_height := 2 |})) by (vm_compute; reflexivity).
      rewrite V in E. injection E as <-. reflexivity. }
    split; [exact B | ]. split.
    + rewrite (Hpix 9 0) by lia. reflexivity.
    + rewrite (Hpix 0 0) by lia. reflexivity.
Defined.

(** ** The pixmap of the shape mask *)

Section ShapeMask.

Lemma xserver_run_app (live : list Z) (a b : list Clock.Effect) :
  Clock.xserver_run live (a ++ b)
  = (live' ← Clock.xserver_run live a; Clock.xserver_run live' b).
Proof.
  revert live. induction a as [ | e a IH]; intros live; [reflexivity | ].
  cbn [app Clock.xserver_run]. destruct (Clock.xserver live e) as [l1 | ]; [ | reflexivity].
  cbn [mbind option_bind]. apply IH.
Qed.

(** The effects of one call of [update_shape_mask]. *)
Lemma update_shape_mask_inv (st st' : Clock.State) (win_w win_h : Z)
    (world : Clock.World) (fx : list Clock.Effect) :
  Clock.update_shape_mask st win_w win_h world = Some (st', fx) ->
  (st' = st /\ (fx = [] \/ exists bm, fx = [ Clock.CreateBitmap bm 0 ]))
  \/ (exists bm,
        truthy (Clock.shape_available st) = true
        /\ Clock.create_mask_from_a8 (Some (Clock.mask world)) win_w win_h
             (Clock.calloc_ok world) = Some (Some bm)
        /\ truthy (Clock.new_pixmap world) = true
        /\ st' = Clock.set_shape_pixmap (Clock.new_pixmap world) st
        /\ fx = Clock.CreateBitmap bm (Clock.new_pixmap world)
                :: (if truthy (Clock.shape_pixmap st)
                    then [ Clock.FreePixmap (Clock.shape_pixmap st) ] else [])
                ++ [ Clock.ShapeCombineMask (Clock.new_pixmap world) ]).
Proof.
  unfold Clock.update_shape_mask.
  destruct (truthy (Clock.shape_available st)) eqn:Hs; cbn [negb];
    [ | intros [= <- <-]; left; auto].
  destruct (Clock.create_mask_from_a8 _ _ _ _) as [[bm | ] | ] eqn:Hc;
    cbn [mbind option_bind]; [ | intros [= <- <-]; left; auto | discriminate].
  destruct (truthy (Clock.new_pixmap world)) eqn:Hn.
  - intros [= <- <-]. right. exists bm. auto.
  - intros [= <- <-]. left. split; [reflexivity | right].
    apply truthy_false in Hn. rewrite Hn. eauto.
Qed.

Lemma update_shape_mask_pixmaps (st st' : Clock.State) (win_w win_h : Z)
    (world : Clock.World) (fx : list Clock.Effect) :
  Clock.new_pixmap world ∉ Clock.live_of st ->
  Clock.update_shape_mask st win_w win_h world = Some (st', fx) ->
  Clock.xserver_run (Clock.live_of st) fx = Some (Clock.live_of st').
Proof.
  intros Hfresh H.
  destruct (update_shape_mask_inv _ _ _ _ _ _ H)
    as [[-> [-> | [bm ->]]] | (bm & _ & _ & Hn & -> & ->)].
  - reflexivity.
  - reflexivity.
  - unfold Clock.live_of in *. cbn [Clock.set_shape_pixmap Clock.shape_pixmap].
    rewrite Hn. cbn [Clock.xserver_run Clock.xserver]. rewrite Hn.
    cbn [mbind option_bind].
    set (new := Clock.new_pixmap world) in *. set (old := Clock.shape_pixmap st) in *.
    destruct (truthy old) eqn:Ho.
    + assert (Hne : new <> old).
      { intros E. apply Hfresh. rewrite E. apply list_elem_of_here. }
      cbn [app Clock.xserver_run Clock.xserver].
      rewrite bool_decide_eq_true_2
        by (apply list_elem_of_further, list_elem_of_here).
      cbn [mbind option_bind List.filter].
      destruct (Z.eqb_spec new old) as [E | _]; [contradiction | ].
      rewrite Z.eqb_refl. cbn [negb].
      rewrite bool_decide_eq_true_2 by apply list_elem_of_here. reflexivity.
    + cbn [app Clock.xserver_run Clock.xserver].
      rewrite bool_decide_eq_true_2 by apply list_elem_of_here. reflexivity.
Qed.

End ShapeMask.

(** ** [render_now] *)

Section RenderNow.

Lemma int_inv (z v : Z) : Clock.int z = Some v -> v = z /\ F32.INT_MIN <= z <= F32.INT_MAX.
Proof.
  unfold Clock.int. destruct (Z.leb_spec F32.INT_MIN z); [ | discriminate].
  destruct (Z.leb_spec z F32.INT_MAX); [ | discriminate].
  intros [= <-]. lia.
Qed.

(** The window size [render_now] computes from the extents. *)
Lemma render_now_inv (st st' : Clock.State) (world : Clock.World)
    (fx : list Clock.Effect) :
  Clock.render_now st world = Some (st', fx) ->
  (Clock.surf st = None /\ st' = st /\ fx = [])
  \/ exists text_w font_h st1 fx1 fx2 x y,
       Clock.surf st <> None
       /\ F64.to_int (F64.add (Clock.te_width world) (1 # 2)) = Some text_w
       /\ F64.to_int (F64.add (Clock.fe_height world) (1 # 2)) = Some font_h
       /\ F32.INT_MIN <= text_w + 14 <= F32.INT_MAX
       /\ F32.INT_MIN <= font_h + 6 <= F32.INT_MAX
       /\ let win_w := text_w + 14 in
          let win_h := if font_h + 6 <? 1 then 1 else font_h + 6 in
          ((Clock.wattr world = (win_w, win_h) /\ st1 = st /\ fx1 = [])
           \/ (Clock.wattr world <> (win_w, win_h)
               /\ st1 = Clock.set_surf (Some (win_w, win_h)) st
               /\ fx1 = [ Clock.MoveResizeWindow (Clock.screen_w st - win_w - 7) 0
                            win_w win_h;
                          Clock.SurfaceSetSize win_w win_h ]))
          /\ Clock.update_shape_mask st1 win_w win_h world = Some (st', fx2)
          /\ fx = fx1 ++ fx2 ++ [ Clock.ShowText x y (c_str (Clock.timebuf st')) ].
Proof.
  unfold Clock.render_now. destruct (Clock.surf st) as [sz | ] eqn:Hsurf;
    [ | intros [= <- <-]; left; auto].
  intros H. right.
  destruct (F64.to_int (F64.add (Clock.te_width world) (1 # 2))) as [text_w | ];
    [cbn [mbind option_bind] in H | discriminate H].
  change (2 * Clock.H_PADDING) with 14 in H.
  destruct (Clock.int (text_w + 14)) as [win_w | ] eqn:Ew;
    [cbn [mbind option_bind] in H | discriminate H].
  apply int_inv in Ew as [-> Rw].
  destruct (F64.to_int (F64.add (Clock.fe_height world) (1 # 2))) as [font_h | ];
    [cbn [mbind option_bind] in H | discriminate H].
  change (2 * Clock.V_PADDING) with 6 in H.
  destruct (Clock.int (font_h + 6)) as [win_h | ] eqn:Eh;
    [cbn [mbind option_bind] in H | discriminate H].
  apply int_inv in Eh as [-> Rh].
  set (win_w := text_w + 14) in *.
  set (win_h := if font_h + 6 <? 1 then 1 else font_h + 6) in *.
  destruct (Clock.wattr world) as [aw ah] eqn:Ewa. cbn [fst snd] in H.
  destruct (Z.eqb_spec aw win_w) as [Eaw | Naw];
    [destruct (Z.eqb_spec ah win_h) as [Eah | Nah] | ]; cbn [negb orb] in H.
  - cbn [mbind option_bind] in H.
    destruct (Clock.update_shape_mask st win_w win_h world) as [[st2 fx2] | ] eqn:Em;
      [cbn [mbind option_bind] in H | discriminate H].
    injection H as <- <-.
    eexists text_w, font_h, st, [], fx2, _, _.
    split; [discriminate | ]. repeat (split; [first [reflexivity | assumption] | ]).
    cbn zeta. fold win_w win_h.
    split; [left; subst; auto | ]. split; [exact Em | reflexivity].
  - destruct (Clock.int (Clock.screen_w st - win_w)) as [x0 | ] eqn:Ex0;
      [cbn [mbind option_bind] in H | discriminate H].
    apply int_inv in Ex0 as [-> _].
    destruct (Clock.int (Clock.screen_w st - win_w - Clock.H_PADDING)) as [x | ] eqn:Ex;
      [cbn [mbind option_bind] in H | discriminate H].
    apply int_inv in Ex as [-> _].
    unfold Clock.ensure_surface_size in H. rewrite Hsurf in H.
    cbn [mbind option_bind] in H.
    destruct (Clock.update_shape_mask _ win_w win_h world) as [[st2 fx2] | ] eqn:Em;
      [cbn [mbind option_bind] in H | discriminate H].
    injection H as <- <-.
    eexists text_w, font_h, _, _, fx2, _, _.
    split; [discriminate | ]. repeat (split; [first [reflexivity | assumption] | ]).
    cbn zeta. fold win_w win_h.
    split; [right; split; [ | split; reflexivity] | split; [exact Em | reflexivity]].
    intros [= _ E]. contradiction.
  - destruct (Clock.int (Clock.screen_w st - win_w)) as [x0 | ] eqn:Ex0;
      [cbn [mbind option_bind] in H | discriminate H].
    apply int_inv in Ex0 as [-> _].
    destruct (Clock.int (Clock.screen_w st - win_w - Clock.H_PADDING)) as [x | ] eqn:Ex;
      [cbn [mbind option_bind] in H | discriminate H].
    apply int_inv in Ex as [-> _].
    unfold Clock.ensure_surface_size in H. rewrite Hsurf in H.
    cbn [mbind option_bind] in H.
    destruct (Clock.update_shape_mask _ win_w win_h world) as [[st2 fx2] | ] eqn:Em;
      [cbn [mbind option_bind] in H | discriminate H].
    injection H as <- <-.
    eexists text_w, font_h, _, _, fx2, _, _.
    split; [discriminate | ]. repeat (split; [first [reflexivity | assumption] | ]).
    cbn zeta. fold win_w win_h.
    split; [right; split; [ | split; reflexivity] | split; [exact Em | reflexivity]].
    intros [= E _]. contradiction.
Qed.

End RenderNow.

(** ** The loop of the shaped clock *)

Section ClockLoop.

Lemma render_now_pixmaps (st st' : Clock.State) (world : Clock.World)
    (fx : list Clock.Effect) :
  Clock.new_pixmap world ∉ Clock.live_of st ->
  Clock.render_now st world = Some (st', fx) ->
  Clock.xserver_run (Clock.live_of st) fx = Some (Clock.live_of st').
Proof.
  intros Hfresh H.
  destruct (render_now_inv _ _ _ _ H)
    as [(_ & -> & ->) | (tw & fh & st1 & fx1 & fx2 & x & y & _ & _ & _ & _ & _ & C)];
    [reflexivity | ].
  cbn zeta in C. destruct C as (Hres & Hmask & ->).
  assert (L1 : Clock.live_of st1 = Clock.live_of st
               /\ Clock.xserver_run (Clock.live_of st) fx1 = Some (Clock.live_of st)).
  { destruct Hres as [(_ & -> & ->) | (_ & -> & ->)]; split; reflexivity. }
  destruct L1 as [E1 R1].
  rewrite xserver_run_app, R1. cbn [mbind option_bind].
  rewrite xserver_run_app, <- E1.
  assert (Hfresh1 : Clock.new_pixmap world ∉ Clock.live_of st1)
    by (rewrite E1; exact Hfresh).
  rewrite (update_shape_mask_pixmaps st1 st' _ _ world fx2 Hfresh1 Hmask).
  reflexivity.
Qed.

Lemma step_pixmaps (st st' : Clock.State) (i : Clock.Input * Clock.World)
    (fx : list Clock.Effect) :
  Clock.new_pixmap (snd i) ∉ Clock.live_of st ->
  Clock.step st i = Some (st', fx) ->
  Clock.xserver_run (Clock.live_of st) fx = Some (Clock.live_of st').
Proof.
  intros Hfresh. destruct i as [[[ | w h | ] | now_text] world];
    cbn [Clock.step Clock.handle_event Clock.periodic_update fst snd] in *.
  - apply render_now_pixmaps. exact Hfresh.
  - destruct ((w >? 0) && (h >? 0)); [ | intros [= <- <-]; reflexivity].
    destruct (Clock.ensure_surface_size st w h) as [st1 fx1] eqn:E.
    assert (L1 : Clock.live_of st1 = Clock.live_of st
                 /\ Clock.xserver_run (Clock.live_of st) fx1 = Some (Clock.live_of st)).
    { unfold Clock.ensure_surface_size in E.
      destruct (Clock.surf st); injection E as <- <-; split; reflexivity. }
    destruct L1 as [E1 R1].
    destruct (Clock.render_now st1 world) as [[st2 fx2] | ] eqn:Hr;
      [cbn [mbind option_bind] | discriminate].
    intros [= <- <-]. rewrite xserver_run_app, R1. cbn [mbind option_bind].
    rewrite <- E1. apply (render_now_pixmaps st1 st2 world fx2); [ | exact Hr].
    rewrite E1. exact Hfresh.
  - intros [= <- <-]. reflexivity.
  - apply (render_now_pixmaps (Clock.set_timebuf now_text st)). exact Hfresh.
Qed.

(** X18. The pixmaps of the shape mask are never leaked, freed twice or
    used after being freed.  Along any run of the loop in which the X
    server does not hand out the identifier of a live pixmap, no
    request names a dead pixmap, and after the run the only pixmap
    alive is the current [shape_pixmap] (none when it is 0): each new
    mask frees the one it replaces, and a failed creation keeps the
    old mask. *)
Theorem run_pixmaps (inputs : list (Clock.Input * Clock.World))
    (st st' : Clock.State) (fx : list Clock.Effect) :
  Clock.fresh_run st inputs ->
  Clock.run st inputs = Some (st', fx) ->
  Clock.xserver_run (Clock.live_of st) fx = Some (Clock.live_of st').
Proof.
  revert st st' fx. induction inputs as [ | i rest IH]; intros st st' fx Hf H.
  - injection H as <- <-. reflexivity.
  - cbn [Clock.run] in H. destruct Hf as [Hfresh Hrest].
    destruct (Clock.step st i) as [[st1 fx1] | ] eqn:E1;
      [cbn [mbind option_bind] in H | discriminate H].
    destruct (Clock.run st1 rest) as [[st2 fx2] | ] eqn:E2;
      [cbn [mbind option_bind] in H | discriminate H].
    injection H as <- <-.
    rewrite xserver_run_app, (step_pixmaps st st1 i fx1 Hfresh E1).
    cbn [mbind option_bind]. apply IH; [ | exact E2].
    apply (Hrest st1 fx1). reflexivity.
Qed.

End ClockLoop.

(** ** The geometry of the clock's window *)

Section ClockGeometry.
Open Scope Q_scope.

(** [(int)(t + 0.5)] for a non-negative [double] [t]: within half a
    pixel below and a pixel and a half above. *)
Lemma round_cast (t : Q) (n : Z) :
  0 <= t -> F64.to_int (F64.add t (1 # 2)) = Some n ->
  (0 <= n)%Z /\ t - (1 # 2) < inject_Z n /\ inject_Z n <= t + (3 # 2).
Proof.
  intros Ht H. unfold F64.to_int in H.
  pose proof (to_int_Ztrunc _ _ H) as En.
  assert (Hmax : (n <= F32.INT_MAX)%Z).
  { unfold F32.to_int in H.
    destruct ((F32.INT_MIN <=? _) && (_ <=? F32.INT_MAX))%bool eqn:B; [ | discriminate H].
    injection H as <-. apply andb_true_iff in B as [_ B]. apply Z.leb_le in B. exact B. }
  set (r := F64.add t (1 # 2)) in *.
  assert (Hr : 1 # 2 <= r).
  { unfold r, F64.add. apply (f64_ge _ (1 # 2) 1 (- 1)); [reflexivity | lia | lra]. }
  destruct (Ztrunc_nonneg r) as [T1 T2]; [lra | ]. rewrite <- En in T1, T2.
  set (f := Qfloor (t + (1 # 2))).
  pose proof (Qfloor_le (t + (1 # 2))) as F1.
  pose proof (Qlt_floor (t + (1 # 2))) as F2. fold f in F1, F2.
  rewrite inject_Z_plus in F2. change (inject_Z 1) with 1 in F2.
  assert (Hf0 : (0 <= f)%Z).
  { assert (X : inject_Z (- 1) < inject_Z f)
      by (change (inject_Z (- 1)) with (- 1 # 1); lra).
    rewrite <- Zlt_Qlt in X. lia. }
  assert (Hn2 : inject_Z n < 2 ^ 31).
  { unfold F32.INT_MAX in Hmax. rewrite Zle_Qle in Hmax.
    change (inject_Z (2 ^ 31 - 1)) with (2 ^ 31 - 1) in Hmax. lra. }
  assert (Hf53 : (f < 2 ^ 53)%Z).
  { destruct (Z_lt_le_dec f (2 ^ 53)) as [L | G]; [exact L | exfalso].
    rewrite Zle_Qle in G. change (inject_Z (2 ^ 53)%Z) with (2 ^ 53) in G.
    assert (X : 2 ^ 53 <= r).
    { unfold r, F64.add. apply (f64_ge _ (2 ^ 53) 1 53); [reflexivity | lia | lra]. }
    assert (Y : (2 : Q) ^ 31 < 2 ^ 53) by reflexivity. lra. }
  assert (Hlow : inject_Z f <= r).
  { unfold r, F64.add. apply f64_ge_Z; [lia | exact F1]. }
  assert (Hnf : (f <= n)%Z).
  { assert (X : inject_Z f < inject_Z (n + 1)).
    { rewrite inject_Z_plus. change (inject_Z 1) with 1. lra. }
    rewrite <- Zlt_Qlt in X. lia. }
  assert (Hup : r <= inject_Z (f + 1)).
  { unfold r, F64.add. apply f64_le_Z.
    - unfold F32.INT_MAX in Hmax. lia.
    - rewrite inject_Z_plus. change (inject_Z 1) with 1. lra. }
  rewrite inject_Z_plus in Hup. change (inject_Z 1) with 1 in Hup.
  assert (Hn0 : (0 <= n)%Z) by lia.
  rewrite Zle_Qle in Hnf.
  split; [exact Hn0 | split; lra].
Qed.

(** X19. When [render_now] moves and resizes the window, it puts it at
    the top of the screen with its right edge [H_PADDING] pixels from
    the right edge of the screen, whatever the text; the window is at
    least 14 by 6 pixels (so the guard [win_h < 1] never fires for a
    font of non-negative height), less than half a pixel narrower than
    the text with its padding, and the cairo surface is given the same
    size.  The window is resized only when its current size differs. *)
Theorem render_now_geometry (st st' : Clock.State) (world : Clock.World)
    (fx : list Clock.Effect) (x y w h : Z) :
  0 <= Clock.te_width world -> 0 <= Clock.fe_height world ->
  Clock.render_now st world = Some (st', fx) ->
  Clock.MoveResizeWindow x y w h ∈ fx ->
  y = 0%Z /\ (x + w = Clock.screen_w st - Clock.H_PADDING)%Z
  /\ (14 <= w)%Z /\ (6 <= h)%Z
  /\ Clock.te_width world + 14 - (1 # 2) < inject_Z w
  /\ inject_Z w <= Clock.te_width world + 14 + (3 # 2)
  /\ Clock.fe_height world + 6 - (1 # 2) < inject_Z h
  /\ inject_Z h <= Clock.fe_height world + 6 + (3 # 2)
  /\ Clock.wattr world <> (w, h)
  /\ Clock.surf st' = Some (w, h)
  /\ Clock.SurfaceSetSize w h ∈ fx.
Proof.
  intros Htw Hfh H Hin.
  destruct (render_now_inv _ _ _ _ H)
    as [(_ & _ & ->) | (tw & fh & st1 & fx1 & fx2 & tx & ty & _ & Etw & Efh & _ & _ & C)].
  { apply elem_of_nil in Hin. contradiction. }
  cbn zeta in C. destruct C as (Hres & Hmask & ->).
  destruct (round_cast _ _ Htw Etw) as (W0 & W1 & W2).
  destruct (round_cast _ _ Hfh Efh) as (H0 & H1 & H2).
  assert (Eh : (if (fh + 6 <? 1)%Z then 1%Z else (fh + 6)%Z) = (fh + 6)%Z).
  { destruct (Z.ltb_spec (fh + 6) 1); [lia | reflexivity]. }
  rewrite Eh in *.
  assert (Hst' : Clock.surf st' = Clock.surf st1
                 /\ forall a b c d, Clock.MoveResizeWindow a b c d ∉ fx2).
  { destruct (update_shape_mask_inv _ _ _ _ _ _ Hmask)
      as [[-> [-> | [bm ->]]] | (bm & _ & _ & _ & -> & ->)].
    - split; [reflexivity | ]. intros a b c d Hm. apply elem_of_nil in Hm. exact Hm.
    - split; [reflexivity | ]. intros a b c d Hm.
      apply list_elem_of_singleton in Hm. discriminate Hm.
    - split; [reflexivity | ]. intros a b c d Hm.
      apply elem_of_cons in Hm as [Hm | Hm]; [discriminate Hm | ].
      apply elem_of_app in Hm as [Hm | Hm].
      + destruct (truthy _); [ | apply elem_of_nil in Hm; exact Hm].
        apply list_elem_of_singleton in Hm. discriminate Hm.
      + apply list_elem_of_singleton in Hm. discriminate Hm. }
  destruct Hst' as [Es Hno].
  destruct Hres as [(_ & -> & ->) | (Hne & -> & ->)].
  - exfalso. cbn [app] in Hin. apply elem_of_app in Hin as [Hin | Hin].
    + exact (Hno _ _ _ _ Hin).
    + apply list_elem_of_singleton in Hin. discriminate Hin.
  - assert (E : Clock.MoveResizeWindow x y w h
                = Clock.MoveResizeWindow (Clock.screen_w st - (tw + 14) - 7) 0
                    (tw + 14) (fh + 6)).
    { cbn [app] in Hin. apply elem_of_cons in Hin as [Hin | Hin]; [exact Hin | ].
      apply elem_of_cons in Hin as [Hin | Hin]; [discriminate Hin | ].
      apply elem_of_app in Hin as [Hin | Hin].
      - exfalso. exact (Hno _ _ _ _ Hin).
      - apply list_elem_of_singleton in Hin. discriminate Hin. }
    injection E as -> -> -> ->.
    rewrite !inject_Z_plus. change (inject_Z 14) with 14. change (inject_Z 6) with 6.
    unfold Clock.H_PADDING.
    split; [reflexivity | ]. split; [lia | ]. split; [lia | ]. split; [lia | ].
    split; [lra | ]. split; [lra | ]. split; [lra | ]. split; [lra | ].
    split; [exact Hne | ]. split; [rewrite Es; reflexivity | ].
    cbn [app]. apply list_elem_of_further, list_elem_of_here.
Qed.

End ClockGeometry.

(** ** The cairo surface of the clock *)

Section ClockSurface.

Lemma update_shape_mask_surface (st st' : Clock.State) (win_w win_h : Z)
    (world : Clock.World) (fx : list Clock.Effect) :
  Clock.update_shape_mask st win_w win_h world = Some (st', fx) ->
  Clock.surf st' = Clock.surf st /\ Clock.timebuf st' = Clock.timebuf st
  /\ List.filter Clock.is_surface_create fx = [].
Proof.
  intros H.
  destruct (update_shape_mask_inv _ _ _ _ _ _ H)
    as [[-> [-> | [bm ->]]] | (bm & _ & _ & _ & -> & ->)];
    repeat split.
  destruct (truthy (Clock.shape_pixmap st)); reflexivity.
Qed.

Lemma render_now_surface (st st' : Clock.State) (world : Clock.World)
    (fx : list Clock.Effect) :
  Clock.surf st <> None ->
  Clock.render_now st world = Some (st', fx) ->
  Clock.surf st' <> None /\ List.filter Clock.is_surface_create fx = []
  /\ exists pre x y,
       fx = pre ++ [ Clock.ShowText x y (c_str (Clock.timebuf st)) ].
Proof.
  intros Hs H.
  destruct (render_now_inv _ _ _ _ H)
    as [(Hn & _ & _) | (tw & fh & st1 & fx1 & fx2 & x & y & _ & _ & _ & _ & _ & C)];
    [contradiction | ].
  cbn zeta in C. destruct C as (Hres & Hmask & ->).
  destruct (update_shape_mask_surface _ _ _ _ _ _ Hmask) as (Es & Et & Ef).
  assert (L1 : Clock.surf st1 <> None /\ Clock.timebuf st1 = Clock.timebuf st
               /\ List.filter Clock.is_surface_create fx1 = []).
  { destruct Hres as [(_ & -> & ->) | (_ & -> & ->)]; repeat split; try assumption.
    discriminate. }
  destruct L1 as (S1 & T1 & F1).
  split; [rewrite Es; exact S1 | ]. split.
  - rewrite !List.filter_app, F1, Ef. reflexivity.
  - exists (fx1 ++ fx2), x, y. rewrite Et, T1, <- app_assoc. reflexivity.
Qed.

Lemma step_surface (st st' : Clock.State) (i : Clock.Input * Clock.World)
    (fx : list Clock.Effect) :
  Clock.surf st <> None ->
  Clock.step st i = Some (st', fx) ->
  Clock.surf st' <> None /\ List.filter Clock.is_surface_create fx = [].
Proof.
  intros Hs. destruct i as [[[ | w h | ] | now_text] world];
    cbn [Clock.step Clock.handle_event Clock.periodic_update fst snd].
  - intros H. destruct (render_now_surface _ _ _ _ Hs H) as (A & B & _). auto.
  - destruct ((w >? 0) && (h >? 0)); [ | intros [= <- <-]; auto].
    unfold Clock.ensure_surface_size.
    destruct (Clock.surf st) as [sz | ] eqn:E; [ | contradiction].
    destruct (Clock.render_now _ world) as [[st2 fx2] | ] eqn:Hr;
      [cbn [mbind option_bind] | discriminate].
    intros [= <- <-].
    assert (S1 : Clock.surf (Clock.set_surf (Some (w, h)) st) <> None) by discriminate.
    destruct (render_now_surface _ _ _ _ S1 Hr) as (A & B & _).
    split; [exact A | ]. cbn [app List.filter Clock.is_surface_create]. exact B.
  - intros [= <- <-]. auto.
  - intros H.
    destruct (render_now_surface (Clock.set_timebuf now_text st) _ _ _ Hs H)
      as (A & B & _). auto.
Qed.

Lemma run_surface (inputs : list (Clock.Input * Clock.World))
    (st st' : Clock.State) (fx : list Clock.Effect) :
  Clock.surf st <> None ->
  Clock.run st inputs = Some (st', fx) ->
  Clock.surf st' <> None /\ List.filter Clock.is_surface_create fx = [].
Proof.
  revert st st' fx. induction inputs as [ | i rest IH]; intros st st' fx Hs H.
  - injection H as <- <-. auto.
  - cbn [Clock.run] in H.
    destruct (Clock.step st i) as [[st1 fx1] | ] eqn:E1;
      [cbn [mbind option_bind] in H | discriminate H].
    destruct (Clock.run st1 rest) as [[st2 fx2] | ] eqn:E2;
      [cbn [mbind option_bind] in H | discriminate H].
    injection H as <- <-.
    destruct (step_surface _ _ _ _ Hs E1) as [S1 F1].
    destruct (IH _ _ _ S1 E2) as [S2 F2].
    split; [exact S2 | ]. rewrite List.filter_app, F1, F2. reflexivity.
Qed.

(** X20. The cairo surface is created exactly once, for the 200 by 50
    window [main] creates, before the loop; in the loop
    [ensure_surface_size] only ever resizes it, and [render_now] never
    takes its early return. *)
Theorem surface_created_once (inputs : list (Clock.Input * Clock.World))
    (screen_width shape : Z) (now_text : list byte) (world : Clock.World)
    (st st' : Clock.State) (fx0 fx : list Clock.Effect) :
  Clock.start screen_width shape now_text world = Some (st, fx0) ->
  Clock.run st inputs = Some (st', fx) ->
  List.filter Clock.is_surface_create (fx0 ++ fx) = [ Clock.SurfaceCreate 200 50 ]
  /\ head fx0 = Some (Clock.SurfaceCreate 200 50)
  /\ Clock.surf st' <> None.
Proof.
  unfold Clock.start, Clock.ensure_surface_size. cbn [Clock.surf].
  intros H0 H.
  destruct (Clock.render_now _ world) as [[st2 fx2] | ] eqn:Hr;
    [cbn [mbind option_bind] in H0 | discriminate H0].
  injection H0 as <- <-.
  match type of Hr with
  | Clock.render_now ?s _ = _ => assert (Hs1 : Clock.surf s <> None) by discriminate
  end.
  destruct (render_now_surface _ _ _ _ Hs1 Hr) as (S0 & F0 & _).
  destruct (run_surface _ _ _ _ S0 H) as [S1 F1].
  split; [ | split; [reflexivity | exact S1]].
  rewrite List.filter_app, F1. cbn [app List.filter Clock.is_surface_create].
  rewrite F0. reflexivity.
Qed.

End ClockSurface.

(** ** The refresh timer of the clock *)

Section ClockTimer.
Open Scope Q_scope.

(** X21. The clock is refreshed exactly when at least 60 seconds have
    passed between the two clock readings: the [double] computation of
    [elapsed] never misjudges the comparison with [REFRESH_INTERVAL]. *)
Theorem clock_refresh_due_exact (now last : timespec) :
  timespec_ok now -> timespec_ok last ->
  Clock.refresh_due now last
  = Some (60000000000 <=? nanoseconds now - nanoseconds last)%Z.
Proof.
  intros Hnow Hlast. unfold Clock.refresh_due.
  rewrite (elapsed_defined now last Hnow Hlast). cbn [mbind option_bind]. f_equal.
  destruct Hnow as [[S1 S2] [N1 N2]], Hlast as [[S3 S4] [N3 N4]].
  unfold nanoseconds, Clock.REFRESH_INTERVAL.
  set (ds := (tv_sec now - tv_sec last)%Z).
  set (dn := (tv_nsec now - tv_nsec last)%Z).
  assert (Hdn : (- 999999999 <= dn <= 999999999)%Z) by (unfold dn; lia).
  assert (Adn : (Z.abs dn < 2 ^ 53)%Z) by lia.
  replace (tv_sec now * 1000000000 + tv_nsec now
           - (tv_sec last * 1000000000 + tv_nsec last))%Z
    with (ds * 1000000000 + dn)%Z by (unfold ds, dn; ring).
  destruct (Z.leb_spec 60000000000 (ds * 1000000000 + dn)) as [Due | NotDue].
  - apply Qle_bool_true.
    destruct (Z_le_gt_dec 61%Z ds) as [D | D].
    + apply (elapsed_ge ds dn 61 (- 999999999) (- 1) 0 60 0 (- 1)); timer_side.
    + assert (D0 : ds = 60%Z) by lia.
      apply (elapsed_ge ds dn 60 0 0 0 60 0 0); timer_side.
  - apply Qle_bool_false.
    assert (B : F64.add (F64.of_int ds) (F64.div (F64.of_int dn) 1000000000)
                <= 64424509439 # 1073741824).
    { destruct (Z_le_gt_dec ds 59%Z) as [D | D].
      - apply (elapsed_le ds dn 59 999999999 1073741823 (- 30)
                 64424509439 (- 30) (1073741823 # 1073741824)); timer_side.
      - assert (D0 : ds = 60%Z) by lia.
        apply (elapsed_le ds dn 60 (- 1) (- 1) (- 30)
                 64424509439 (- 30) (- 1 # 1073741824)); timer_side. }
    assert (C : 64424509439 # 1073741824 < 60) by reflexivity. lra.
Qed.

End ClockTimer.

Lemma clock_refresh_due_exact_witness :
  Clock.refresh_due {| tv_sec := 100; tv_nsec := 5 |}
                    {| tv_sec := 40; tv_nsec := 5 |} = Some true
  /\ Clock.refresh_due {| tv_sec := 100; tv_nsec := 4 |}
                       {| tv_sec := 40; tv_nsec := 5 |} = Some false.
Proof.
  split.
  - rewrite clock_refresh_due_exact; [reflexivity | | ];
      unfold timespec_ok, LONG_MAX; cbn; lia.
  - rewrite clock_refresh_due_exact; [reflexivity | | ];
      unfold timespec_ok, LONG_MAX; cbn; lia.
Defined.

(** ** A sample run of the clock *)

Lemma run_pixmaps_witness :
  let inputs :=
    [ (Clock.Event Clock.Expose, Clock.sample_world (200, 50) 5);
      (Clock.Tick (list_byte_of_string "Sun/1 09:16PM" ++ [ x00 ]),
       Clock.sample_world (24, 11) 6) ] in
  exists st' fx,
    Clock.run Clock.sample_state inputs = Some (st', fx)
    /\ Clock.xserver_run [] fx = Some [ 6 ].
Proof.
  intros inputs.
  destruct (Clock.run Clock.sample_state inputs) as [[st' fx] | ] eqn:E;
    [ | vm_compute in E; discriminate E].
  exists st', fx. split; [reflexivity | ].
  assert (Hpm : Clock.live_of st' = [ 6 ]).
  { transitivity (match Clock.run Clock.sample_state inputs with
                  | Some p => Clock.live_of (fst p)
                  | None => []
                  end); [rewrite E; reflexivity | vm_compute; reflexivity]. }
  rewrite <- Hpm.
  apply (run_pixmaps inputs Clock.sample_state st' fx); [ | exact E].
  split; [apply not_elem_of_nil | ].
  intros st1 fx1 E1. vm_compute in E1. injection E1 as <- _.
  split; [ | intros; exact I].
  intros H. apply list_elem_of_singleton in H. discriminate H.
Defined.

Lemma render_now_geometry_witness :
  exists st' fx,
    Clock.render_now Clock.sample_state (Clock.sample_world (200, 50) 5)
    = Some (st', fx)
    /\ Clock.MoveResizeWindow 1889 0 24 11 ∈ fx
    /\ Clock.surf st' = Some (24, 11).
Proof.
  destruct (Clock.render_now Clock.sample_state (Clock.sample_world (200, 50) 5))
    as [[st' fx] | ] eqn:E; [ | vm_compute in E; discriminate E].
  exists st', fx. split; [reflexivity | ].
  assert (Hin : Clock.MoveResizeWindow 1889 0 24 11 ∈ fx).
  { assert (Hh : head fx = Some (Clock.MoveResizeWindow 1889 0 24 11)).
    { transitivity (match Clock.render_now Clock.sample_state
                            (Clock.sample_world (200, 50) 5) with
                    | Some p => head (snd p)
                    | None => None
                    end); [rewrite E; reflexivity | vm_compute; reflexivity]. }
    destruct fx as [ | e fx]; [discriminate Hh | ]. injection Hh as ->.
    apply list_elem_of_here. }
  split; [exact Hin | ].
  destruct (render_now_geometry Clock.sample_state st'
              (Clock.sample_world (200, 50) 5) fx 1889 0 24 11)
    as (_ & _ & _ & _ & _ & _ & _ & _ & _ & Hs & _).
  - vm_compute. intros H. discriminate H.
  - vm_compute. intros H. discriminate H.
  - exact E.
  - exact Hin.
  - exact Hs.
Defined.

Lemma surface_created_once_witness :
  let inputs :=
    [ (Clock.Event (Clock.ConfigureNotify 24 11), Clock.sample_world (24, 11) 6);
      (Clock.Event Clock.Expose, Clock.sample_world (24, 11) 7) ] in
  exists st st' fx0 fx,
    Clock.start 1920 1 (list_byte_of_string "Sun/1 09:15PM" ++ [ x00 ])
      (Clock.sample_world (200, 50) 5) = Some (st, fx0)
    /\ Clock.run st inputs = Some (st', fx)
    /\ List.filter Clock.is_surface_create (fx0 ++ fx) = [ Clock.SurfaceCreate 200 50 ].
Proof.
  intros inputs.
  destruct (Clock.start 1920 1 (list_byte_of_string "Sun/1 09:15PM" ++ [ x00 ])
              (Clock.sample_world (200, 50) 5)) as [[st fx0] | ] eqn:E0;
    [ | vm_compute in E0; discriminate E0].
  destruct (Clock.run st inputs) as [[st' fx] | ] eqn:E.
  - exists st, st', fx0, fx. split; [reflexivity | split; [exact E | ]].
    destruct (surface_created_once inputs _ _ _ _ st st' fx0 fx E0 E) as (H & _).
    exact H.
  - exfalso.
    assert (D : match Clock.start 1920 1 (list_byte_of_string "Sun/1 09:15PM" ++ [ x00 ])
                        (Clock.sample_world (200, 50) 5) with
                | Some p => Clock.run (fst p) inputs
                | None => None
                end = None) by (rewrite E0; exact E).
    vm_compute in D. discriminate D.
Defined.

(** ** What an iteration of the clock's loop changes *)

Section ClockFrameRule.

Lemma update_shape_mask_frame (st st' : Clock.State) (win_w win_h : Z)
    (world : Clock.World) (fx : list Clock.Effect) :
  Clock.update_shape_mask st win_w win_h world = Some (st', fx) ->
  Clock.screen_w st' = Clock.screen_w st
  /\ Clock.shape_available st' = Clock.shape_available st
  /\ (Clock.shape_pixmap st' = Clock.shape_pixmap st
      \/ (Clock.shape_pixmap st' = Clock.new_pixmap world
          /\ Clock.new_pixmap world <> 0
          /\ Clock.shape_available st <> 0)).
Proof.
  intros H.
  destruct (update_shape_mask_inv _ _ _ _ _ _ H)
    as [[-> _] | (bm & Ha & _ & Hn & -> & _)].
  - auto.
  - split; [reflexivity | ]. split; [reflexivity | ]. right.
    split; [reflexivity | ].
    unfold truthy in Ha, Hn. split.
    + destruct (Z.eqb_spec (Clock.new_pixmap world) 0); [discriminate Hn | assumption].
    + destruct (Z.eqb_spec (Clock.shape_available st) 0); [discriminate Ha | assumption].
Qed.

Lemma render_now_frame (st st' : Clock.State) (world : Clock.World)
    (fx : list Clock.Effect) :
  Clock.render_now st world = Some (st', fx) ->
  Clock.screen_w st' = Clock.screen_w st
  /\ Clock.shape_available st' = Clock.shape_available st
  /\ Clock.timebuf st' = Clock.timebuf st
  /\ (Clock.shape_pixmap st' = Clock.shape_pixmap st
      \/ (Clock.shape_pixmap st' = Clock.new_pixmap world
          /\ Clock.new_pixmap world <> 0
          /\ Clock.shape_available st <> 0)).
Proof.
  intros H.
  destruct (render_now_inv _ _ _ _ H)
    as [(_ & -> & _) | (tw & fh & st1 & fx1 & fx2 & x & y & _ & _ & _ & _ & _ & C)];
    [auto | ].
  cbn zeta in C. destruct C as (Hres & Hmask & _).
  destruct (update_shape_mask_frame _ _ _ _ _ _ Hmask) as (A & B & P).
  destruct (update_shape_mask_surface _ _ _ _ _ _ Hmask) as (_ & T & _).
  destruct Hres as [(_ & -> & _) | (_ & -> & _)]; auto.
Qed.

(** X22. The frame rule of the clock's loop.  No iteration changes
    [screen_w] or [shape_available]; the time text changes only on the
    periodic refresh, to the new time; [shape_pixmap] either stays or
    becomes the non-zero identifier the server just returned, and only
    if the shape extension is available.  A [ConfigureNotify] with a
    non-positive width or height, and any other event that is not an
    [Expose], does nothing; every other iteration ends by drawing the
    current time text. *)
Theorem clock_step_frame_rule (st st' : Clock.State)
    (i : Clock.Input * Clock.World) (fx : list Clock.Effect) :
  Clock.surf st <> None ->
  Clock.step st i = Some (st', fx) ->
  Clock.screen_w st' = Clock.screen_w st
  /\ Clock.shape_available st' = Clock.shape_available st
  /\ Clock.timebuf st' = match fst i with
                         | Clock.Tick now_text => now_text
                         | Clock.Event _ => Clock.timebuf st
                         end
  /\ (Clock.shape_pixmap st' = Clock.shape_pixmap st
      \/ (Clock.shape_pixmap st' = Clock.new_pixmap (snd i)
          /\ Clock.new_pixmap (snd i) <> 0
          /\ Clock.shape_available st <> 0))
  /\ match fst i with
     | Clock.Event Clock.OtherEvent => st' = st /\ fx = []
     | Clock.Event (Clock.ConfigureNotify w h) =>
         if (w >? 0) && (h >? 0)
         then exists pre x y, fx = pre ++ [ Clock.ShowText x y (c_str (Clock.timebuf st')) ]
         else st' = st /\ fx = []
     | _ => exists pre x y, fx = pre ++ [ Clock.ShowText x y (c_str (Clock.timebuf st')) ]
     end.
Proof.
  intros Hs. destruct i as [[[ | w h | ] | now_text] world];
    cbn [Clock.step Clock.handle_event Clock.periodic_update fst snd].
  - intros H. destruct (render_now_frame _ _ _ _ H) as (A & B & T & P).
    destruct (render_now_surface _ _ _ _ Hs H) as (_ & _ & pre & x & y & E).
    repeat (split; [assumption | ]). exists pre, x, y. rewrite T. exact E.
  - destruct ((w >? 0) && (h >? 0)); [ | intros [= <- <-]; auto 10].
    unfold Clock.ensure_surface_size.
    destruct (Clock.surf st) as [sz | ] eqn:E; [ | contradiction].
    destruct (Clock.render_now _ world) as [[st2 fx2] | ] eqn:Hr;
      [cbn [mbind option_bind] | discriminate].
    intros [= <- <-].
    destruct (render_now_frame _ _ _ _ Hr) as (A & B & T & P).
    assert (S1 : Clock.surf (Clock.set_surf (Some (w, h)) st) <> None) by discriminate.
    destruct (render_now_surface _ _ _ _ S1 Hr) as (_ & _ & pre & x & y & E2).
    cbn [Clock.set_surf Clock.screen_w Clock.shape_available Clock.timebuf
         Clock.shape_pixmap] in A, B, T, P, E2.
    repeat (split; [assumption | ]).
    exists (Clock.SurfaceSetSize w h :: pre), x, y. rewrite T, E2. reflexivity.
  - intros [= <- <-]. auto 10.
  - intros H. destruct (render_now_frame _ _ _ _ H) as (A & B & T & P).
    destruct (render_now_surface (Clock.set_timebuf now_text st) _ _ _ Hs H)
      as (_ & _ & pre & x & y & E).
    cbn [Clock.set_timebuf Clock.screen_w Clock.shape_available Clock.timebuf
         Clock.shape_pixmap] in A, B, T, P, E.
    repeat (split; [assumption | ]). exists pre, x, y. rewrite T. exact E.
Qed.

End ClockFrameRule.

Lemma clock_step_frame_rule_witness :
  let t := list_byte_of_string "Sun/1 09:16PM" ++ [ x00 ] in
  exists st' pre x y,
    Clock.step Clock.sample_state (Clock.Tick t, Clock.sample_world (200, 50) 5)
    = Some (st', pre ++ [ Clock.ShowText x y (list_byte_of_string "Sun/1 09:16PM") ])
    /\ Clock.timebuf st' = t /\ Clock.screen_w st' = 1920.
Proof.
  intros t.
  destruct (Clock.step Clock.sample_state (Clock.Tick t, Clock.sample_world (200, 50) 5))
    as [[st' fx] | ] eqn:E; [ | vm_compute in E; discriminate E].
  destruct (clock_step_frame_rule Clock.sample_state st' _ fx ltac:(discriminate) E)
    as (A & _ & T & _ & pre & x & y & Efx).
  cbn [fst] in T. exists st', pre, x, y. rewrite Efx, T.
  split; [reflexivity | split; [reflexivity | exact A]].
Defined.

(** ** [render_now] is defined *)

Section ClockDefined.

Lemma create_mask_defined (surf : Clock.A8) (w h : Z) (calloc_ok : bool) :
  0 < w -> 0 < h -> Clock.a8_ok surf w h ->
  w + 7 <= F32.INT_MAX -> (w + 7) / 8 * h <= F32.INT_MAX ->
  exists r, Clock.create_mask_from_a8 (Some surf) w h calloc_ok = Some r.
Proof.
  intros Hw Hh Hok Hw7 Hsize.
  destruct (rows_packed surf w h Hw Hh Hok Hsize) as (bits & E & _).
  destruct (bytes_per_row_covers w Hw) as [_ Hb].
  assert (Hsz : 0 <= (w + 7) / 8 * h) by (apply Z.mul_nonneg_nonneg; lia).
  unfold Clock.create_mask_from_a8.
  destruct (Z.leb_spec w 0); [lia | ]. destruct (Z.leb_spec h 0); [lia | ].
  cbn [orb]. rewrite (int_ok (w + 7)) by (unfold F32.INT_MIN; lia).
  cbn [mbind option_bind]. rewrite Z.quot_div_nonneg by lia.
  rewrite (int_ok ((w + 7) / 8 * h)) by (unfold F32.INT_MIN; lia).
  cbn [mbind option_bind]. destruct calloc_ok; cbn [negb]; [ | eexists; reflexivity].
  rewrite E. eexists; reflexivity.
Qed.

(** [(int)(t + 0.5)] is defined for an extent between 0 and 16384. *)
Lemma round_cast_defined (t : Q) :
  (0 <= t <= 16384)%Q ->
  exists n, F64.to_int (F64.add t (1 # 2)) = Some n /\ 0 <= n <= 16384.
Proof.
  intros [H0 H1]. set (r := F64.add t (1 # 2)).
  assert (Hlo : (1 # 2 <= r)%Q).
  { unfold r, F64.add. apply (f64_ge _ (1 # 2) 1 (- 1)); [reflexivity | lia | lra]. }
  assert (Hhi : (r <= 32769 # 2)%Q).
  { unfold r, F64.add. apply (f64_le _ (32769 # 2) 32769 (- 1)); [reflexivity | lia | lra]. }
  assert (Hc : int_castable r).
  { unfold int_castable. split.
    - assert (X : (inject_Z F32.INT_MIN <= 0)%Q) by (vm_compute; intros H; discriminate H).
      lra.
    - assert (X : (32769 # 2 < inject_Z F32.INT_MAX + 1)%Q) by reflexivity. lra. }
  exists (Ztrunc r). split; [exact (to_int_castable r Hc) | ].
  destruct (Ztrunc_nonneg r) as [T1 T2]; [lra | ].
  assert (A : (inject_Z (- 1) < inject_Z (Ztrunc r))%Q)
    by (change (inject_Z (- 1)) with (- 1 # 1)%Q; lra).
  assert (B : (inject_Z (Ztrunc r) < inject_Z 16385)%Q)
    by (change (inject_Z 16385) with (16385 # 1)%Q; lra).
  rewrite <- Zlt_Qlt in A, B. lia.
Qed.

(** X23. [render_now] is free of undefined behaviour for every text up
    to 16384 pixels wide in a font up to 16384 pixels high on a screen
    up to [2^30] pixels wide: both casts to [int] are in range, no [int]
    operation overflows, and, the mask surface being the A8 surface of
    the window's size, [create_mask_from_a8] stays inside both of its
    buffers, whether or not [calloc] succeeds. *)
Theorem render_now_defined (st : Clock.State) (world : Clock.World) :
  (0 <= Clock.te_width world <= 16384)%Q ->
  (0 <= Clock.fe_height world <= 16384)%Q ->
  Z.abs (Clock.screen_w st) <= 2 ^ 30 ->
  (forall w h,
     F64.to_int (F64.add (Clock.te_width world) (1 # 2)) = Some (w - 14) ->
     F64.to_int (F64.add (Clock.fe_height world) (1 # 2)) = Some (h - 6) ->
     Clock.a8_ok (Clock.mask world) w h) ->
  exists st' fx, Clock.render_now st world = Some (st', fx).
Proof.
  intros Htw Hfh Hsw Hmask. unfold Clock.render_now.
  destruct (Clock.surf st) as [sz | ] eqn:Hsurf; [ | eexists _, _; reflexivity].
  destruct (round_cast_defined _ Htw) as (tw & Etw & Rtw).
  destruct (round_cast_defined _ Hfh) as (fh & Efh & Rfh).
  rewrite Etw, Efh. cbn [mbind option_bind].
  change (2 * Clock.H_PADDING) with 14. change (2 * Clock.V_PADDING) with 6.
  rewrite (int_ok (tw + 14)) by (unfold F32.INT_MIN, F32.INT_MAX; lia).
  cbn [mbind option_bind].
  rewrite (int_ok (fh + 6)) by (unfold F32.INT_MIN, F32.INT_MAX; lia).
  cbn [mbind option_bind].
  destruct (Z.ltb_spec (fh + 6) 1) as [L | _]; [lia | ].
  assert (Hok : Clock.a8_ok (Clock.mask world) (tw + 14) (fh + 6)).
  { apply Hmask; [rewrite Etw | rewrite Efh]; f_equal; lia. }
  assert (Hsize : (tw + 14 + 7) / 8 * (fh + 6) <= F32.INT_MAX).
  { assert (B1 : 0 <= (tw + 14 + 7) / 8 <= 2051).
    { split; [apply Z.div_pos; lia | apply Z.div_le_upper_bound; lia]. }
    assert (B2 : (tw + 14 + 7) / 8 * (fh + 6) <= 2051 * 16390)
      by (apply Z.mul_le_mono_nonneg; lia).
    unfold F32.INT_MAX. lia. }
  assert (Mask : forall s,
            exists s2 fx2,
              Clock.update_shape_mask s (tw + 14) (fh + 6) world = Some (s2, fx2)).
  { intros s. unfold Clock.update_shape_mask.
    destruct (negb (truthy (Clock.shape_available s))); [eexists _, _; reflexivity | ].
    destruct (create_mask_defined (Clock.mask world) (tw + 14) (fh + 6)
                (Clock.calloc_ok world)) as [[bm | ] E];
      try (unfold F32.INT_MAX; lia); try assumption;
      rewrite E; cbn [mbind option_bind]; [ | eexists _, _; reflexivity].
    destruct (truthy (Clock.new_pixmap world)); eexists _, _; reflexivity. }
  destruct (negb (fst (Clock.wattr world) =? tw + 14)
            || negb (snd (Clock.wattr world) =? fh + 6)).
  - rewrite (int_ok (Clock.screen_w st - (tw + 14)))
      by (unfold F32.INT_MIN, F32.INT_MAX; lia).
    cbn [mbind option_bind]. unfold Clock.H_PADDING.
    rewrite (int_ok (Clock.screen_w st - (tw + 14) - 7))
      by (unfold F32.INT_MIN, F32.INT_MAX; lia).
    cbn [mbind option_bind]. unfold Clock.ensure_surface_size. rewrite Hsurf.
    cbn [mbind option_bind].
    destruct (Mask (Clock.set_surf (Some (tw + 14, fh + 6)) st)) as (s2 & fx2 & E).
    rewrite E. cbn [mbind option_bind]. eexists _, _; reflexivity.
  - cbn [mbind option_bind].
    destruct (Mask st) as (s2 & fx2 & E).
    rewrite E. cbn [mbind option_bind]. eexists _, _; reflexivity.
Qed.

End ClockDefined.

Lemma render_now_defined_witness :
  exists st' fx,
    Clock.render_now Clock.sample_state (Clock.sample_world (200, 50) 5)
    = Some (st', fx).
Proof.
  apply render_now_defined.
  - vm_compute. split; intros H; discriminate H.
  - vm_compute. split; intros H; discriminate H.
  - vm_compute. intros H; discriminate H.
  - intros w h Hw Hh.
    assert (Vw : F64.to_int (F64.add (Clock.te_width (Clock.sample_world (200, 50) 5))
                               (1 # 2)) = Some 10) by (vm_compute; reflexivity).
    assert (Vh : F64.to_int (F64.add (Clock.fe_height (Clock.sample_world (200, 50) 5))
                               (1 # 2)) = Some 5) by (vm_compute; reflexivity).
    rewrite Vw in Hw. rewrite Vh in Hh.
    assert (Ew : w = 24) by (injection Hw as Hw; lia).
    assert (Eh : h = 11) by (injection Hh as Hh; lia).
    subst w h. unfold Clock.a8_ok. split; [vm_compute; intros H; discriminate H | ].
    split; [reflexivity | ]. split; [vm_compute; intros H; discriminate H | ].
    apply Forall_forall. intros v Hv. vm_compute in Hv.
    repeat (apply elem_of_cons in Hv as [-> | Hv]; [lia | ]).
    apply elem_of_nil in Hv. contradiction.
Defined.
